(** * Pool-backed virtual files: a model of
    pkg/filesystem/virtual/pool_backed_file_allocator.go

    The Go type [fileBackedFile] is embedded as a record, its methods as
    computations in a small state monad whose outcomes are a normal
    return, a Go panic, or a wait that never ends when the method runs
    alone.  Calls on the collaborators of the file (the backing file
    obtained from the pool, the error logger, the metrics counter and the
    Content Addressable Storage) are recorded in an event log, so that
    statements such as "the backing file is closed once" can be made.

    The second half of the file puts the same method bodies under an
    interleaving semantics with an explicit [sync.RWMutex] and the
    [unfreezeWakeup] channel. *)

From Stdlib Require Import ZArith List String Bool Lia.
Import ListNotations.
Local Open Scope Z_scope.

Set Implicit Arguments.

(** ** Machine integers *)

(** [uint64] and, on the 64-bit platforms this code is built for, [uint]
    are integers modulo [2^64]. *)
Definition wrap64 (z : Z) : Z := z mod 2 ^ 64.

(** Largest value of a [uint64]. *)
Definition MaxUint64 : Z := 2 ^ 64 - 1.

(** [math.MaxInt64]. *)
Definition MaxInt64 : Z := 2 ^ 63 - 1.

(** The conversion [int64(x)] of a [uint64]. *)
Definition int64 (x : Z) : Z :=
  if wrap64 x <? 2 ^ 63 then wrap64 x else wrap64 x - 2 ^ 64.

(** The conversion [uint64(x)] of an [int] or [int64]. *)
Definition uint64 (x : Z) : Z := wrap64 x.

(** [x + y], [x - y] and [x++] on unsigned 64-bit operands. *)
Definition uadd (x y : Z) : Z := wrap64 (x + y).
Definition usub (x y : Z) : Z := wrap64 (x - y).
Definition uinc (x : Z) : Z := uadd x 1.
Definition udec (x : Z) : Z := usub x 1.

(** ** Declarations of package [virtual] used by the file *)

(** The status codes the methods of [fileBackedFile] return. *)
Inductive Status : Type :=
| StatusOK
| StatusErrIO
| StatusErrStale
| StatusErrNXIO
| StatusErrInval.

Definition Status_eqb (a b : Status) : bool :=
  match a, b with
  | StatusOK, StatusOK
  | StatusErrIO, StatusErrIO
  | StatusErrStale, StatusErrStale
  | StatusErrNXIO, StatusErrNXIO
  | StatusErrInval, StatusErrInval => true
  | _, _ => false
  end.

(** gRPC status codes carried by the errors this file creates. *)
Inductive Code : Type :=
| CodeUnknown
| CodeNotFound
| CodeInternal.

(** Go [error] values; a nil [error] is [None]. *)
Inductive error : Type :=
| EOF
| EINVAL
| StatusError (c : Code) (msg : string).

(** [status.Code(err)]. *)
Definition error_code (e : error) : Code :=
  match e with
  | StatusError c _ => c
  | _ => CodeUnknown
  end.

Definition error_message (e : error) : string :=
  match e with
  | EOF => "EOF"
  | EINVAL => "invalid argument"
  | StatusError _ msg => msg
  end.

(** [util.StatusWrap(err, msg)] keeps the code, [util.StatusWrapWithCode]
    replaces it. *)
Definition StatusWrap (e : error) (msg : string) : error :=
  StatusError (error_code e) (msg ++ ": " ++ error_message e)%string.

Definition StatusWrapWithCode (e : error) (c : Code) (msg : string) : error :=
  StatusError c (msg ++ ": " ++ error_message e)%string.

(** [filesystem.RegionType]. *)
Inductive RegionType : Type :=
| Data
| Hole.

Inductive FileType : Type :=
| FileTypeRegularFile.

(** Constants and the method [ShareMask.Count] of package [virtual] that
    are declared outside this source file.  They are kept abstract. *)
Class VirtualDecls : Type := {
  ShareMaskWrite : Z;
  ShareMask_Count : Z -> Z;
  PermissionsRead : Z;
  PermissionsWrite : Z;
  PermissionsExecute : Z;
  AttributesMaskChangeID : Z;
  AttributesMaskPermissions : Z;
  AttributesMaskSizeBytes : Z
}.

(** [Attributes]: every attribute is either set or absent. *)
Record Attributes : Type := {
  attrFileType : option FileType;
  attrChangeID : option Z;
  attrPermissions : option Z;
  attrSizeBytes : option Z
}.

Definition emptyAttributes : Attributes :=
  {| attrFileType := None; attrChangeID := None;
     attrPermissions := None; attrSizeBytes := None |}.

Definition SetFileType (t : FileType) (a : Attributes) : Attributes :=
  {| attrFileType := Some t; attrChangeID := attrChangeID a;
     attrPermissions := attrPermissions a; attrSizeBytes := attrSizeBytes a |}.

Definition SetChangeID (c : Z) (a : Attributes) : Attributes :=
  {| attrFileType := attrFileType a; attrChangeID := Some c;
     attrPermissions := attrPermissions a; attrSizeBytes := attrSizeBytes a |}.

Definition SetPermissions (p : Z) (a : Attributes) : Attributes :=
  {| attrFileType := attrFileType a; attrChangeID := attrChangeID a;
     attrPermissions := Some p; attrSizeBytes := attrSizeBytes a |}.

Definition SetSizeBytes (s : Z) (a : Attributes) : Attributes :=
  {| attrFileType := attrFileType a; attrChangeID := attrChangeID a;
     attrPermissions := attrPermissions a; attrSizeBytes := Some s |}.

(** Modelled from the spec: [BoundReadToFileSize], a helper of package
    [virtual] that is not part of this source file.  The spec has [Read]
    clip "the requested range to [0, size)"; the flag tells whether the
    clipped range ends at the end of the file. *)
Definition BoundReadToFileSize (buf : list Byte.byte) (off size : Z)
  : list Byte.byte * bool :=
  if size <=? off then ([], true)
  else if size - off <=? Z.of_nat (List.length buf)
       then (firstn (Z.to_nat (size - off)) buf, true)
       else (buf, false).

(** ** Collaborators *)

(** [filesystem.FileReadWriter], the backing file handed out by the pool.
    A handle has state of its own, which every call may change.  [ReadAt]
    is given the length of the buffer and returns the bytes it read. *)
Class FileReadWriter (F : Type) : Type := {
  file_ReadAt : F -> Z -> Z -> (list Byte.byte * option error) * F;
  file_WriteAt : F -> list Byte.byte -> Z -> (Z * option error) * F;
  file_Truncate : F -> Z -> option error * F;
  file_GetNextRegionOffset : F -> Z -> RegionType -> (Z * option error) * F;
  file_Close : F -> option error
}.

(** Package [digest] of bb-storage: digests, digest functions, and the
    generator that hashes a stream ([NewGenerator], [Write], [Sum]). *)
Class DigestDecls : Type := {
  Digest : Type;
  digest_Function : Type;
  BadDigest : Digest;
  Digest_eqb : Digest -> Digest -> bool;
  UsesDigestFunction : Digest -> digest_Function -> bool;
  GetSizeBytes : Digest -> Z;
  Generator_Sum : digest_Function -> list Byte.byte -> Digest
}.

(** What a [BlobAccess.Put] does with the buffer it is handed: the ranges
    it reads through the buffer's [ReaderAt] before the buffer is closed,
    and the error it reports when all reads went well. *)
Record BlobAccess `{DigestDecls} : Type := {
  put_reads : Digest -> list (Z * Z);
  put_result : Digest -> option error
}.

(** ** Outcomes and the monad of method calls *)

(** How a call ends: it returns, it panics (the Go program aborts), it
    waits for an event only another goroutine can cause, or the fuel of a
    loop of the model ran out. *)
Inductive outcome (A : Type) : Type :=
| Done (a : A)
| Panicked (msg : string)
| Blocks
| OutOfFuel.

Arguments Done {A} a.
Arguments Panicked {A} msg.
Arguments Blocks {A}.
Arguments OutOfFuel {A}.

Definition Mon (S A : Type) : Type := S -> outcome (A * S).

Definition ret {S A : Type} (a : A) : Mon S A := fun s => Done (a, s).

Definition bind {S A B : Type} (m : Mon S A) (k : A -> Mon S B) : Mon S B :=
  fun s =>
    match m s with
    | Done (a, s') => k a s'
    | Panicked msg => Panicked msg
    | Blocks => Blocks
    | OutOfFuel => OutOfFuel
    end.

Definition panic {S A : Type} (msg : string) : Mon S A := fun _ => Panicked msg.

Definition block {S A : Type} : Mon S A := fun _ => Blocks.

Definition outOfFuel {S A : Type} : Mon S A := fun _ => OutOfFuel.

Definition get {S : Type} : Mon S S := fun s => Done (s, s).

Definition modify {S : Type} (g : S -> S) : Mon S unit := fun s => Done (tt, g s).

Declare Scope mon_scope.
Delimit Scope mon_scope with mon.
Notation "x <- m ;; k" := (bind m (fun x => k))
  (at level 61, m at next level, right associativity) : mon_scope.
Notation "m ;; k" := (bind m (fun _ => k))
  (at level 61, right associativity) : mon_scope.
Local Open Scope mon_scope.

(** What a Go program does on a method call through a nil interface. *)
Definition nilDereference : string :=
  "invalid memory address or nil pointer dereference".

(** ** The file object *)

Section Model.

Context {F : Type} {FRW : FileReadWriter F} {DD : DigestDecls} {VD : VirtualDecls}.

(** [fileBackedFile].  [file] is [None] once the Go field is nil; the
    channel [unfreezeWakeup] is represented by its generation: a
    [make(chan struct{})] yields the next generation, and the channels of
    all earlier generations have been closed.  The fields [errorLogger]
    and [lock] are not data: the former is the event log of the world
    below, the latter is dealt with by the interleaving semantics. *)
Record fileBackedFile : Type := {
  file : option F;
  isExecutable : bool;
  size : Z;
  referenceCount : Z;
  writableDescriptorsCount : Z;
  frozenDescriptorsCount : Z;
  unfreezeWakeup : nat;
  cachedDigest : Digest;
  changeID : Z
}.

Definition with_file (v : option F) (f : fileBackedFile) : fileBackedFile :=
  {| file := v; isExecutable := isExecutable f; size := size f;
     referenceCount := referenceCount f;
     writableDescriptorsCount := writableDescriptorsCount f;
     frozenDescriptorsCount := frozenDescriptorsCount f;
     unfreezeWakeup := unfreezeWakeup f; cachedDigest := cachedDigest f;
     changeID := changeID f |}.

Definition with_isExecutable (v : bool) (f : fileBackedFile) : fileBackedFile :=
  {| file := file f; isExecutable := v; size := size f;
     referenceCount := referenceCount f;
     writableDescriptorsCount := writableDescriptorsCount f;
     frozenDescriptorsCount := frozenDescriptorsCount f;
     unfreezeWakeup := unfreezeWakeup f; cachedDigest := cachedDigest f;
     changeID := changeID f |}.

Definition with_size (v : Z) (f : fileBackedFile) : fileBackedFile :=
  {| file := file f; isExecutable := isExecutable f; size := v;
     referenceCount := referenceCount f;
     writableDescriptorsCount := writableDescriptorsCount f;
     frozenDescriptorsCount := frozenDescriptorsCount f;
     unfreezeWakeup := unfreezeWakeup f; cachedDigest := cachedDigest f;
     changeID := changeID f |}.

Definition with_referenceCount (v : Z) (f : fileBackedFile) : fileBackedFile :=
  {| file := file f; isExecutable := isExecutable f; size := size f;
     referenceCount := v;
     writableDescriptorsCount := writableDescriptorsCount f;
     frozenDescriptorsCount := frozenDescriptorsCount f;
     unfreezeWakeup := unfreezeWakeup f; cachedDigest := cachedDigest f;
     changeID := changeID f |}.

Definition with_writableDescriptorsCount (v : Z) (f : fileBackedFile)
  : fileBackedFile :=
  {| file := file f; isExecutable := isExecutable f; size := size f;
     referenceCount := referenceCount f;
     writableDescriptorsCount := v;
     frozenDescriptorsCount := frozenDescriptorsCount f;
     unfreezeWakeup := unfreezeWakeup f; cachedDigest := cachedDigest f;
     changeID := changeID f |}.

Definition with_frozenDescriptorsCount (v : Z) (f : fileBackedFile)
  : fileBackedFile :=
  {| file := file f; isExecutable := isExecutable f; size := size f;
     referenceCount := referenceCount f;
     writableDescriptorsCount := writableDescriptorsCount f;
     frozenDescriptorsCount := v;
     unfreezeWakeup := unfreezeWakeup f; cachedDigest := cachedDigest f;
     changeID := changeID f |}.

Definition with_unfreezeWakeup (v : nat) (f : fileBackedFile) : fileBackedFile :=
  {| file := file f; isExecutable := isExecutable f; size := size f;
     referenceCount := referenceCount f;
     writableDescriptorsCount := writableDescriptorsCount f;
     frozenDescriptorsCount := frozenDescriptorsCount f;
     unfreezeWakeup := v; cachedDigest := cachedDigest f;
     changeID := changeID f |}.

Definition with_cachedDigest (v : Digest) (f : fileBackedFile) : fileBackedFile :=
  {| file := file f; isExecutable := isExecutable f; size := size f;
     referenceCount := referenceCount f;
     writableDescriptorsCount := writableDescriptorsCount f;
     frozenDescriptorsCount := frozenDescriptorsCount f;
     unfreezeWakeup := unfreezeWakeup f; cachedDigest := v;
     changeID := changeID f |}.

Definition with_changeID (v : Z) (f : fileBackedFile) : fileBackedFile :=
  {| file := file f; isExecutable := isExecutable f; size := size f;
     referenceCount := referenceCount f;
     writableDescriptorsCount := writableDescriptorsCount f;
     frozenDescriptorsCount := frozenDescriptorsCount f;
     unfreezeWakeup := unfreezeWakeup f; cachedDigest := cachedDigest f;
     changeID := v |}.

(** Calls on the collaborators, in the order they were made (the most
    recent one first). *)
Inductive event : Type :=
| EvReadAt (len : Z) (off : Z)
| EvWriteAt (buf : list Byte.byte) (off : Z)
| EvTruncate (sz : Z)
| EvGetNextRegionOffset (off : Z) (r : RegionType)
| EvClose
| EvLog (msg : string) (cause : option error)
| EvMetricInc
| EvChanClose (c : nat)
| EvPut (d : Digest).

Record World : Type := {
  self : fileBackedFile;
  events : list event
}.

Definition M (A : Type) : Type := Mon World A.

Definition getf : M fileBackedFile := fun w => Done (self w, w).

Definition modf (g : fileBackedFile -> fileBackedFile) : M unit :=
  modify (fun w => {| self := g (self w); events := events w |}).

Definition emit (e : event) : M unit :=
  modify (fun w => {| self := self w; events := e :: events w |}).

(** A call [f.file.m(...)]: a nil [f.file] panics; otherwise the call is
    logged and the handle takes its new state. *)
Definition backing {A : Type} (call : F -> A * F) (e : event) : M A :=
  f <- getf ;;
  match file f with
  | None => panic nilDereference
  | Some h =>
      emit e ;;
      modf (with_file (Some (snd (call h)))) ;;
      ret (fst (call h))
  end.

(** [f.lock.Lock()], [f.lock.Unlock()] and their shared variants: a call
    that runs alone gets the lock at once. *)
Definition f_lock_Lock : M unit := ret tt.
Definition f_lock_Unlock : M unit := ret tt.
Definition f_lock_RLock : M unit := ret tt.
Definition f_lock_RUnlock : M unit := ret tt.

(** The loop of [lockMutatingData], entered with the lock held: with a
    frozen descriptor outstanding the caller drops the lock and waits on
    [unfreezeWakeup], which only another goroutine can close. *)
Definition waitUnfrozen : M unit :=
  f <- getf ;;
  if 0 <? frozenDescriptorsCount f then block else ret tt.

Definition lockMutatingData : M unit :=
  f_lock_Lock ;;
  waitUnfrozen.

Definition acquireFrozenDescriptor_locked : M (bool * bool) :=
  f <- getf ;;
  if referenceCount f =? 0 then ret (false, false)
  else
    modf (fun f => with_referenceCount (uinc (referenceCount f)) f) ;;
    modf (fun f => with_frozenDescriptorsCount (uinc (frozenDescriptorsCount f)) f) ;;
    f <- getf ;;
    ret (0 <? writableDescriptorsCount f, true).

Definition acquireFrozenDescriptor : M (bool * bool) :=
  f_lock_Lock ;;
  r <- acquireFrozenDescriptor_locked ;;
  f_lock_Unlock ;;
  ret r.

Definition releaseReferencesLocked (count : Z) : M unit :=
  f <- getf ;;
  if referenceCount f <? count then panic "Invalid reference count"
  else
    modf (fun f => with_referenceCount (usub (referenceCount f) count) f) ;;
    f <- getf ;;
    if referenceCount f =? 0 then
      match file f with
      | None => panic nilDereference
      | Some h =>
          let _ := file_Close h in
          emit EvClose ;;
          modf (with_file None)
      end
    else ret tt.

Definition releaseFrozenDescriptor_locked : M unit :=
  f <- getf ;;
  if frozenDescriptorsCount f =? 0
  then panic "Invalid open frozen descriptor count"
  else
    modf (fun f => with_frozenDescriptorsCount (udec (frozenDescriptorsCount f)) f) ;;
    f <- getf ;;
    (if frozenDescriptorsCount f =? 0 then
       emit (EvChanClose (unfreezeWakeup f)) ;;
       modf (with_unfreezeWakeup (S (unfreezeWakeup f)))
     else ret tt) ;;
    releaseReferencesLocked 1.

Definition releaseFrozenDescriptor : M unit :=
  f_lock_Lock ;;
  releaseFrozenDescriptor_locked ;;
  f_lock_Unlock.

(** [shareAccess.Count()], a [uint]. *)
Definition Count (shareAccess : Z) : Z := wrap64 (ShareMask_Count shareAccess).

Definition acquireShareAccessLocked (shareAccess : Z) : M unit :=
  modf (fun f => with_referenceCount
                   (uadd (referenceCount f) (Count shareAccess)) f) ;;
  if Z.land shareAccess ShareMaskWrite =? 0 then ret tt
  else modf (fun f => with_writableDescriptorsCount
                        (uinc (writableDescriptorsCount f)) f).

Definition Link_locked : M Status :=
  f <- getf ;;
  if referenceCount f =? 0 then ret StatusErrStale
  else
    modf (fun f => with_referenceCount (uinc (referenceCount f)) f) ;;
    ret StatusOK.

Definition Link : M Status :=
  f_lock_Lock ;;
  s <- Link_locked ;;
  f_lock_Unlock ;;
  ret s.

Definition Readlink : string * option error := (EmptyString, Some EINVAL).

Definition Unlink : M unit :=
  f_lock_Lock ;;
  releaseReferencesLocked 1 ;;
  f_lock_Unlock.

Definition getCachedDigest : M Digest :=
  f_lock_RLock ;;
  f <- getf ;;
  f_lock_RUnlock ;;
  ret (cachedDigest f).

(** [Close]: the frozen descriptor seen as an [io.Closer]. *)
Definition Close : M (option error) :=
  releaseFrozenDescriptor ;;
  ret None.

Definition ReadAt_locked (len : Z) (off : Z) : M (list Byte.byte * option error) :=
  backing (fun h => file_ReadAt h len off) (EvReadAt len off).

Definition ReadAt (len : Z) (off : Z) : M (list Byte.byte * option error) :=
  f_lock_Lock ;;
  r <- ReadAt_locked len off ;;
  f_lock_Unlock ;;
  ret r.

(** [io.Copy(digestGenerator, io.NewSectionReader(f, 0, math.MaxInt64))]:
    the section reader asks [f.ReadAt] for at most [copyBufferSize] bytes
    at a time, until the end of the section or an error; the generator
    takes every byte that was read.  [acc] is what the generator has
    taken so far, and the result is the error of [io.Copy]. *)
Definition copyBufferSize : Z := 32 * 1024.

Fixpoint io_Copy (fuel : nat) (off : Z) (acc : list Byte.byte)
  : M (list Byte.byte * option error) :=
  match fuel with
  | O => outOfFuel
  | S fuel' =>
      if MaxInt64 <=? off then ret (acc, None)
      else
        r <- ReadAt (Z.min copyBufferSize (MaxInt64 - off)) off ;;
        match snd r with
        | Some EOF => ret (acc ++ fst r, None)
        | Some e => ret (acc ++ fst r, Some e)
        | None => io_Copy fuel' (off + Z.of_nat (List.length (fst r))) (acc ++ fst r)
        end
  end.

Definition updateCachedDigest (fuel : nat) (digestFunction : digest_Function)
  : M (Digest * option error) :=
  cached <- getCachedDigest ;;
  if negb (Digest_eqb cached BadDigest) && UsesDigestFunction cached digestFunction
  then ret (cached, None)
  else
    r <- io_Copy fuel 0 [] ;;
    match snd r with
    | Some err =>
        ret (BadDigest,
             Some (StatusWrapWithCode err CodeInternal "Failed to compute file digest"))
    | None =>
        let newDigest := Generator_Sum digestFunction (fst r) in
        f_lock_Lock ;;
        modf (with_cachedDigest newDigest) ;;
        f_lock_Unlock ;;
        ret (newDigest, None)
    end.

(** The reads a store makes through the buffer it was handed; the first
    error other than the end of the file ends them. *)
Fixpoint buffer_reads (reads : list (Z * Z)) : M (option error) :=
  match reads with
  | [] => ret None
  | (len, off) :: rest =>
      r <- ReadAt len off ;;
      match snd r with
      | Some EOF | None => buffer_reads rest
      | Some e => ret (Some e)
      end
  end.

(** [contentAddressableStorage.Put(ctx, blobDigest,
    buffer.NewValidatedBufferFromReaderAt(f, size))]: the buffer owns [f]
    as its reader and closes it when the store has consumed or discarded
    it, which by the contract of [BlobAccess] happens before [Put]
    returns. *)
Definition BlobAccess_Put (contentAddressableStorage : BlobAccess) (blobDigest : Digest)
  : M (option error) :=
  emit (EvPut blobDigest) ;;
  readErr <- buffer_reads (put_reads contentAddressableStorage blobDigest) ;;
  Close ;;
  match readErr with
  | Some e => ret (Some e)
  | None => ret (put_result contentAddressableStorage blobDigest)
  end.

Definition UploadFile (fuel : nat) (contentAddressableStorage : BlobAccess)
  (digestFunction : digest_Function) : M (Digest * option error) :=
  a <- acquireFrozenDescriptor ;;
  if negb (snd a) then
    ret (BadDigest,
         Some (StatusError CodeNotFound "File was unlinked before uploading could start"))
  else
    (if fst a then emit EvMetricInc else ret tt) ;;
    r <- updateCachedDigest fuel digestFunction ;;
    match snd r with
    | Some err =>
        Close ;;
        ret (BadDigest, Some err)
    | None =>
        putErr <- BlobAccess_Put contentAddressableStorage (fst r) ;;
        match putErr with
        | Some err => ret (BadDigest, Some (StatusWrap err "Failed to upload file"))
        | None => ret (fst r, None)
        end
    end.

Definition GetContainingDigests : list Digest := [].

(** [remoteoutputservice.FileStatus] of a regular file: its digest, when
    one is reported. *)
Record FileStatus : Type := {
  fileStatusDigest : option Digest
}.

Definition GetOutputServiceFileStatus (fuel : nat)
  (digestFunction : option digest_Function) : M (option FileStatus * option error) :=
  match digestFunction with
  | None => ret (Some {| fileStatusDigest := None |}, None)
  | Some fn =>
      a <- acquireFrozenDescriptor ;;
      if negb (snd a) then
        ret (None,
             Some (StatusError CodeNotFound
                     "File was unlinked before digest computation could start"))
      else
        res <- (if negb (fst a) then
                  r <- updateCachedDigest fuel fn ;;
                  match snd r with
                  | Some err => ret (None, Some err)
                  | None => ret (Some {| fileStatusDigest := Some (fst r) |}, None)
                  end
                else ret (Some {| fileStatusDigest := None |}, None)) ;;
        releaseFrozenDescriptor ;;
        ret res
  end.

(** [remoteexecution.FileNode] *)
Record FileNode : Type := {
  fileNodeName : string;
  fileNodeDigest : Digest;
  fileNodeIsExecutable : bool
}.

Definition AppendOutputPathPersistencyDirectoryNode (files : list FileNode)
  (name : string) : M (list FileNode) :=
  cached <- getCachedDigest ;;
  if negb (Digest_eqb cached BadDigest) then
    f <- getf ;;
    ret (files ++ [ {| fileNodeName := name; fileNodeDigest := cachedDigest f;
                       fileNodeIsExecutable := isExecutable f |} ])
  else ret files.

Definition virtualTruncate (sz : Z) : M Status :=
  err <- backing (fun h => file_Truncate h (int64 sz)) (EvTruncate (int64 sz)) ;;
  match err with
  | Some e =>
      emit (EvLog "Failed to truncate file to length" (Some e)) ;;
      ret StatusErrIO
  | None =>
      modf (with_cachedDigest BadDigest) ;;
      modf (with_size sz) ;;
      modf (fun f => with_changeID (uinc (changeID f)) f) ;;
      ret StatusOK
  end.

Definition VirtualAllocate_locked (off sz : Z) : M Status :=
  f <- getf ;;
  let end_ := uadd (uint64 off) (uint64 sz) in
  if size f <? end_ then
    s <- virtualTruncate end_ ;;
    if negb (Status_eqb s StatusOK) then ret s else ret StatusOK
  else ret StatusOK.

Definition VirtualAllocate (off sz : Z) : M Status :=
  lockMutatingData ;;
  s <- VirtualAllocate_locked off sz ;;
  f_lock_Unlock ;;
  ret s.

Definition virtualGetAttributesUnlocked (attributes : Attributes) : Attributes :=
  SetFileType FileTypeRegularFile attributes.

Definition virtualGetAttributesLocked (f : fileBackedFile) (attributes : Attributes)
  : Attributes :=
  let attributes := SetChangeID (changeID f) attributes in
  let permissions := Z.lor PermissionsRead PermissionsWrite in
  let permissions :=
    if isExecutable f then Z.lor permissions PermissionsExecute else permissions in
  let attributes := SetPermissions permissions attributes in
  SetSizeBytes (size f) attributes.

Definition VirtualGetAttributes (requested : Z) (attributes : Attributes)
  : M Attributes :=
  let attributes := virtualGetAttributesUnlocked attributes in
  if Z.land requested
       (Z.lor (Z.lor AttributesMaskChangeID AttributesMaskPermissions)
              AttributesMaskSizeBytes) =? 0
  then ret attributes
  else
    f_lock_RLock ;;
    f <- getf ;;
    f_lock_RUnlock ;;
    ret (virtualGetAttributesLocked f attributes).

Definition VirtualSeek (offset : Z) (regionType : RegionType)
  : M (option Z * Status) :=
  f_lock_Lock ;;
  f <- getf ;;
  if size f <=? offset then
    f_lock_Unlock ;;
    ret (None, StatusErrNXIO)
  else
    r <- backing (fun h => file_GetNextRegionOffset h (int64 offset) regionType)
                 (EvGetNextRegionOffset (int64 offset) regionType) ;;
    f_lock_Unlock ;;
    match snd r with
    | Some EOF => ret (None, StatusOK)
    | Some e =>
        emit (EvLog "Failed to get next region offset at offset" (Some e)) ;;
        ret (None, StatusErrIO)
    | None => ret (Some (uint64 (fst r)), StatusOK)
    end.

Definition VirtualOpenSelf_locked (shareAccess : Z) (truncate : bool)
  (attributes : Attributes) : M (Status * Attributes) :=
  f <- getf ;;
  if referenceCount f =? 0 then ret (StatusErrStale, attributes)
  else
    s <- (if truncate then virtualTruncate 0 else ret StatusOK) ;;
    if negb (Status_eqb s StatusOK) then ret (s, attributes)
    else
      acquireShareAccessLocked shareAccess ;;
      f <- getf ;;
      ret (StatusOK,
           virtualGetAttributesLocked f (virtualGetAttributesUnlocked attributes)).

Definition VirtualOpenSelf (shareAccess : Z) (truncate : bool)
  (attributes : Attributes) : M (Status * Attributes) :=
  (if truncate then lockMutatingData else f_lock_Lock) ;;
  r <- VirtualOpenSelf_locked shareAccess truncate attributes ;;
  f_lock_Unlock ;;
  ret r.

(** [VirtualRead] returns the bytes placed in the buffer next to the
    three results of the Go method. *)
Definition VirtualRead_locked (buf : list Byte.byte) (off : Z)
  : M (list Byte.byte * Z * bool * Status) :=
  f <- getf ;;
  let bound := BoundReadToFileSize buf off (size f) in
  if (0 <? List.length (fst bound))%nat then
    r <- backing (fun h => file_ReadAt h (Z.of_nat (List.length (fst bound))) (int64 off))
                 (EvReadAt (Z.of_nat (List.length (fst bound))) (int64 off)) ;;
    if negb (List.length (fst r) =? List.length (fst bound))%nat then
      emit (EvLog "Failed to read from file at offset" (snd r)) ;;
      ret ([], 0, false, StatusErrIO)
    else ret (fst r, Z.of_nat (List.length (fst bound)), snd bound, StatusOK)
  else ret ([], Z.of_nat (List.length (fst bound)), snd bound, StatusOK).

Definition VirtualRead (buf : list Byte.byte) (off : Z)
  : M (list Byte.byte * Z * bool * Status) :=
  f_lock_Lock ;;
  r <- VirtualRead_locked buf off ;;
  f_lock_Unlock ;;
  ret r.

Definition VirtualReadlink : option (list Byte.byte) * Status :=
  (None, StatusErrInval).

Definition VirtualClose_locked (shareAccess : Z) : M unit :=
  (if Z.land shareAccess ShareMaskWrite =? 0 then ret tt
   else
     f <- getf ;;
     if writableDescriptorsCount f =? 0
     then panic "Invalid writable descriptor count"
     else modf (fun f => with_writableDescriptorsCount
                           (udec (writableDescriptorsCount f)) f)) ;;
  releaseReferencesLocked (Count shareAccess).

Definition VirtualClose (shareAccess : Z) : M unit :=
  f_lock_Lock ;;
  VirtualClose_locked shareAccess ;;
  f_lock_Unlock.

Definition VirtualSetAttributes_locked (in_ out : Attributes)
  : M (Status * Attributes) :=
  s <- match attrSizeBytes in_ with
       | Some sizeBytes => virtualTruncate sizeBytes
       | None => ret StatusOK
       end ;;
  if negb (Status_eqb s StatusOK) then ret (s, out)
  else
    match attrPermissions in_ with
    | Some permissions =>
        modf (with_isExecutable (negb (Z.land permissions PermissionsExecute =? 0))) ;;
        modf (fun f => with_changeID (uinc (changeID f)) f)
    | None => ret tt
    end ;;
    f <- getf ;;
    ret (StatusOK, virtualGetAttributesLocked f (virtualGetAttributesUnlocked out)).

Definition VirtualSetAttributes (in_ : Attributes) (requested : Z) (out : Attributes)
  : M (Status * Attributes) :=
  match attrSizeBytes in_ with
  | Some _ => lockMutatingData
  | None => f_lock_Lock
  end ;;
  r <- VirtualSetAttributes_locked in_ out ;;
  f_lock_Unlock ;;
  ret r.

Definition VirtualWrite_locked (buf : list Byte.byte) (offset : Z) : M (Z * Status) :=
  r <- backing (fun h => file_WriteAt h buf (int64 offset))
               (EvWriteAt buf (int64 offset)) ;;
  let nWritten := fst r in
  (if 0 <? nWritten then
     modf (with_cachedDigest BadDigest) ;;
     f <- getf ;;
     let end_ := uadd offset (uint64 nWritten) in
     (if size f <? end_ then modf (with_size end_) else ret tt) ;;
     modf (fun f => with_changeID (uinc (changeID f)) f)
   else ret tt) ;;
  match snd r with
  | Some err =>
      emit (EvLog "Failed to write to file at offset" (Some err)) ;;
      ret (nWritten, StatusErrIO)
  | None => ret (nWritten, StatusOK)
  end.

Definition VirtualWrite (buf : list Byte.byte) (offset : Z) : M (Z * Status) :=
  lockMutatingData ;;
  r <- VirtualWrite_locked buf offset ;;
  f_lock_Unlock ;;
  ret r.

(** [poolBackedFileAllocator.NewFile]; [created] is what [fa.pool.NewFile()]
    returned.  The third result holds the calls made on the collaborators;
    for a file that was created it is the event log the file starts with. *)
Definition NewFile (created : F + error) (isExecutable_ : bool) (sz shareAccess : Z)
  : option fileBackedFile * Status * list event :=
  match created with
  | inr err => (None, StatusErrIO, [EvLog "Failed to create new file" (Some err)])
  | inl h =>
      let truncated :=
        if 0 <? sz then file_Truncate h (int64 sz) else (None, h) in
      let truncation := if 0 <? sz then [EvTruncate (int64 sz)] else [] in
      match fst truncated with
      | Some err =>
          let _ := file_Close (snd truncated) in
          (None, StatusErrIO,
           EvClose :: EvLog "Failed to truncate file to length" (Some err) :: truncation)
      | None =>
          let f := {| file := Some (snd truncated);
                      isExecutable := isExecutable_;
                      size := sz;
                      referenceCount := 1;
                      writableDescriptorsCount := 0;
                      frozenDescriptorsCount := 0;
                      unfreezeWakeup := O;
                      cachedDigest := BadDigest;
                      changeID := 0 |} in
          match acquireShareAccessLocked shareAccess
                  {| self := f; events := truncation |} with
          | Done (_, w) => (Some (self w), StatusOK, events w)
          | _ => (None, StatusErrIO, truncation)
          end
      end
  end.

(** ** Calls as data *)

(** The methods whose body runs under a single acquisition of [f.lock].
    [OpSetCachedDigest] is the store that ends [updateCachedDigest]. *)
Inductive Op : Type :=
| OpAcquireFrozenDescriptor
| OpReleaseFrozenDescriptor
| OpLink
| OpUnlink
| OpGetCachedDigest
| OpSetCachedDigest (d : Digest)
| OpReadAt (len : Z) (off : Z)
| OpVirtualAllocate (off sz : Z)
| OpVirtualGetAttributes (attributes : Attributes)
| OpVirtualSeek (offset : Z) (regionType : RegionType)
| OpVirtualOpenSelf (shareAccess : Z) (truncate : bool) (attributes : Attributes)
| OpVirtualRead (buf : list Byte.byte) (off : Z)
| OpVirtualClose (shareAccess : Z)
| OpVirtualSetAttributes (in_ out : Attributes)
| OpVirtualWrite (buf : list Byte.byte) (offset : Z).

Inductive Result : Type :=
| RUnit
| RStatus (s : Status)
| RFrozen (hasWritableDescriptors success : bool)
| RDigest (d : Digest)
| RReadAt (data : list Byte.byte) (err : option error)
| RAttributes (a : Attributes)
| RSeek (off : option Z) (s : Status)
| ROpen (s : Status) (a : Attributes)
| RRead (data : list Byte.byte) (n : Z) (eof : bool) (s : Status)
| RWrite (n : Z) (s : Status).

(** How a method takes [f.lock]: [Lock], [RLock], or [lockMutatingData]. *)
Inductive LockKind : Type :=
| Exclusive
| Shared
| Mutating.

Definition lockKind (op : Op) : LockKind :=
  match op with
  | OpVirtualAllocate _ _ => Mutating
  | OpVirtualWrite _ _ => Mutating
  | OpVirtualOpenSelf _ truncate _ => if truncate then Mutating else Exclusive
  | OpVirtualSetAttributes in_ _ =>
      match attrSizeBytes in_ with
      | Some _ => Mutating
      | None => Exclusive
      end
  | OpGetCachedDigest => Shared
  | OpVirtualGetAttributes _ => Shared
  | _ => Exclusive
  end.

Definition isMutating (op : Op) : bool :=
  match lockKind op with
  | Mutating => true
  | _ => false
  end.

Definition isShared (op : Op) : bool :=
  match lockKind op with
  | Shared => true
  | _ => false
  end.

(** What a method does between taking the lock and dropping it. *)
Definition body (op : Op) : M Result :=
  match op with
  | OpAcquireFrozenDescriptor =>
      r <- acquireFrozenDescriptor_locked ;; ret (RFrozen (fst r) (snd r))
  | OpReleaseFrozenDescriptor => releaseFrozenDescriptor_locked ;; ret RUnit
  | OpLink => s <- Link_locked ;; ret (RStatus s)
  | OpUnlink => releaseReferencesLocked 1 ;; ret RUnit
  | OpGetCachedDigest => f <- getf ;; ret (RDigest (cachedDigest f))
  | OpSetCachedDigest d => modf (with_cachedDigest d) ;; ret RUnit
  | OpReadAt len off => r <- ReadAt_locked len off ;; ret (RReadAt (fst r) (snd r))
  | OpVirtualAllocate off sz => s <- VirtualAllocate_locked off sz ;; ret (RStatus s)
  | OpVirtualGetAttributes attributes =>
      f <- getf ;; ret (RAttributes (virtualGetAttributesLocked f attributes))
  | OpVirtualSeek offset regionType =>
      r <- VirtualSeek offset regionType ;; ret (RSeek (fst r) (snd r))
  | OpVirtualOpenSelf shareAccess truncate attributes =>
      r <- VirtualOpenSelf_locked shareAccess truncate attributes ;;
      ret (ROpen (fst r) (snd r))
  | OpVirtualRead buf off =>
      r <- VirtualRead_locked buf off ;;
      ret (RRead (fst (fst (fst r))) (snd (fst (fst r))) (snd (fst r)) (snd r))
  | OpVirtualClose shareAccess => VirtualClose_locked shareAccess ;; ret RUnit
  | OpVirtualSetAttributes in_ out =>
      r <- VirtualSetAttributes_locked in_ out ;; ret (ROpen (fst r) (snd r))
  | OpVirtualWrite buf offset =>
      r <- VirtualWrite_locked buf offset ;; ret (RWrite (fst r) (snd r))
  end.

(** A method call that runs alone, through the method itself. *)
Definition call (op : Op) : M Result :=
  match op with
  | OpAcquireFrozenDescriptor =>
      r <- acquireFrozenDescriptor ;; ret (RFrozen (fst r) (snd r))
  | OpReleaseFrozenDescriptor => releaseFrozenDescriptor ;; ret RUnit
  | OpLink => s <- Link ;; ret (RStatus s)
  | OpUnlink => Unlink ;; ret RUnit
  | OpGetCachedDigest => d <- getCachedDigest ;; ret (RDigest d)
  | OpSetCachedDigest d =>
      f_lock_Lock ;; modf (with_cachedDigest d) ;; f_lock_Unlock ;; ret RUnit
  | OpReadAt len off => r <- ReadAt len off ;; ret (RReadAt (fst r) (snd r))
  | OpVirtualAllocate off sz => s <- VirtualAllocate off sz ;; ret (RStatus s)
  | OpVirtualGetAttributes attributes =>
      f_lock_RLock ;; f <- getf ;; f_lock_RUnlock ;;
      ret (RAttributes (virtualGetAttributesLocked f attributes))
  | OpVirtualSeek offset regionType =>
      r <- VirtualSeek offset regionType ;; ret (RSeek (fst r) (snd r))
  | OpVirtualOpenSelf shareAccess truncate attributes =>
      r <- VirtualOpenSelf shareAccess truncate attributes ;;
      ret (ROpen (fst r) (snd r))
  | OpVirtualRead buf off =>
      r <- VirtualRead buf off ;;
      ret (RRead (fst (fst (fst r))) (snd (fst (fst r))) (snd (fst r)) (snd r))
  | OpVirtualClose shareAccess => VirtualClose shareAccess ;; ret RUnit
  | OpVirtualSetAttributes in_ out =>
      r <- VirtualSetAttributes in_ 0 out ;; ret (ROpen (fst r) (snd r))
  | OpVirtualWrite buf offset =>
      r <- VirtualWrite buf offset ;; ret (RWrite (fst r) (snd r))
  end.

(** Calls of a client that runs alone: the methods above and the three
    that take the lock more than once. *)
Inductive Call : Type :=
| CallOp (op : Op)
| CallUpdateCachedDigest (fuel : nat) (digestFunction : digest_Function)
| CallUploadFile (fuel : nat) (contentAddressableStorage : BlobAccess)
    (digestFunction : digest_Function)
| CallGetOutputServiceFileStatus (fuel : nat) (digestFunction : option digest_Function).

Definition run_call (c : Call) : M unit :=
  match c with
  | CallOp op => call op ;; ret tt
  | CallUpdateCachedDigest fuel fn => updateCachedDigest fuel fn ;; ret tt
  | CallUploadFile fuel cas fn => UploadFile fuel cas fn ;; ret tt
  | CallGetOutputServiceFileStatus fuel fn =>
      GetOutputServiceFileStatus fuel fn ;; ret tt
  end.

Fixpoint run_calls (cs : list Call) : M unit :=
  match cs with
  | [] => ret tt
  | c :: cs' => run_call c ;; run_calls cs'
  end.

(** Number of times the backing file was closed. *)
Fixpoint closes (evs : list event) : nat :=
  match evs with
  | [] => O
  | EvClose :: evs' => S (closes evs')
  | _ :: evs' => closes evs'
  end.

(** Number of calls made on the backing file. *)
Definition isBackingCall (e : event) : bool :=
  match e with
  | EvReadAt _ _ | EvWriteAt _ _ | EvTruncate _
  | EvGetNextRegionOffset _ _ | EvClose => true
  | _ => false
  end.

Definition backingCalls (evs : list event) : nat :=
  List.length (filter isBackingCall evs).

(** ** Goroutines *)

(** Where a goroutine stands in a call.  [AtLock]: about to take
    [f.lock].  [Locked]: inside [lockMutatingData] with the lock held,
    about to test [frozenDescriptorsCount].  [Waiting c]: the lock given
    up, blocked receiving from channel [c].  [InCritical]: the lock held,
    the body not yet run.  [AtUnlock]: the body done, the deferred unlock
    still to come. *)
Inductive pc : Type :=
| Idle
| AtLock (op : Op)
| Locked (op : Op)
| Waiting (op : Op) (c : nat)
| InCritical (op : Op)
| AtUnlock (op : Op) (r : Result).

(** [sync.RWMutex]: the goroutine that holds it for writing, and those
    that hold it for reading. *)
Record rwmutex : Type := {
  writer : option nat;
  readers : list nat
}.

Definition unlocked : rwmutex := {| writer := None; readers := [] |}.

Record System : Type := {
  world : World;
  lock : rwmutex;
  threads : nat -> pc;
  aborted : option string
}.

Definition upd (t : nat) (p : pc) (ths : nat -> pc) : nat -> pc :=
  fun u => if Nat.eqb u t then p else ths u.

(** A receive from channel [c] returns once [c] is closed, which is so
    for every generation before the current one. *)
Definition closed (c : nat) (w : World) : Prop :=
  (c < unfreezeWakeup (self w))%nat.

Inductive step (t : nat) (s : System) : System -> Prop :=
| step_call op :
    aborted s = None ->
    threads s t = Idle ->
    step t s {| world := world s; lock := lock s;
                threads := upd t (AtLock op) (threads s); aborted := None |}
| step_Lock op :
    aborted s = None ->
    threads s t = AtLock op ->
    isShared op = false ->
    lock s = unlocked ->
    step t s {| world := world s;
                lock := {| writer := Some t; readers := [] |};
                threads := upd t (if isMutating op then Locked op else InCritical op)
                               (threads s);
                aborted := None |}
| step_RLock op :
    aborted s = None ->
    threads s t = AtLock op ->
    isShared op = true ->
    writer (lock s) = None ->
    step t s {| world := world s;
                lock := {| writer := None; readers := t :: readers (lock s) |};
                threads := upd t (InCritical op) (threads s);
                aborted := None |}
| step_wait op :
    aborted s = None ->
    threads s t = Locked op ->
    0 < frozenDescriptorsCount (self (world s)) ->
    step t s {| world := world s;
                lock := {| writer := None; readers := readers (lock s) |};
                threads := upd t (Waiting op (unfreezeWakeup (self (world s))))
                               (threads s);
                aborted := None |}
| step_pass op :
    aborted s = None ->
    threads s t = Locked op ->
    frozenDescriptorsCount (self (world s)) <= 0 ->
    step t s {| world := world s; lock := lock s;
                threads := upd t (InCritical op) (threads s); aborted := None |}
| step_wake op c :
    aborted s = None ->
    threads s t = Waiting op c ->
    closed c (world s) ->
    step t s {| world := world s; lock := lock s;
                threads := upd t (AtLock op) (threads s); aborted := None |}
| step_body op r w' :
    aborted s = None ->
    threads s t = InCritical op ->
    body op (world s) = Done (r, w') ->
    step t s {| world := w'; lock := lock s;
                threads := upd t (AtUnlock op r) (threads s); aborted := None |}
| step_panic op msg :
    aborted s = None ->
    threads s t = InCritical op ->
    body op (world s) = Panicked msg ->
    step t s {| world := world s; lock := lock s;
                threads := threads s; aborted := Some msg |}
| step_Unlock op r :
    aborted s = None ->
    threads s t = AtUnlock op r ->
    step t s {| world := world s;
                lock := if isShared op
                        then {| writer := writer (lock s);
                                readers := remove Nat.eq_dec t (readers (lock s)) |}
                        else {| writer := None; readers := readers (lock s) |};
                threads := upd t Idle (threads s);
                aborted := None |}.

(** Executions: any goroutine may take the next step. *)
Inductive steps (s : System) : System -> Prop :=
| steps_refl : steps s s
| steps_step t s1 s2 : steps s s1 -> step t s1 s2 -> steps s s2.

(** The system right after [NewFile]: no call under way, the lock free. *)
Definition initial (w : World) : System :=
  {| world := w; lock := unlocked; threads := fun _ => Idle; aborted := None |}.

(** The systems that arise from a file made by [NewFile]. *)
Definition reachable (s : System) : Prop :=
  exists created isExecutable_ sz shareAccess f evs,
    NewFile created isExecutable_ sz shareAccess = (Some f, StatusOK, evs)
    /\ steps (initial {| self := f; events := evs |}) s.

(** The goroutine holds the lock for writing, respectively reading. *)
Definition holdsWrite (p : pc) : Prop :=
  match p with
  | Locked _ => True
  | InCritical op => isShared op = false
  | AtUnlock op _ => isShared op = false
  | _ => False
  end.

Definition holdsRead (p : pc) : Prop :=
  match p with
  | InCritical op => isShared op = true
  | AtUnlock op _ => isShared op = true
  | _ => False
  end.

(** ** Vocabulary of the statements *)

(** [hoare P m Q]: a call of [m] started where [P] holds, if it returns,
    returns a value and a world related by [Q]. *)
Definition hoare {A : Type} (P : World -> Prop) (m : M A) (Q : A -> World -> Prop)
  : Prop :=
  forall w a w', P w -> m w = Done (a, w') -> Q a w'.

(** The effect of the permissions part of [VirtualSetAttributes]. *)
Definition setPermissions (in_ : Attributes) (f : fileBackedFile) : fileBackedFile :=
  match attrPermissions in_ with
  | Some permissions =>
      with_changeID (uinc (changeID f))
        (with_isExecutable (negb (Z.land permissions PermissionsExecute =? 0)) f)
  | None => f
  end.

(** The release of the backing file is in step with the log: a file whose
    [file] field is nil has no reference left and its backing file was
    closed once; a file whose [file] field is set was never closed. *)
Definition released_once (w : World) : Prop :=
  match file (self w) with
  | None => referenceCount (self w) = 0 /\ closes (events w) = 1%nat
  | Some _ => closes (events w) = 0%nat
  end.

(** A call by a mutating method on a frozen file waits; any other call
    goes straight to the body of the method. *)
Definition entry (op : Op) : M unit :=
  if isMutating op then lockMutatingData else f_lock_Lock.

(** [m] keeps the invariant [I]. *)
Definition keeps {A : Type} (I : World -> Prop) (m : M A) : Prop :=
  hoare I m (fun _ => I).

(** Invariants that reading the backing file, storing a digest, counting
    an upload and handing a blob to the store cannot break. *)
Definition stable (I : World -> Prop) : Prop :=
  (forall w h len off, I w -> file (self w) <> None ->
     I {| self := with_file (Some h) (self w);
          events := EvReadAt len off :: events w |})
  /\ (forall w d, I w ->
        I {| self := with_cachedDigest d (self w); events := events w |})
  /\ (forall w, I w -> I {| self := self w; events := EvMetricInc :: events w |})
  /\ (forall w d, I w -> I {| self := self w; events := EvPut d :: events w |}).

(** The two counters a frozen descriptor holds. *)
Definition counters (rc fc : Z) (w : World) : Prop :=
  referenceCount (self w) = rc /\ frozenDescriptorsCount (self w) = fc.

(** The file was released: [file] is nil, no reference is left, and the
    backing file was closed once. *)
Definition released (w : World) : Prop :=
  file (self w) = None
  /\ referenceCount (self w) = 0
  /\ closes (events w) = 1%nat.

(** What the lock protocol maintains: the goroutine recorded as writer is
    the one that is past [Lock], the goroutines recorded as readers are
    those past [RLock], a writer excludes readers, only mutating methods
    are found inside [lockMutatingData], a mutating method that has left
    [lockMutatingData] finds no frozen descriptor, the count of frozen
    descriptors is not negative, and nobody waits on a channel that is
    yet to be made. *)
Definition lock_inv (s : System) : Prop :=
  (forall u, writer (lock s) = Some u <-> holdsWrite (threads s u))
  /\ (forall u, In u (readers (lock s)) <-> holdsRead (threads s u))
  /\ (writer (lock s) = None \/ readers (lock s) = [])
  /\ (forall u op, threads s u = Locked op -> isMutating op = true)
  /\ (forall u op, threads s u = InCritical op -> isMutating op = true ->
         frozenDescriptorsCount (self (world s)) = 0)
  /\ 0 <= frozenDescriptorsCount (self (world s))
  /\ (forall u op c, threads s u = Waiting op c ->
         (c <= unfreezeWakeup (self (world s)))%nat).

(** [frozenDescriptorsCount] is not negative. *)
Definition frozen_nonneg (w : World) : Prop :=
  0 <= frozenDescriptorsCount (self w).

(** The program was aborted by a panic, or the lock is free and the
    goroutines selected by [same] stand where they stood in [s]. *)
Definition lock_freed (same : nat -> Prop) (s s' : System) : Prop :=
  aborted s' <> None
  \/ (aborted s' = None /\ lock s' = unlocked
      /\ forall t, same t -> threads s' t = threads s t).

(** [returns P m Q]: started where [P] holds, [m] neither panics nor
    waits; it returns a value and a world related by [Q], unless a loop of
    the model runs out of fuel. *)
Definition returns {A : Type} (P : World -> Prop) (m : M A) (Q : A -> World -> Prop)
  : Prop :=
  forall w, P w ->
    match m w with
    | Done (a, w') => Q a w'
    | OutOfFuel => True
    | Panicked _ => False
    | Blocks => False
    end.

(** A file that still has its backing file, with given counters. *)
Definition live (rc fc : Z) (w : World) : Prop :=
  file (self w) <> None /\ counters rc fc w.


(** Two states of the file that differ at most in the state of the handle
    of the backing file: every field of [fileBackedFile] but [file] is the
    same, and [file] is nil in both or in neither. *)
Definition same_metadata (f f' : fileBackedFile) : Prop :=
  isExecutable f' = isExecutable f
  /\ size f' = size f
  /\ referenceCount f' = referenceCount f
  /\ writableDescriptorsCount f' = writableDescriptorsCount f
  /\ frozenDescriptorsCount f' = frozenDescriptorsCount f
  /\ unfreezeWakeup f' = unfreezeWakeup f
  /\ cachedDigest f' = cachedDigest f
  /\ changeID f' = changeID f
  /\ (file f' = None <-> file f = None).

(** Number of calls that change the content of the backing file. *)
Definition isContentCall (e : event) : bool :=
  match e with
  | EvWriteAt _ _ | EvTruncate _ => true
  | _ => false
  end.

Definition contentCalls (evs : list event) : nat :=
  List.length (filter isContentCall evs).

(** Number of errors handed to the error logger. *)
Definition isLog (e : event) : bool :=
  match e with
  | EvLog _ _ => true
  | _ => false
  end.

Definition logged (evs : list event) : nat :=
  List.length (filter isLog evs).

(** The entry [AppendOutputPathPersistencyDirectoryNode] makes for a file
    whose digest is [d]. *)
Definition fileNode (name : string) (d : Digest) (f : fileBackedFile) : FileNode :=
  {| fileNodeName := name; fileNodeDigest := d;
     fileNodeIsExecutable := isExecutable f |}.

(** The attributes that need the lock of the file. *)
Definition lockedAttributes : Z :=
  Z.lor (Z.lor AttributesMaskChangeID AttributesMaskPermissions)
        AttributesMaskSizeBytes.

(** The system [s] after goroutine [t] has moved to [p], with the world
    and the lock as given. *)
Definition after (t : nat) (p : pc) (w : World) (l : rwmutex) (s : System)
  : System :=
  {| world := w; lock := l; threads := upd t p (threads s); aborted := None |}.
End Model.

(** ** Instances for running the model *)

(** A backing file held in memory.  The next [faults] calls fail without
    effect; with [writeLimit] set, a write stores at most that many bytes
    and then reports an error. *)
Record memFile : Type := {
  content : list Byte.byte;
  faults : nat;
  writeLimit : option nat
}.

Definition injectedFault : error := StatusError CodeUnknown "injected fault".

Definition consumeFault (h : memFile) : memFile :=
  {| content := content h; faults := pred (faults h); writeLimit := writeLimit h |}.

Definition with_content (c : list Byte.byte) (h : memFile) : memFile :=
  {| content := c; faults := faults h; writeLimit := writeLimit h |}.

Definition mem_ReadAt (h : memFile) (len : Z) (off : Z)
  : (list Byte.byte * option error) * memFile :=
  match faults h with
  | S _ => (([], Some injectedFault), consumeFault h)
  | O =>
      if off <? 0 then (([], Some EINVAL), h)
      else
        let data := firstn (Z.to_nat len) (skipn (Z.to_nat off) (content h)) in
        ((data, if Z.of_nat (List.length data) <? len then Some EOF else None), h)
  end.

(** The content with [buf] stored at [off], zero-filled up to there. *)
Definition store (c : list Byte.byte) (off : nat) (buf : list Byte.byte)
  : list Byte.byte :=
  firstn off c ++ repeat Byte.x00 (off - List.length c) ++ buf
    ++ skipn (off + List.length buf) c.

Definition mem_WriteAt (h : memFile) (buf : list Byte.byte) (off : Z)
  : (Z * option error) * memFile :=
  match faults h with
  | S _ => ((0, Some injectedFault), consumeFault h)
  | O =>
      if off <? 0 then ((0, Some EINVAL), h)
      else
        match writeLimit h with
        | Some k =>
            ((Z.of_nat (List.length (firstn k buf)), Some injectedFault),
             with_content (store (content h) (Z.to_nat off) (firstn k buf)) h)
        | None =>
            ((Z.of_nat (List.length buf), None),
             with_content (store (content h) (Z.to_nat off) buf) h)
        end
  end.

Definition mem_Truncate (h : memFile) (sz : Z) : option error * memFile :=
  match faults h with
  | S _ => (Some injectedFault, consumeFault h)
  | O =>
      if sz <? 0 then (Some EINVAL, h)
      else
        (None,
         with_content (firstn (Z.to_nat sz) (content h)
                         ++ repeat Byte.x00 (Z.to_nat sz - List.length (content h))) h)
  end.

Definition mem_GetNextRegionOffset (h : memFile) (off : Z) (r : RegionType)
  : (Z * option error) * memFile :=
  match r with
  | Data =>
      if off <? Z.of_nat (List.length (content h)) then ((off, None), h)
      else ((0, Some EOF), h)
  | Hole => ((Z.of_nat (List.length (content h)), None), h)
  end.

Definition memFileReadWriter : FileReadWriter memFile :=
  {| file_ReadAt := mem_ReadAt;
     file_WriteAt := mem_WriteAt;
     file_Truncate := mem_Truncate;
     file_GetNextRegionOffset := mem_GetNextRegionOffset;
     file_Close := fun _ => None |}.

(** Digests made of the name of the function, a checksum and the size. *)
Inductive sumDigest : Type :=
| SumBad
| SumOf (fn : nat) (checksum : Z) (sizeBytes : Z).

Definition sumDigest_eqb (a b : sumDigest) : bool :=
  match a, b with
  | SumBad, SumBad => true
  | SumOf f1 c1 s1, SumOf f2 c2 s2 => Nat.eqb f1 f2 && (c1 =? c2) && (s1 =? s2)
  | _, _ => false
  end.

Definition checksum (data : list Byte.byte) : Z :=
  fold_left (fun acc b => (acc + Z.of_N (Byte.to_N b)) mod 2 ^ 32) data 0.

Definition sumDigests : DigestDecls :=
  {| Digest := sumDigest;
     digest_Function := nat;
     BadDigest := SumBad;
     Digest_eqb := sumDigest_eqb;
     UsesDigestFunction :=
       fun d fn => match d with SumBad => false | SumOf f _ _ => Nat.eqb f fn end;
     GetSizeBytes := fun d => match d with SumBad => 0 | SumOf _ _ s => s end;
     Generator_Sum := fun fn data => SumOf fn (checksum data) (Z.of_nat (List.length data)) |}.

(** Number of bits set among the low [n] bits of [x]. *)
Fixpoint onesCount (n : nat) (x : Z) : Z :=
  match n with
  | O => 0
  | S n' => Z.b2z (Z.testbit x (Z.of_nat n')) + onesCount n' x
  end.

(** One choice of the declarations of package [virtual]: read and write
    shares are bits 0 and 1, and [Count] counts the bits set. *)
Definition virtualDecls : VirtualDecls :=
  {| ShareMaskWrite := 2;
     ShareMask_Count := onesCount 32;
     PermissionsRead := 4;
     PermissionsWrite := 2;
     PermissionsExecute := 1;
     AttributesMaskChangeID := 1;
     AttributesMaskPermissions := 2;
     AttributesMaskSizeBytes := 4 |}.

(** A store that reads the whole blob in one go and accepts it. *)
Definition acceptingStore : @BlobAccess sumDigests :=
  {| put_reads := fun d => [(@GetSizeBytes sumDigests d, 0)];
     put_result := fun _ => None |}.

(** A store that refuses every blob without reading it. *)
Definition refusingStore : @BlobAccess sumDigests :=
  {| put_reads := fun _ => [];
     put_result := fun _ => Some (StatusError CodeUnknown "store unavailable") |}.

Definition memWorld : Type := @World memFile sumDigests.
Definition memObject : Type := @fileBackedFile memFile sumDigests.

(** An empty file with one link and no open descriptor, as [NewFile]
    creates it.  *)
Definition emptyBacking : memFile :=
  {| content := []; faults := O; writeLimit := None |}.

Definition freshFile (h : memFile) (sz : Z) : memObject :=
  {| file := Some h; isExecutable := false; size := sz;
     referenceCount := 1; writableDescriptorsCount := 0;
     frozenDescriptorsCount := 0; unfreezeWakeup := O;
     cachedDigest := SumBad : @Digest sumDigests; changeID := 0 |}.

Definition freshWorld (h : memFile) (sz : Z) : memWorld :=
  {| self := freshFile h sz; events := [] |}.

Definition ABC : list Byte.byte := [Byte.x41; Byte.x42; Byte.x43].

(** The file holding "ABC" after one write, and the same file once its
    digest has been computed with function 7. *)
Definition abcBacking : memFile :=
  {| content := ABC; faults := O; writeLimit := None |}.

Definition writtenWorld : memWorld :=
  {| self := {| file := Some abcBacking; isExecutable := false; size := 3;
                referenceCount := 1; writableDescriptorsCount := 0;
                frozenDescriptorsCount := 0; unfreezeWakeup := O;
                cachedDigest := SumBad : @Digest sumDigests; changeID := 1 |};
     events := [EvWriteAt ABC 0] |}.

Definition digestedWorld : memWorld :=
  {| self := {| file := Some abcBacking; isExecutable := false; size := 3;
                referenceCount := 1; writableDescriptorsCount := 0;
                frozenDescriptorsCount := 0; unfreezeWakeup := O;
                cachedDigest := SumOf 7 198 3 : @Digest sumDigests; changeID := 1 |};
     events := [EvReadAt copyBufferSize 0; EvWriteAt ABC 0] |}.

(** A backing file whose next call fails, and one that stores two bytes
    of a write before it fails. *)
Definition flakyBacking : memFile :=
  {| content := ABC; faults := 1; writeLimit := None |}.

Definition shortBacking : memFile :=
  {| content := []; faults := O; writeLimit := Some 2%nat |}.

(** A request to set the executable bit, and nothing else. *)
Definition chmodExecutable : Attributes :=
  {| attrFileType := None; attrChangeID := None;
     attrPermissions := Some 1; attrSizeBytes := None |}.

(** The same file after an upload to a store that accepts it. *)
Definition uploadedWorld : memWorld :=
  {| self := {| file := Some abcBacking; isExecutable := false; size := 3;
                referenceCount := 1; writableDescriptorsCount := 0;
                frozenDescriptorsCount := 0; unfreezeWakeup := 1%nat;
                cachedDigest := SumOf 7 198 3 : @Digest sumDigests; changeID := 1 |};
     events := [EvChanClose 0; EvReadAt 3 0; EvPut (SumOf 7 198 3 : @Digest sumDigests);
                EvReadAt copyBufferSize 0; EvWriteAt ABC 0] |}.

(** The two files above after their last [Unlink]. *)
Definition releasedEmptyWorld : memWorld :=
  {| self := with_file None (with_referenceCount 0 (freshFile emptyBacking 0));
     events := [EvClose] |}.

Definition releasedWrittenWorld : memWorld :=
  {| self := with_file None (with_referenceCount 0 (self writtenWorld));
     events := [EvClose; EvWriteAt ABC 0] |}.

(** [digestedWorld] after [chmodExecutable], and the attributes returned. *)
Definition chmodWorld : memWorld :=
  {| self := with_changeID 2 (with_isExecutable true (self digestedWorld));
     events := events digestedWorld |}.

Definition chmodAttributes : Attributes :=
  {| attrFileType := Some FileTypeRegularFile; attrChangeID := Some 2;
     attrPermissions := Some 7; attrSizeBytes := Some 3 |}.

(** A file on [flakyBacking] after a digest computation that failed, and
    after the one that followed. *)
Definition failedWorld : memWorld :=
  {| self := freshFile abcBacking 3; events := [EvReadAt copyBufferSize 0] |}.

Definition recoveredWorld : memWorld :=
  {| self := with_cachedDigest (SumOf 7 198 3 : @Digest sumDigests)
               (freshFile abcBacking 3);
     events := [EvReadAt copyBufferSize 0; EvReadAt copyBufferSize 0] |}.

(** [writtenWorld] with a handle open for reading and writing, and after
    an upload in that state. *)
Definition openedWorld : memWorld :=
  {| self := with_writableDescriptorsCount 1
               (with_referenceCount 3 (self writtenWorld));
     events := events writtenWorld |}.

Definition isMetricInc (e : @event sumDigests) : bool :=
  match e with
  | EvMetricInc => true
  | _ => false
  end.

(** ** Scenarios *)

Section Scenarios.

#[local] Existing Instance memFileReadWriter.
#[local] Existing Instance sumDigests.
#[local] Existing Instance virtualDecls.

(** The file [NewFile] makes when asked for an empty file that is open
    for reading and writing. *)
Definition newFile : memObject :=
  {| file := Some emptyBacking; isExecutable := false; size := 0;
     referenceCount := 3; writableDescriptorsCount := 1;
     frozenDescriptorsCount := 0; unfreezeWakeup := O;
     cachedDigest := SumBad; changeID := 0 |}.

(** [writtenWorld] after [GetOutputServiceFileStatus] has computed its
    digest with function 7. *)
Definition statusWorld : memWorld :=
  {| self := {| file := Some abcBacking; isExecutable := false; size := 3;
                referenceCount := 1; writableDescriptorsCount := 0;
                frozenDescriptorsCount := 0; unfreezeWakeup := 1%nat;
                cachedDigest := SumOf 7 198 3; changeID := 1 |};
     events := [EvChanClose 0; EvReadAt copyBufferSize 0; EvWriteAt ABC 0] |}.

(** [writtenWorld] after [VirtualAllocate 5 5]. *)
Definition allocatedWorld : memWorld :=
  {| self := {| file := Some {| content := ABC ++ repeat Byte.x00 7;
                                faults := O; writeLimit := None |};
                isExecutable := false; size := 10;
                referenceCount := 1; writableDescriptorsCount := 0;
                frozenDescriptorsCount := 0; unfreezeWakeup := O;
                cachedDigest := SumBad; changeID := 2 |};
     events := [EvTruncate 10; EvWriteAt ABC 0] |}.

(** A request to empty the file and to set the executable bit. *)
Definition truncateAttributes : Attributes :=
  {| attrFileType := None; attrChangeID := None;
     attrPermissions := Some 1; attrSizeBytes := Some 0 |}.

(** A backing file that has no fault pending holds its content. *)
Definition memHolds (h : memFile) (c : list Byte.byte) : Prop :=
  content h = c /\ faults h = O.

(** An execution of three goroutines on a new, empty file.  Goroutine 0
    takes a frozen descriptor; while it holds it, goroutine 2 sets the
    executable bit and goroutine 1 starts a write, which has to wait;
    goroutine 0 then releases the descriptor and removes the last link.
    Each entry is the goroutine that moves, where it gets to, and the
    world and the lock after its step. *)
Definition held (t : nat) : rwmutex := {| writer := Some t; readers := [] |}.

Definition frozenWorld : memWorld :=
  {| self := {| file := Some emptyBacking; isExecutable := false; size := 0;
                referenceCount := 2; writableDescriptorsCount := 0;
                frozenDescriptorsCount := 1; unfreezeWakeup := O;
                cachedDigest := SumBad; changeID := 0 |};
     events := [] |}.

Definition frozenChmodWorld : memWorld :=
  {| self := {| file := Some emptyBacking; isExecutable := true; size := 0;
                referenceCount := 2; writableDescriptorsCount := 0;
                frozenDescriptorsCount := 1; unfreezeWakeup := O;
                cachedDigest := SumBad; changeID := 1 |};
     events := [] |}.

Definition frozenChmodAttributes : Attributes :=
  {| attrFileType := Some FileTypeRegularFile; attrChangeID := Some 1;
     attrPermissions := Some 7; attrSizeBytes := Some 0 |}.

Definition unfrozenWorld : memWorld :=
  {| self := {| file := Some emptyBacking; isExecutable := true; size := 0;
                referenceCount := 1; writableDescriptorsCount := 0;
                frozenDescriptorsCount := 0; unfreezeWakeup := 1%nat;
                cachedDigest := SumBad; changeID := 1 |};
     events := [EvChanClose 0] |}.

Definition unlinkedWorld : memWorld :=
  {| self := {| file := None; isExecutable := true; size := 0;
                referenceCount := 0; writableDescriptorsCount := 0;
                frozenDescriptorsCount := 0; unfreezeWakeup := 1%nat;
                cachedDigest := SumBad; changeID := 1 |};
     events := [EvClose; EvChanClose 0] |}.

Definition chmodOp : Op := OpVirtualSetAttributes chmodExecutable emptyAttributes.

Definition writeOp : Op := OpVirtualWrite ABC 0.

Definition scenario : list (nat * pc * memWorld * rwmutex) :=
  [ (0%nat, AtLock OpAcquireFrozenDescriptor, freshWorld emptyBacking 0, unlocked);
    (0%nat, InCritical OpAcquireFrozenDescriptor, freshWorld emptyBacking 0, held 0);
    (0%nat, AtUnlock OpAcquireFrozenDescriptor (RFrozen false true), frozenWorld, held 0);
    (0%nat, Idle, frozenWorld, unlocked);
    (2%nat, AtLock chmodOp, frozenWorld, unlocked);
    (2%nat, InCritical chmodOp, frozenWorld, held 2);
    (2%nat, AtUnlock chmodOp (ROpen StatusOK frozenChmodAttributes),
     frozenChmodWorld, held 2);
    (2%nat, Idle, frozenChmodWorld, unlocked);
    (1%nat, AtLock writeOp, frozenChmodWorld, unlocked);
    (1%nat, Locked writeOp, frozenChmodWorld, held 1);
    (1%nat, Waiting writeOp 0, frozenChmodWorld, unlocked);
    (0%nat, AtLock OpReleaseFrozenDescriptor, frozenChmodWorld, unlocked);
    (0%nat, InCritical OpReleaseFrozenDescriptor, frozenChmodWorld, held 0);
    (0%nat, AtUnlock OpReleaseFrozenDescriptor RUnit, unfrozenWorld, held 0);
    (0%nat, Idle, unfrozenWorld, unlocked);
    (0%nat, AtLock OpUnlink, unfrozenWorld, unlocked);
    (0%nat, InCritical OpUnlink, unfrozenWorld, held 0);
    (0%nat, AtUnlock OpUnlink RUnit, unlinkedWorld, held 0) ].

(** The system after the first [k] steps of the scenario. *)
Definition stateAt (k : nat) : @System memFile sumDigests :=
  fold_left (fun s e => after (fst (fst (fst e))) (snd (fst (fst e)))
                          (snd (fst e)) (snd e) s)
    (firstn k scenario) (initial (freshWorld emptyBacking 0)).

End Scenarios.

(** * Properties *)

(** ** Arithmetic modulo [2^64] *)

Lemma wrap64_range (z : Z) : 0 <= wrap64 z < 2 ^ 64.
Proof. unfold wrap64. apply Z.mod_pos_bound. lia. Qed.

Lemma wrap64_small (z : Z) : 0 <= z < 2 ^ 64 -> wrap64 z = z.
Proof. intros H. unfold wrap64. apply Z.mod_small. exact H. Qed.

Lemma uadd_wrap (x y : Z) : uadd (uint64 x) (uint64 y) = wrap64 (x + y).
Proof.
  unfold uadd, uint64, wrap64. rewrite <- Z.add_mod by lia. reflexivity.
Qed.

Lemma uadd_uint64_r (x y : Z) : uadd x (uint64 y) = wrap64 (x + y).
Proof.
  unfold uadd, uint64, wrap64. rewrite Z.add_mod_idemp_r by lia. reflexivity.
Qed.

Lemma uinc_small (x : Z) : 0 <= x < MaxUint64 -> uinc x = x + 1.
Proof.
  unfold uinc, uadd, MaxUint64. intros H. apply wrap64_small. lia.
Qed.

Lemma uinc_max : uinc MaxUint64 = 0.
Proof. reflexivity. Qed.

Lemma udec_uinc (x : Z) : 0 <= x < MaxUint64 -> udec (uinc x) = x.
Proof.
  intros H. rewrite uinc_small by exact H.
  unfold udec, usub, MaxUint64 in *. replace (x + 1 - 1) with x by lia.
  apply wrap64_small. lia.
Qed.

Lemma uinc_nonzero (x : Z) : 0 <= x < MaxUint64 -> uinc x <> 0.
Proof. intros H. rewrite uinc_small by exact H. lia. Qed.

Lemma usub_self (x : Z) : usub x x = 0.
Proof. unfold usub. rewrite Z.sub_diag. reflexivity. Qed.

Section Properties.

Context {F : Type} {FRW : FileReadWriter F} {DD : DigestDecls} {VD : VirtualDecls}.

Local Abbreviation World := (@World F DD).
Local Abbreviation M := (@M F DD).
Local Abbreviation fileBackedFile := (@fileBackedFile F DD).

(** ** Hoare triples over the monad of calls *)

Lemma hoare_ret {A : Type} (P : World -> Prop) (a : A) (Q : A -> World -> Prop) :
  (forall w, P w -> Q a w) -> hoare P (ret a) Q.
Proof. intros H w a' w' HP E. inversion E; subst. auto. Qed.

Lemma hoare_bind {A B : Type} (P : World -> Prop) (m : M A) (k : A -> M B)
  (Q : A -> World -> Prop) (R : B -> World -> Prop) :
  hoare P m Q -> (forall a, hoare (Q a) (k a) R) -> hoare P (bind m k) R.
Proof.
  intros Hm Hk w b w' HP E. unfold bind in E.
  destruct (m w) as [[a w1] | | |] eqn:Em; try discriminate.
  eapply Hk; [eapply Hm; eauto | exact E].
Qed.

Lemma hoare_modf (g : fileBackedFile -> fileBackedFile) (P : World -> Prop)
  (Q : unit -> World -> Prop) :
  (forall w, P w -> Q tt {| self := g (self w); events := events w |}) ->
  hoare P (modf g) Q.
Proof. intros H w a w' HP E. inversion E; subst. auto. Qed.

Lemma hoare_emit (e : event) (P : World -> Prop) (Q : unit -> World -> Prop) :
  (forall w, P w -> Q tt {| self := self w; events := e :: events w |}) ->
  hoare P (emit e) Q.
Proof. intros H w a w' HP E. inversion E; subst. auto. Qed.

Lemma hoare_outOfFuel {A : Type} (P : World -> Prop) (Q : A -> World -> Prop) :
  hoare P outOfFuel Q.
Proof. intros w a w' _ E. discriminate. Qed.

(** ** Single calls *)

Ltac run_mon :=
  cbv beta iota delta
    [bind ret get modify panic block outOfFuel getf modf emit backing
     f_lock_Lock f_lock_Unlock f_lock_RLock f_lock_RUnlock
     waitUnfrozen lockMutatingData].

Lemma eqb_zero_false (x : Z) : x <> 0 -> (x =? 0) = false.
Proof. intros H. apply Z.eqb_neq. exact H. Qed.

(** [acquireFrozenDescriptor] on a file without references, and on one
    that has some. *)
Lemma acquire_stale (w : World) :
  referenceCount (self w) = 0 ->
  acquireFrozenDescriptor w = Done ((false, false), w).
Proof.
  intros H. unfold acquireFrozenDescriptor, acquireFrozenDescriptor_locked.
  run_mon. rewrite H. destruct w; reflexivity.
Qed.

Lemma acquire_live (w : World) :
  referenceCount (self w) <> 0 ->
  acquireFrozenDescriptor w =
    Done ((0 <? writableDescriptorsCount (self w), true),
          {| self := with_frozenDescriptorsCount
                       (uinc (frozenDescriptorsCount (self w)))
                       (with_referenceCount
                          (uinc (referenceCount (self w))) (self w));
             events := events w |}).
Proof.
  intros H. unfold acquireFrozenDescriptor, acquireFrozenDescriptor_locked.
  run_mon. rewrite (eqb_zero_false H). reflexivity.
Qed.

(** C6.  [acquireFrozenDescriptor] fails exactly when [referenceCount] is
    zero, and then changes nothing.  Otherwise it succeeds, reports
    whether [writableDescriptorsCount] is positive, and increments
    [referenceCount] and [frozenDescriptorsCount] ([++] on a [uint]: one
    more, as long as the counter is below its largest value); no other
    field changes and no collaborator is called. *)
Theorem acquireFrozenDescriptor_spec (w : World) :
  (referenceCount (self w) = 0 ->
     acquireFrozenDescriptor w = Done ((false, false), w))
  /\ (referenceCount (self w) <> 0 ->
        acquireFrozenDescriptor w =
          Done ((0 <? writableDescriptorsCount (self w), true),
                {| self :=
                     {| file := file (self w);
                        isExecutable := isExecutable (self w);
                        size := size (self w);
                        referenceCount := uinc (referenceCount (self w));
                        writableDescriptorsCount := writableDescriptorsCount (self w);
                        frozenDescriptorsCount := uinc (frozenDescriptorsCount (self w));
                        unfreezeWakeup := unfreezeWakeup (self w);
                        cachedDigest := cachedDigest (self w);
                        changeID := changeID (self w) |};
                   events := events w |}))
  /\ (forall r w', acquireFrozenDescriptor w = Done (r, w') ->
        (snd r = false <-> referenceCount (self w) = 0))
  /\ (0 <= referenceCount (self w) < MaxUint64 ->
        uinc (referenceCount (self w)) = referenceCount (self w) + 1)
  /\ (0 <= frozenDescriptorsCount (self w) < MaxUint64 ->
        uinc (frozenDescriptorsCount (self w)) = frozenDescriptorsCount (self w) + 1).
Proof.
  repeat split.
  - apply acquire_stale.
  - apply acquire_live.
  - intros Hs. destruct (Z.eq_dec (referenceCount (self w)) 0) as [E|E]; [exact E|].
    rewrite (acquire_live w E) in H. inversion H; subst. discriminate.
  - intros E. rewrite (acquire_stale w E) in H. inversion H; subst. reflexivity.
  - apply uinc_small.
  - apply uinc_small.
Qed.

(** C8.  An underflow of a counter aborts the program: releasing more
    references than [referenceCount] holds, releasing a frozen descriptor
    with [frozenDescriptorsCount] at zero, and closing a handle opened for
    writing with [writableDescriptorsCount] at zero each end in a panic,
    whichever method does it; none of them returns. *)
Theorem counter_underflow_panics :
  (forall count (w : World), referenceCount (self w) < count ->
     releaseReferencesLocked count w = Panicked "Invalid reference count")
  /\ (forall w : World, referenceCount (self w) < 1 ->
        Unlink w = Panicked "Invalid reference count")
  /\ (forall w : World, frozenDescriptorsCount (self w) = 0 ->
        releaseFrozenDescriptor w = Panicked "Invalid open frozen descriptor count"
        /\ Close w = Panicked "Invalid open frozen descriptor count")
  /\ (forall shareAccess (w : World),
        Z.land shareAccess ShareMaskWrite <> 0 ->
        writableDescriptorsCount (self w) = 0 ->
        VirtualClose shareAccess w = Panicked "Invalid writable descriptor count")
  /\ (forall shareAccess (w : World),
        referenceCount (self w) < Count shareAccess ->
        exists msg, VirtualClose shareAccess w = Panicked msg).
Proof.
  assert (R : forall count (w : World), referenceCount (self w) < count ->
                releaseReferencesLocked count w = Panicked "Invalid reference count").
  { intros count w H. unfold releaseReferencesLocked. run_mon.
    apply Z.ltb_lt in H. rewrite H. reflexivity. }
  repeat split.
  - exact R.
  - intros w H. unfold Unlink. run_mon. rewrite (R 1 w H). reflexivity.
  - unfold releaseFrozenDescriptor, releaseFrozenDescriptor_locked. run_mon.
    rewrite H. reflexivity.
  - unfold Close, releaseFrozenDescriptor, releaseFrozenDescriptor_locked. run_mon.
    rewrite H. reflexivity.
  - intros shareAccess w Hw H0. unfold VirtualClose, VirtualClose_locked. run_mon.
    rewrite (eqb_zero_false Hw). rewrite H0. reflexivity.
  - intros shareAccess w H. unfold VirtualClose, VirtualClose_locked. run_mon.
    destruct (Z.land shareAccess ShareMaskWrite =? 0).
    + rewrite (R _ w H). eauto.
    + destruct (writableDescriptorsCount (self w) =? 0); [eauto|].
      rewrite R by exact H. eauto.
Qed.

(** What [VirtualWrite] does to a live file that is not frozen, in terms
    of what the backing file answers. *)
Lemma VirtualWrite_run (buf : list Byte.byte) (offset : Z) (w : World) (h : F) :
  file (self w) = Some h ->
  frozenDescriptorsCount (self w) = 0 ->
  VirtualWrite buf offset w =
    let r := file_WriteAt h buf (int64 offset) in
    let n := fst (fst r) in
    let f1 := with_file (Some (snd r)) (self w) in
    let f2 :=
      if 0 <? n then
        with_changeID (uinc (changeID (self w)))
          (if size (self w) <? uadd offset (uint64 n)
           then with_size (uadd offset (uint64 n)) (with_cachedDigest BadDigest f1)
           else with_cachedDigest BadDigest f1)
      else f1 in
    match snd (fst r) with
    | Some err =>
        Done ((n, StatusErrIO),
              {| self := f2;
                 events := EvLog "Failed to write to file at offset" (Some err)
                             :: EvWriteAt buf (int64 offset) :: events w |})
    | None =>
        Done ((n, StatusOK),
              {| self := f2; events := EvWriteAt buf (int64 offset) :: events w |})
    end.
Proof.
  intros Hf Hz. unfold VirtualWrite, VirtualWrite_locked. run_mon.
  rewrite Hz. cbn [Z.ltb Z.compare]. cbn [self events]. rewrite Hf.
  cbn zeta. cbn [self events fst snd].
  destruct (file_WriteAt h buf (int64 offset)) as [[n err] h'].
  cbn [fst snd].
  destruct (0 <? n); cbn [size with_cachedDigest with_file self events].
  - destruct (size (self w) <? uadd offset (uint64 n)); destruct err; reflexivity.
  - destruct err; reflexivity.
Qed.

(** C9.  A [VirtualWrite] whose backing write stores no byte and reports
    no error returns [(0, StatusOK)] and leaves [size], [changeID] and
    [cachedDigest] as they were. *)
Theorem VirtualWrite_nothing_written
  (buf : list Byte.byte) (offset : Z) (w : World) (h : F) :
  file (self w) = Some h ->
  frozenDescriptorsCount (self w) = 0 ->
  fst (file_WriteAt h buf (int64 offset)) = (0, None) ->
  exists w',
    VirtualWrite buf offset w = Done ((0, StatusOK), w')
    /\ size (self w') = size (self w)
    /\ changeID (self w') = changeID (self w)
    /\ cachedDigest (self w') = cachedDigest (self w).
Proof.
  intros Hf Hz Hw. rewrite (VirtualWrite_run buf offset w Hf Hz).
  cbn zeta. rewrite Hw. cbn [fst snd Z.ltb Z.compare].
  eexists. split; [reflexivity|]. cbn. auto.
Qed.

(** A write that stored at least one byte drops the cached digest and
    bumps [changeID]. *)
Lemma VirtualWrite_mutates
  (buf : list Byte.byte) (offset : Z) (w : World) (h h' : F) (n : Z)
  (err : option error) :
  file (self w) = Some h ->
  frozenDescriptorsCount (self w) = 0 ->
  file_WriteAt h buf (int64 offset) = ((n, err), h') ->
  0 < n ->
  exists s w',
    VirtualWrite buf offset w = Done ((n, s), w')
    /\ cachedDigest (self w') = BadDigest
    /\ changeID (self w') = uinc (changeID (self w)).
Proof.
  intros Hf Hz Hw Hn. rewrite (VirtualWrite_run buf offset w Hf Hz).
  cbn zeta. rewrite Hw. cbn [fst snd].
  apply Z.ltb_lt in Hn. rewrite Hn.
  destruct err; (do 2 eexists; split; [reflexivity|]);
    cbn [self with_changeID cachedDigest changeID];
    (split; [|reflexivity]);
    destruct (size (self w) <? uadd offset (uint64 n)); reflexivity.
Qed.

(** C4.  A [VirtualWrite] whose backing write stores [n > 0] bytes
    invalidates [cachedDigest], makes [size] the larger of the old size
    and [offset + n] (a [uint64] sum), and bumps [changeID]; this also
    holds when the backing write reports an error next to the [n] bytes,
    and the call then returns [n] with [StatusErrIO]. *)
Theorem VirtualWrite_written
  (buf : list Byte.byte) (offset : Z) (w : World) (h h' : F) (n : Z)
  (err : option error) :
  file (self w) = Some h ->
  frozenDescriptorsCount (self w) = 0 ->
  file_WriteAt h buf (int64 offset) = ((n, err), h') ->
  0 < n ->
  exists w',
    VirtualWrite buf offset w =
      Done ((n, match err with Some _ => StatusErrIO | None => StatusOK end), w')
    /\ cachedDigest (self w') = BadDigest
    /\ size (self w') = Z.max (size (self w)) (uadd offset (uint64 n))
    /\ changeID (self w') = uinc (changeID (self w))
    /\ (0 <= offset -> offset + n < 2 ^ 64 ->
          size (self w') = Z.max (size (self w)) (offset + n))
    /\ (0 <= changeID (self w) < MaxUint64 ->
          changeID (self w') = changeID (self w) + 1).
Proof.
  intros Hf Hz Hw Hn. rewrite (VirtualWrite_run buf offset w Hf Hz).
  cbn zeta. rewrite Hw. cbn [fst snd].
  apply Z.ltb_lt in Hn. rewrite Hn.
  assert (Hsz : forall f : fileBackedFile,
             size (if size (self w) <? uadd offset (uint64 n)
                   then with_size (uadd offset (uint64 n)) f else f) =
             if size (self w) <? uadd offset (uint64 n)
             then uadd offset (uint64 n) else size f).
  { intros f. destruct (size (self w) <? uadd offset (uint64 n)); reflexivity. }
  assert (Hmax : (if size (self w) <? uadd offset (uint64 n)
                  then uadd offset (uint64 n) else size (self w)) =
                 Z.max (size (self w)) (uadd offset (uint64 n))).
  { destruct (Z.ltb_spec (size (self w)) (uadd offset (uint64 n))); lia. }
  assert (Hcd : forall f : fileBackedFile,
             cachedDigest (if size (self w) <? uadd offset (uint64 n)
                           then with_size (uadd offset (uint64 n)) f else f) =
             cachedDigest f).
  { intros f. destruct (size (self w) <? uadd offset (uint64 n)); reflexivity. }
  destruct err; (eexists; split; [reflexivity|]);
    cbn [self with_changeID cachedDigest size changeID];
    rewrite Hsz, Hcd; cbn [with_cachedDigest with_file size cachedDigest];
    rewrite Hmax;
    (repeat split;
     [ intros H0 H1; rewrite uadd_uint64_r, wrap64_small by (apply Z.ltb_lt in Hn; lia);
       reflexivity
     | apply uinc_small ]).
Qed.

(** What [virtualTruncate] does to a live file. *)
Lemma virtualTruncate_run (sz : Z) (w : World) (h : F) :
  file (self w) = Some h ->
  virtualTruncate sz w =
    let r := file_Truncate h (int64 sz) in
    match fst r with
    | Some e =>
        Done (StatusErrIO,
              {| self := with_file (Some (snd r)) (self w);
                 events := EvLog "Failed to truncate file to length" (Some e)
                             :: EvTruncate (int64 sz) :: events w |})
    | None =>
        Done (StatusOK,
              {| self := with_changeID (uinc (changeID (self w)))
                           (with_size sz
                              (with_cachedDigest BadDigest
                                 (with_file (Some (snd r)) (self w))));
                 events := EvTruncate (int64 sz) :: events w |})
    end.
Proof.
  intros Hf. unfold virtualTruncate. run_mon. rewrite Hf.
  cbn zeta. cbn [self events fst snd].
  destruct (file_Truncate h (int64 sz)) as [[e|] h']; reflexivity.
Qed.

Lemma status_passthrough (m : M Status) (w : World) :
  bind m (fun s => if negb (Status_eqb s StatusOK) then ret s else ret StatusOK) w
  = m w.
Proof.
  unfold bind. destruct (m w) as [[s w'] | | |]; try reflexivity.
  destruct s; reflexivity.
Qed.

Lemma bind_ret_r {A : Type} (m : M A) (w : World) :
  bind m (fun a => ret a) w = m w.
Proof. unfold bind. destruct (m w) as [[a w'] | | |]; reflexivity. Qed.

(** On a file that is not frozen [VirtualAllocate] is its body. *)
Lemma VirtualAllocate_unfrozen (off sz : Z) (w : World) :
  frozenDescriptorsCount (self w) = 0 ->
  VirtualAllocate off sz w = VirtualAllocate_locked off sz w.
Proof.
  intros Hz. unfold VirtualAllocate.
  unfold lockMutatingData, waitUnfrozen, f_lock_Lock, f_lock_Unlock.
  unfold bind at 1 2 3. unfold ret at 1. unfold getf at 1. rewrite Hz.
  cbn [Z.ltb Z.compare]. unfold ret at 1.
  change (bind (VirtualAllocate_locked off sz)
            (fun s => bind (ret tt) (fun _ => ret s)) w)
    with (bind (VirtualAllocate_locked off sz) (fun s => ret s) w).
  apply bind_ret_r.
Qed.

(** C10.  [VirtualAllocate] compares the size of the file with
    [(off + size) mod 2^64].  When that wrapped end does not exceed the
    size it returns [StatusOK] and touches nothing, also when [off + size]
    itself is larger than the size; only a wrapped end beyond the size is
    handed to [virtualTruncate]. *)
Theorem VirtualAllocate_wraps (off sz : Z) (w : World) :
  frozenDescriptorsCount (self w) = 0 ->
  (wrap64 (off + sz) <= size (self w) ->
     VirtualAllocate off sz w = Done (StatusOK, w))
  /\ (size (self w) < wrap64 (off + sz) ->
        VirtualAllocate off sz w = virtualTruncate (wrap64 (off + sz)) w).
Proof.
  intros Hz. rewrite (VirtualAllocate_unfrozen off sz w Hz).
  unfold VirtualAllocate_locked.
  split; intros H; unfold bind at 1; unfold getf at 1; cbv beta iota zeta;
    rewrite uadd_wrap.
  - apply Z.ltb_ge in H. rewrite H. destruct w; reflexivity.
  - apply Z.ltb_lt in H. rewrite H. apply status_passthrough.
Qed.

Lemma VirtualSetAttributes_no_size (in_ : Attributes) (requested : Z)
  (out : Attributes) (w : World) :
  attrSizeBytes in_ = None ->
  VirtualSetAttributes in_ requested out w =
    Done ((StatusOK,
           virtualGetAttributesLocked (setPermissions in_ (self w))
             (virtualGetAttributesUnlocked out)),
          {| self := setPermissions in_ (self w); events := events w |}).
Proof.
  intros Hs. unfold VirtualSetAttributes, VirtualSetAttributes_locked, setPermissions.
  rewrite Hs. run_mon. cbn [Status_eqb negb].
  destruct w; destruct (attrPermissions in_); reflexivity.
Qed.

Lemma VirtualSetAttributes_size (in_ : Attributes) (requested : Z)
  (out : Attributes) (w : World) (h : F) (sizeBytes : Z) :
  file (self w) = Some h ->
  frozenDescriptorsCount (self w) = 0 ->
  attrSizeBytes in_ = Some sizeBytes ->
  fst (file_Truncate h (int64 sizeBytes)) = None ->
  let f1 := with_changeID (uinc (changeID (self w)))
              (with_size sizeBytes
                 (with_cachedDigest BadDigest
                    (with_file (Some (snd (file_Truncate h (int64 sizeBytes))))
                       (self w)))) in
  VirtualSetAttributes in_ requested out w =
    Done ((StatusOK,
           virtualGetAttributesLocked (setPermissions in_ f1)
             (virtualGetAttributesUnlocked out)),
          {| self := setPermissions in_ f1;
             events := EvTruncate (int64 sizeBytes) :: events w |}).
Proof.
  intros Hf Hz Hs Ht f1.
  unfold VirtualSetAttributes, VirtualSetAttributes_locked.
  rewrite Hs.
  unfold lockMutatingData, waitUnfrozen, f_lock_Lock, f_lock_Unlock.
  unfold bind at 1 2 3. unfold ret at 1. unfold getf at 1. rewrite Hz.
  cbn [Z.ltb Z.compare]. unfold ret at 1.
  unfold bind at 1 2. rewrite (virtualTruncate_run sizeBytes w Hf).
  cbn zeta. rewrite Ht. cbn [Status_eqb negb].
  unfold setPermissions. run_mon. cbn [self events].
  destruct (attrPermissions in_); reflexivity.
Qed.

Lemma VirtualOpenSelf_truncate (shareAccess : Z) (attributes : Attributes)
  (w : World) (h : F) :
  file (self w) = Some h ->
  frozenDescriptorsCount (self w) = 0 ->
  referenceCount (self w) <> 0 ->
  fst (file_Truncate h (int64 0)) = None ->
  exists a w',
    VirtualOpenSelf shareAccess true attributes w = Done ((StatusOK, a), w')
    /\ changeID (self w') = uinc (changeID (self w))
    /\ cachedDigest (self w') = BadDigest
    /\ size (self w') = 0.
Proof.
  intros Hf Hz Hr Ht.
  unfold VirtualOpenSelf, VirtualOpenSelf_locked.
  unfold lockMutatingData, waitUnfrozen, f_lock_Lock, f_lock_Unlock.
  unfold bind at 1 2 3. unfold ret at 1. unfold getf at 1. rewrite Hz.
  cbn [Z.ltb Z.compare]. unfold ret at 1.
  unfold bind at 1 2. unfold getf at 1. rewrite (eqb_zero_false Hr).
  unfold bind at 1 2. rewrite (virtualTruncate_run 0 w Hf).
  cbn zeta. rewrite Ht. cbn [Status_eqb negb].
  unfold acquireShareAccessLocked. run_mon. cbn [self events].
  destruct (Z.land shareAccess ShareMaskWrite =? 0);
    (do 2 eexists; split; [reflexivity|]); cbn; auto.
Qed.

Lemma changeID_setPermissions (in_ : Attributes) (f : fileBackedFile) :
  changeID (setPermissions in_ f) =
    match attrPermissions in_ with
    | Some _ => uinc (changeID f)
    | None => changeID f
    end.
Proof. unfold setPermissions. destruct (attrPermissions in_); reflexivity. Qed.

Lemma cachedDigest_setPermissions (in_ : Attributes) (f : fileBackedFile) :
  cachedDigest (setPermissions in_ f) = cachedDigest f.
Proof. unfold setPermissions. destruct (attrPermissions in_); reflexivity. Qed.

(** C3, as the code has it.  On a live file that is not frozen, every
    successful mutation strictly increases [changeID] (which has room to
    grow).  A write of at least one byte and a successful truncate,
    whether through [VirtualSetAttributes] with a size, [VirtualOpenSelf]
    with [O_TRUNC] or an extending [VirtualAllocate], also reset
    [cachedDigest] to [BadDigest].  A change of permissions through
    [VirtualSetAttributes] without a size sets the executable bit and
    leaves [cachedDigest] as it was. *)
Theorem mutation_bumps_changeID (w : World) (h : F) :
  file (self w) = Some h ->
  frozenDescriptorsCount (self w) = 0 ->
  0 <= changeID (self w) ->
  changeID (self w) + 2 <= MaxUint64 ->
  (forall buf offset,
     0 < fst (fst (file_WriteAt h buf (int64 offset))) ->
     exists n s w',
       VirtualWrite buf offset w = Done ((n, s), w')
       /\ 0 < n
       /\ changeID (self w) < changeID (self w')
       /\ cachedDigest (self w') = BadDigest)
  /\ (forall in_ requested out sizeBytes,
        attrSizeBytes in_ = Some sizeBytes ->
        fst (file_Truncate h (int64 sizeBytes)) = None ->
        exists a w',
          VirtualSetAttributes in_ requested out w = Done ((StatusOK, a), w')
          /\ changeID (self w) < changeID (self w')
          /\ cachedDigest (self w') = BadDigest)
  /\ (forall shareAccess attributes,
        referenceCount (self w) <> 0 ->
        fst (file_Truncate h (int64 0)) = None ->
        exists a w',
          VirtualOpenSelf shareAccess true attributes w = Done ((StatusOK, a), w')
          /\ changeID (self w) < changeID (self w')
          /\ cachedDigest (self w') = BadDigest)
  /\ (forall off sz,
        size (self w) < wrap64 (off + sz) ->
        fst (file_Truncate h (int64 (wrap64 (off + sz)))) = None ->
        exists w',
          VirtualAllocate off sz w = Done (StatusOK, w')
          /\ changeID (self w) < changeID (self w')
          /\ cachedDigest (self w') = BadDigest)
  /\ (forall in_ requested out permissions,
        attrSizeBytes in_ = None ->
        attrPermissions in_ = Some permissions ->
        exists a w',
          VirtualSetAttributes in_ requested out w = Done ((StatusOK, a), w')
          /\ changeID (self w) < changeID (self w')
          /\ isExecutable (self w') = negb (Z.land permissions PermissionsExecute =? 0)
          /\ cachedDigest (self w') = cachedDigest (self w)).
Proof.
  intros Hf Hz Hc0 Hc2.
  assert (U1 : uinc (changeID (self w)) = changeID (self w) + 1)
    by (apply uinc_small; unfold MaxUint64 in *; lia).
  assert (U2 : uinc (changeID (self w) + 1) = changeID (self w) + 2).
  { rewrite uinc_small by (unfold MaxUint64 in *; lia). lia. }
  repeat apply conj.
  - intros buf offset Hn.
    destruct (file_WriteAt h buf (int64 offset)) as [[n err] h'] eqn:Ew.
    cbn [fst] in Hn.
    destruct (VirtualWrite_mutates buf offset w Hf Hz Ew Hn)
      as (st & w' & E & Hcd & Hid).
    exists n, st, w'. repeat split; auto. rewrite Hid, U1. lia.
  - intros in_ requested out sizeBytes Hs Ht.
    do 2 eexists. split.
    + apply (VirtualSetAttributes_size in_ requested out w Hf Hz Hs Ht).
    + cbn [self]. rewrite changeID_setPermissions, cachedDigest_setPermissions.
      cbn [changeID cachedDigest with_changeID with_size with_cachedDigest].
      split; [|reflexivity].
      destruct (attrPermissions in_); rewrite U1; [rewrite U2|]; lia.
  - intros shareAccess attributes Hr Ht.
    destruct (VirtualOpenSelf_truncate shareAccess attributes w Hf Hz Hr Ht)
      as (a & w' & E & Hid & Hcd & _).
    exists a, w'. repeat split; auto. rewrite Hid, U1. lia.
  - intros off sz Hlt Ht.
    rewrite (VirtualAllocate_unfrozen off sz w Hz).
    unfold VirtualAllocate_locked. unfold bind at 1. unfold getf at 1.
    cbv beta iota zeta. rewrite uadd_wrap.
    apply Z.ltb_lt in Hlt. rewrite Hlt. rewrite status_passthrough.
    rewrite (virtualTruncate_run _ w Hf). cbn zeta. rewrite Ht.
    eexists. split; [reflexivity|]. cbn. rewrite U1. split; [lia|reflexivity].
  - intros in_ requested out permissions Hs Hp.
    do 2 eexists. split.
    + apply (VirtualSetAttributes_no_size in_ requested out w Hs).
    + cbn [self]. unfold setPermissions. rewrite Hp. cbn. rewrite U1.
      repeat split. lia.
Qed.

(** ** Calls against bodies *)

Ltac unfold_methods :=
  unfold acquireFrozenDescriptor, releaseFrozenDescriptor, Link, Unlink,
    getCachedDigest, ReadAt, VirtualAllocate, VirtualSeek, VirtualOpenSelf,
    VirtualRead, VirtualClose, VirtualSetAttributes, VirtualWrite, Close,
    acquireFrozenDescriptor_locked, releaseFrozenDescriptor_locked,
    Link_locked, ReadAt_locked, VirtualAllocate_locked, VirtualOpenSelf_locked,
    VirtualRead_locked, VirtualClose_locked, VirtualSetAttributes_locked,
    VirtualWrite_locked, releaseReferencesLocked, acquireShareAccessLocked,
    virtualTruncate in *.

Ltac case_outcome :=
  repeat match goal with
    | |- context [match ?m ?w with Done _ => _ | Panicked _ => _ | Blocks => _ | OutOfFuel => _ end] =>
        destruct (m w) as [[? ?] | | |]
    end.

(** A call that runs alone is the entry protocol followed by the body. *)
Lemma call_entry_body (op : Op) (w : World) :
  call op w = bind (entry op) (fun _ => body op) w.
Proof.
  destruct op; unfold call, body, entry, isMutating, lockKind;
    try (unfold acquireFrozenDescriptor, releaseFrozenDescriptor, Link, Unlink,
           getCachedDigest, ReadAt, VirtualAllocate, VirtualOpenSelf,
           VirtualRead, VirtualClose, VirtualSetAttributes, VirtualWrite;
         unfold lockMutatingData, waitUnfrozen, f_lock_Lock, f_lock_Unlock,
           f_lock_RLock, f_lock_RUnlock;
         unfold bind, ret, getf;
         repeat match goal with
           | |- context [if ?b then _ else _] => destruct b
           | |- context [match attrSizeBytes ?a with _ => _ end] =>
               destruct (attrSizeBytes a)
           end;
         unfold block;
         case_outcome; reflexivity).
Qed.

(** ** Invariants *)

Ltac run_mon_in H :=
  cbv beta iota delta
    [bind ret get modify panic block outOfFuel getf modf emit backing
     f_lock_Lock f_lock_Unlock f_lock_RLock f_lock_RUnlock
     waitUnfrozen lockMutatingData] in H.

Ltac to_props :=
  repeat match goal with
    | H : (_ =? _) = true |- _ => apply Z.eqb_eq in H
    | H : (_ =? _) = false |- _ => apply Z.eqb_neq in H
    | H : (_ <? _) = true |- _ => apply Z.ltb_lt in H
    | H : (_ <? _) = false |- _ => apply Z.ltb_ge in H
    | H : (_ <=? _) = true |- _ => apply Z.leb_le in H
    | H : (_ <=? _) = false |- _ => apply Z.leb_gt in H
    end.

Ltac fields_in H :=
  cbn [self events file isExecutable size referenceCount writableDescriptorsCount
       frozenDescriptorsCount unfreezeWakeup cachedDigest changeID
       with_file with_isExecutable with_size with_referenceCount
       with_writableDescriptorsCount with_frozenDescriptorsCount
       with_unfreezeWakeup with_cachedDigest with_changeID fst snd] in H.

Ltac fields :=
  cbn [self events file isExecutable size referenceCount writableDescriptorsCount
       frozenDescriptorsCount unfreezeWakeup cachedDigest changeID
       with_file with_isExecutable with_size with_referenceCount
       with_writableDescriptorsCount with_frozenDescriptorsCount
       with_unfreezeWakeup with_cachedDigest with_changeID fst snd].

Ltac break_world w :=
  destruct w as [[fl ex sz rc wc fc uw cd ci] evs].

Ltac split_ifs_in E :=
  repeat match type of E with
    | context [if ?b then _ else _] => destruct b eqn:?
    | context [match ?x with Some _ => _ | None => _ end] => destruct x eqn:?
    | context [match ?x with EOF => _ | EINVAL => _ | StatusError _ _ => _ end] =>
        destruct x eqn:?
    end.

(** Symbolic execution of the body of a method on a world given by its
    fields; every path that returns is left as a goal. *)
Ltac exec_body op E :=
  destruct op; unfold body in E; unfold_methods; unfold VirtualSeek in E;
  run_mon_in E; cbn in E;
  split_ifs_in E; try discriminate; inversion E; subst; cbn in *; to_props.

Lemma keeps_ret {A : Type} (I : World -> Prop) (a : A) : keeps I (ret a).
Proof. apply hoare_ret. auto. Qed.

Lemma keeps_bind {A B : Type} (I : World -> Prop) (m : M A) (k : A -> M B) :
  keeps I m -> (forall a, keeps I (k a)) -> keeps I (bind m k).
Proof. intros Hm Hk. eapply hoare_bind; [exact Hm | exact Hk]. Qed.

Lemma keeps_getf (I : World -> Prop) : keeps I getf.
Proof. intros w a w' HI E. inversion E; subst. exact HI. Qed.

Lemma keeps_outOfFuel {A : Type} (I : World -> Prop) : keeps I (outOfFuel : M A).
Proof. apply hoare_outOfFuel. Qed.

Lemma keeps_entry (I : World -> Prop) (op : Op) : keeps I (entry op).
Proof.
  intros w a w' HI E. unfold entry, lockMutatingData, waitUnfrozen in E.
  run_mon_in E.
  destruct (isMutating op); [destruct (0 <? _)|]; inversion E; subst; exact HI.
Qed.

(** The backing file is closed when the last reference goes, and never
    again: every method keeps [released_once]. *)
Lemma body_released_once (op : Op) : keeps released_once (body op).
Proof.
  intros w r w' HP E. break_world w. unfold released_once in *. cbn in HP.
  exec_body op E.
  all: try solve [first [destruct fl | idtac]; intuition (try congruence; try lia)].
  all: match goal with
       | |- context [Count ?sa] =>
           pose proof (wrap64_range (ShareMask_Count sa)) as Hc;
           fold (Count sa) in *; remember (Count sa) as c eqn:Hcdef; clear Hcdef
       end.
  all: destruct fl; intuition (try congruence; try lia).
  all: subst; assert (c = 0) as -> by lia; exfalso; auto.
Qed.

Section Stable.

Variable I : World -> Prop.
Hypothesis I_stable : stable I.
Hypothesis I_body : forall op, keeps I (body op).

Lemma keeps_call (op : Op) : keeps I (call op).
Proof.
  intros w r w' HP E. rewrite call_entry_body in E. revert w r w' HP E.
  apply keeps_bind; [apply keeps_entry | intros _; apply I_body].
Qed.

Lemma keeps_ReadAt (len off : Z) : keeps I (ReadAt len off).
Proof.
  intros w r w' HI E. unfold ReadAt, ReadAt_locked in E. run_mon_in E.
  destruct (file (self w)) eqn:Ef; [|discriminate].
  inversion E; subst. apply I_stable; [exact HI | congruence].
Qed.

Lemma keeps_io_Copy (fuel : nat) :
  forall off acc, keeps I (io_Copy fuel off acc).
Proof.
  induction fuel as [|fuel IH]; intros off acc; cbn [io_Copy].
  - apply keeps_outOfFuel.
  - destruct (MaxInt64 <=? off); [apply keeps_ret|].
    apply keeps_bind; [apply keeps_ReadAt|]. intros r.
    destruct (snd r) as [[| |]|]; try apply keeps_ret. apply IH.
Qed.

Lemma keeps_store_digest (d : Digest) : keeps I (modf (with_cachedDigest d)).
Proof. apply hoare_modf. intros w HI. apply I_stable. exact HI. Qed.

Lemma keeps_getCachedDigest : keeps I getCachedDigest.
Proof.
  unfold getCachedDigest, f_lock_RLock, f_lock_RUnlock.
  repeat first [apply keeps_bind; [|intros ?] | apply keeps_ret | apply keeps_getf].
Qed.

Lemma keeps_updateCachedDigest (fuel : nat) (fn : digest_Function) :
  keeps I (updateCachedDigest fuel fn).
Proof.
  unfold updateCachedDigest.
  apply keeps_bind; [apply keeps_getCachedDigest|]. intros cached.
  destruct (_ && _); [apply keeps_ret|].
  apply keeps_bind; [apply keeps_io_Copy|]. intros r.
  destruct (snd r); [apply keeps_ret|].
  unfold f_lock_Lock, f_lock_Unlock.
  repeat first [apply keeps_bind; [|intros ?] | apply keeps_ret
               | apply keeps_store_digest].
Qed.

Lemma keeps_buffer_reads (reads : list (Z * Z)) : keeps I (buffer_reads reads).
Proof.
  induction reads as [|[len off] rest IH]; cbn [buffer_reads].
  - apply keeps_ret.
  - apply keeps_bind; [apply keeps_ReadAt|]. intros r.
    destruct (snd r) as [[| |]|]; try apply keeps_ret; apply IH.
Qed.

Lemma keeps_metric : keeps I (emit EvMetricInc).
Proof. apply hoare_emit. intros w HI. apply I_stable. exact HI. Qed.

Lemma keeps_put (d : Digest) : keeps I (emit (EvPut d)).
Proof. apply hoare_emit. intros w HI. apply I_stable. exact HI. Qed.

Lemma keeps_acquireFrozenDescriptor : keeps I acquireFrozenDescriptor.
Proof.
  intros w r w' HP E.
  refine (@keeps_call OpAcquireFrozenDescriptor w
            (RFrozen (fst r) (snd r)) w' HP _).
  cbn [call]. unfold bind. rewrite E. reflexivity.
Qed.

Lemma keeps_releaseFrozenDescriptor : keeps I releaseFrozenDescriptor.
Proof.
  intros w r w' HP E.
  refine (@keeps_call OpReleaseFrozenDescriptor w RUnit w' HP _).
  cbn [call]. unfold bind. rewrite E. reflexivity.
Qed.

Lemma keeps_Close : keeps I Close.
Proof.
  unfold Close. apply keeps_bind; [apply keeps_releaseFrozenDescriptor|].
  intros _. apply keeps_ret.
Qed.

Lemma keeps_BlobAccess_Put (cas : BlobAccess) (d : Digest) :
  keeps I (BlobAccess_Put cas d).
Proof.
  unfold BlobAccess_Put.
  apply keeps_bind; [(apply keeps_put; exact I_stable)|]. intros _.
  apply keeps_bind; [(apply keeps_buffer_reads; exact I_stable)|]. intros e.
  apply keeps_bind; [apply keeps_Close|]. intros _.
  destruct e; apply keeps_ret.
Qed.

Lemma keeps_UploadFile (fuel : nat) (cas : BlobAccess) (fn : digest_Function) :
  keeps I (UploadFile fuel cas fn).
Proof.
  unfold UploadFile.
  apply keeps_bind; [apply keeps_acquireFrozenDescriptor|]. intros a.
  destruct (negb (snd a)); [apply keeps_ret|].
  apply keeps_bind.
  { destruct (fst a); [(apply keeps_metric; exact I_stable) | apply keeps_ret]. }
  intros _.
  apply keeps_bind; [(apply keeps_updateCachedDigest; exact I_stable)|].
  intros r. destruct (snd r).
  - apply keeps_bind; [apply keeps_Close|]. intros _. apply keeps_ret.
  - apply keeps_bind; [apply keeps_BlobAccess_Put|]. intros e.
    destruct e; apply keeps_ret.
Qed.

Lemma keeps_GetOutputServiceFileStatus (fuel : nat) (fn : option digest_Function) :
  keeps I (GetOutputServiceFileStatus fuel fn).
Proof.
  unfold GetOutputServiceFileStatus. destruct fn as [fn|]; [|apply keeps_ret].
  apply keeps_bind; [apply keeps_acquireFrozenDescriptor|]. intros a.
  destruct (negb (snd a)); [apply keeps_ret|].
  apply keeps_bind.
  { destruct (negb (fst a)); [|apply keeps_ret].
    apply keeps_bind; [(apply keeps_updateCachedDigest; exact I_stable)|].
    intros r. destruct (snd r); apply keeps_ret. }
  intros res.
  apply keeps_bind; [apply keeps_releaseFrozenDescriptor|]. intros _.
  apply keeps_ret.
Qed.

Lemma keeps_run_call (c : Call) : keeps I (run_call c).
Proof.
  destruct c; cbn [run_call]; (apply keeps_bind; [|intros ?; apply keeps_ret]).
  - apply keeps_call.
  - (apply keeps_updateCachedDigest; exact I_stable).
  - apply keeps_UploadFile.
  - apply keeps_GetOutputServiceFileStatus.
Qed.

Lemma keeps_run_calls (cs : list Call) : keeps I (run_calls cs).
Proof.
  induction cs as [|c cs IH]; cbn [run_calls].
  - apply keeps_ret.
  - apply keeps_bind; [apply keeps_run_call | intros _; exact IH].
Qed.

End Stable.

Lemma released_once_stable : @stable F DD (@released_once F DD).
Proof.
  unfold stable, released_once.
  repeat match goal with |- _ /\ _ => split end; intros w; intros; cbn in *;
    destruct (file (self w)); cbn; intuition congruence.
Qed.

Lemma counters_stable (rc fc : Z) : @stable F DD (@counters F DD rc fc).
Proof. unfold stable, counters. repeat split; cbn; tauto. Qed.

Lemma released_stable : @stable F DD (@released F DD).
Proof.
  unfold stable, released.
  repeat match goal with |- _ /\ _ => split end; intros w; intros; cbn in *;
    intuition congruence.
Qed.

(** A file that was released stays released: no method brings [file]
    back, raises [referenceCount] again, or closes the backing file a
    second time. *)
Lemma body_released (op : Op) : keeps released (body op).
Proof.
  intros w r w' HP E. break_world w. unfold released in *. cbn in HP.
  destruct HP as (-> & -> & Hcl).
  exec_body op E.
  all: try solve [intuition (try congruence; try lia)].
  all: match goal with
       | |- context [Count ?sa] =>
           pose proof (wrap64_range (ShareMask_Count sa)) as Hc;
           fold (Count sa) in *; remember (Count sa) as c eqn:Hcdef; clear Hcdef
       end.
  all: assert (c = 0) as -> by lia; exfalso; auto.
Qed.

Lemma released_once_closes (w : World) :
  released_once w ->
  (closes (events w) <= 1)%nat
  /\ (closes (events w) = 1%nat <-> file (self w) = None)
  /\ (file (self w) = None -> referenceCount (self w) = 0).
Proof.
  unfold released_once. destruct (file (self w)); intros H.
  - rewrite H. repeat split; try lia; try discriminate.
  - destruct H as [H1 H2]. rewrite H2. repeat split; auto.
Qed.

(** A file as [NewFile] hands it out has never been closed. *)
Lemma NewFile_released_once (created : F + error) (isExecutable_ : bool)
  (sz shareAccess : Z) (f : fileBackedFile) (evs : list event) :
  NewFile created isExecutable_ sz shareAccess = (Some f, StatusOK, evs) ->
  released_once {| self := f; events := evs |}
  /\ file f <> None
  /\ referenceCount f = uadd 1 (Count shareAccess).
Proof.
  unfold NewFile. destruct created as [h|e]; [|discriminate].
  destruct (fst (if 0 <? sz then file_Truncate h (int64 sz) else (None, h)));
    [discriminate|].
  unfold acquireShareAccessLocked. run_mon.
  destruct (Z.land shareAccess ShareMaskWrite =? 0); intros E;
    inversion E; subst; unfold released_once; cbn;
    destruct (0 <? sz); cbn; repeat split; discriminate.
Qed.

(** What a release of references does when enough of them are held. *)
Lemma releaseReferencesLocked_run (count : Z) (w : World) :
  count <= referenceCount (self w) ->
  releaseReferencesLocked count w =
    if usub (referenceCount (self w)) count =? 0 then
      match file (self w) with
      | Some _ =>
          Done (tt, {| self := with_file None
                                 (with_referenceCount 0 (self w));
                       events := EvClose :: events w |})
      | None => Panicked nilDereference
      end
    else
      Done (tt, {| self := with_referenceCount
                             (usub (referenceCount (self w)) count) (self w);
                   events := events w |}).
Proof.
  intros H. unfold releaseReferencesLocked. run_mon.
  apply Z.ltb_ge in H. rewrite H. cbn [self referenceCount with_referenceCount].
  destruct (usub (referenceCount (self w)) count =? 0) eqn:E; [|reflexivity].
  cbn [file with_referenceCount]. apply Z.eqb_eq in E.
  destruct (file (self w)); [|reflexivity]. cbn. rewrite E. reflexivity.
Qed.

Lemma stale_Link (w : World) :
  referenceCount (self w) = 0 -> Link w = Done (StatusErrStale, w).
Proof.
  intros H. unfold Link, Link_locked. run_mon. rewrite H. destruct w; reflexivity.
Qed.

Lemma stale_VirtualOpenSelf (shareAccess : Z) (truncate : bool)
  (attributes : Attributes) (w : World) :
  referenceCount (self w) = 0 ->
  truncate = false \/ frozenDescriptorsCount (self w) = 0 ->
  VirtualOpenSelf shareAccess truncate attributes w =
    Done ((StatusErrStale, attributes), w).
Proof.
  intros H Ht. unfold VirtualOpenSelf, VirtualOpenSelf_locked.
  destruct Ht as [-> | Hz]; [|destruct truncate]; run_mon;
    try rewrite Hz; cbn [Z.ltb Z.compare]; rewrite H; destruct w; reflexivity.
Qed.

Lemma stale_UploadFile (fuel : nat) (cas : BlobAccess) (fn : digest_Function)
  (w : World) :
  referenceCount (self w) = 0 ->
  UploadFile fuel cas fn w =
    Done ((BadDigest,
           Some (StatusError CodeNotFound
                   "File was unlinked before uploading could start")), w).
Proof.
  intros H. unfold UploadFile. unfold bind at 1.
  rewrite (acquire_stale w H). reflexivity.
Qed.

(** A read that is clipped to no byte at all never looks at the backing
    file nor at [referenceCount]. *)
Lemma VirtualRead_empty (buf : list Byte.byte) (off : Z) (w : World) :
  fst (BoundReadToFileSize buf off (size (self w))) = [] ->
  VirtualRead buf off w =
    Done (([], 0, snd (BoundReadToFileSize buf off (size (self w))), StatusOK), w).
Proof.
  intros H. unfold VirtualRead, VirtualRead_locked. run_mon. rewrite H.
  cbn. destruct w; reflexivity.
Qed.

(** ** Release of the backing file *)

(** C1, as the code has it.  The decrement that takes [referenceCount] to
    zero closes the backing file, once, and sets [file] to nil; a
    decrement that leaves references closes nothing.  A file starts out
    from [NewFile] with its backing file open, and whatever calls follow,
    the backing file is closed at most once, and once it is closed no
    reference comes back.  On a file without references [Link] and [VirtualOpenSelf]
    return [StatusErrStale], and [acquireFrozenDescriptor] fails, so that
    [UploadFile] reports [NotFound].  [VirtualRead] makes no such check:
    a read that is clipped to no byte returns [StatusOK] whatever
    [referenceCount] is. *)
Theorem released_once_then_stale :
  (forall count (w : World) h,
     file (self w) = Some h ->
     referenceCount (self w) = count ->
     releaseReferencesLocked count w =
       Done (tt, {| self := with_file None (with_referenceCount 0 (self w));
                    events := EvClose :: events w |}))
  /\ (forall count (w : World),
        count <= referenceCount (self w) ->
        usub (referenceCount (self w)) count <> 0 ->
        releaseReferencesLocked count w =
          Done (tt, {| self := with_referenceCount
                                 (usub (referenceCount (self w)) count) (self w);
                       events := events w |}))
  /\ (forall created isExecutable_ sz shareAccess (f : fileBackedFile) evs,
        NewFile created isExecutable_ sz shareAccess = (Some f, StatusOK, evs) ->
        released_once {| self := f; events := evs |} /\ file f <> None)
  /\ (forall cs (w w' : World),
        released_once w ->
        run_calls cs w = Done (tt, w') ->
        released_once w'
        /\ (closes (events w') <= 1)%nat
        /\ (closes (events w') = 1%nat <-> file (self w') = None))
  /\ (forall cs (w w' : World),
        released w ->
        run_calls cs w = Done (tt, w') ->
        released w')
  /\ (forall w : World,
        referenceCount (self w) = 0 ->
        Link w = Done (StatusErrStale, w)
        /\ (forall shareAccess attributes,
              VirtualOpenSelf shareAccess false attributes w =
                Done ((StatusErrStale, attributes), w))
        /\ (forall shareAccess attributes,
              frozenDescriptorsCount (self w) = 0 ->
              VirtualOpenSelf shareAccess true attributes w =
                Done ((StatusErrStale, attributes), w))
        /\ acquireFrozenDescriptor w = Done ((false, false), w)
        /\ (forall fuel cas fn,
              exists msg,
                UploadFile fuel cas fn w =
                  Done ((BadDigest, Some (StatusError CodeNotFound msg)), w)))
  /\ (forall (w : World) buf off,
        fst (BoundReadToFileSize buf off (size (self w))) = [] ->
        VirtualRead buf off w =
          Done (([], 0, snd (BoundReadToFileSize buf off (size (self w))), StatusOK),
                w)).
Proof.
  repeat apply conj.
  - intros count w h Hf Hc. rewrite releaseReferencesLocked_run by lia.
    subst count. rewrite usub_self. cbn [Z.eqb]. rewrite Hf. reflexivity.
  - intros count w Hle Hnz. rewrite releaseReferencesLocked_run by exact Hle.
    rewrite (eqb_zero_false Hnz). reflexivity.
  - intros created ex sz sa f evs HN.
    destruct (NewFile_released_once created ex sz sa HN) as (H1 & H2 & _). auto.
  - intros cs w w' HI E.
    assert (HI' : released_once w').
    { exact (@keeps_run_calls _ released_once_stable body_released_once cs
               w tt w' HI E). }
    destruct (released_once_closes w' HI') as (H1 & H2 & _). auto.
  - intros cs w w' HI E.
    exact (@keeps_run_calls _ released_stable body_released cs w tt w' HI E).
  - intros w H. repeat apply conj.
    + apply stale_Link. exact H.
    + intros. apply stale_VirtualOpenSelf; auto.
    + intros. apply stale_VirtualOpenSelf; auto.
    + apply (acquire_stale w H).
    + intros. eexists. apply stale_UploadFile. exact H.
  - intros w buf off H. apply VirtualRead_empty. exact H.
Qed.

(** ** Frozen descriptors *)

(** [Close] cannot return when one of the two counters is zero. *)
Lemma Close_underflow (w : World) :
  referenceCount (self w) = 0 \/ frozenDescriptorsCount (self w) = 0 ->
  exists msg, Close w = Panicked msg.
Proof.
  intros H. break_world w. cbn in H.
  unfold Close, releaseFrozenDescriptor, releaseFrozenDescriptor_locked,
    releaseReferencesLocked.
  run_mon. fields.
  destruct (fc =? 0) eqn:Ef; [eauto|].
  destruct H as [-> | ->]; [|discriminate Ef].
  fields. destruct (udec fc =? 0); cbn; eauto.
Qed.

(** Closing a frozen descriptor gives back what acquiring it took; after
    an acquisition that wrapped a counter around, it does not return. *)
Lemma Close_counters (refs frozen : Z) :
  0 <= refs <= MaxUint64 -> 0 <= frozen <= MaxUint64 ->
  hoare (counters (uinc refs) (uinc frozen)) Close (fun _ => @counters F DD refs frozen).
Proof.
  intros Hrc' Hfc' w r w' [H1 H2] E.
  destruct (Z.eq_dec refs MaxUint64) as [-> | Nr].
  { destruct (Close_underflow w) as [msg Hp]; [left; exact H1|]. congruence. }
  destruct (Z.eq_dec frozen MaxUint64) as [-> | Nfz].
  { destruct (Close_underflow w) as [msg Hp]; [right; exact H2|]. congruence. }
  assert (Hrc : 0 <= refs < MaxUint64) by lia.
  assert (Hfc : 0 <= frozen < MaxUint64) by lia.
  pose proof (uinc_nonzero Hfc) as Nf.
  pose proof (udec_uinc Hfc) as Df.
  pose proof (uinc_small Hrc) as Sr.
  assert (Dr : usub (uinc refs) 1 = refs) by (apply (udec_uinc Hrc)).
  assert (Lr : (uinc refs <? 1) = false) by (apply Z.ltb_ge; lia).
  remember (uinc refs) as rc1 eqn:Hrc1. remember (uinc frozen) as fc1 eqn:Hfc1.
  clear Hrc1 Hfc1 Sr.
  break_world w. cbn in H1, H2. subst rc fc.
  unfold Close, releaseFrozenDescriptor, releaseFrozenDescriptor_locked,
    releaseReferencesLocked in E.
  run_mon_in E. fields_in E.
  rewrite (eqb_zero_false Nf) in E. fields_in E. rewrite Df in E.
  unfold counters.
  destruct (frozen =? 0); fields_in E; rewrite Lr in E; fields_in E;
    rewrite Dr in E;
    (destruct (refs =? 0); [destruct fl; [|discriminate]|]);
    inversion E; cbn; auto.
Qed.

(** ** The cached digest *)

(** C7, as the code has it.  After a call of [updateCachedDigest] that
    returned a digest, a second call with the same digest function, with
    no mutation in between, returns the same digest and leaves the world
    as it is: it makes no call on the backing file.  This rests on what
    package [digest] promises: a digest that was computed is not
    [BadDigest] and uses the function that computed it. *)
Theorem updateCachedDigest_cached (fuel1 fuel2 : nat) (fn : digest_Function)
  (w w1 : World) (d : Digest) :
  (forall a b, Digest_eqb a b = true <-> a = b) ->
  (forall data, Generator_Sum fn data <> BadDigest) ->
  (forall data, UsesDigestFunction (Generator_Sum fn data) fn = true) ->
  updateCachedDigest fuel1 fn w = Done ((d, None), w1) ->
  updateCachedDigest fuel2 fn w1 = Done ((d, None), w1)
  /\ cachedDigest (self w1) = d.
Proof.
  intros Heq Hbad Huses E.
  assert (Hit : forall w0 : World,
             cachedDigest (self w0) <> BadDigest ->
             UsesDigestFunction (cachedDigest (self w0)) fn = true ->
             forall fuel, updateCachedDigest fuel fn w0
                          = Done ((cachedDigest (self w0), None), w0)).
  { intros w0 H1 H2 fuel. unfold updateCachedDigest, getCachedDigest.
    run_mon. rewrite H2.
    destruct (Digest_eqb (cachedDigest (self w0)) BadDigest) eqn:Eb.
    - apply Heq in Eb. contradiction.
    - reflexivity. }
  unfold updateCachedDigest in E. unfold bind at 1 in E.
  unfold getCachedDigest in E. run_mon_in E.
  destruct (negb (Digest_eqb (cachedDigest (self w)) BadDigest)
            && UsesDigestFunction (cachedDigest (self w)) fn) eqn:Ec.
  - inversion E; subst. apply andb_prop in Ec. destruct Ec as [E1 E2].
    split; [|reflexivity]. apply Hit; [|exact E2].
    intros Hb. rewrite Hb in E1.
    rewrite (proj2 (Heq BadDigest BadDigest) eq_refl) in E1. discriminate.
  - destruct (io_Copy fuel1 0 [] w) as [[[data err] w2] | | |]; try discriminate.
    cbn [fst snd] in E. destruct err; inversion E; subst.
    cbn [self cachedDigest with_cachedDigest].
    split; [|reflexivity].
    rewrite <- (Hit {| self := with_cachedDigest (Generator_Sum fn data) (self w2);
                       events := events w2 |}) at 1; [reflexivity| |].
    + apply Hbad.
    + apply Huses.
Qed.

(** ** Calls that cannot panic *)

Lemma returns_ret {A : Type} (P : World -> Prop) (a : A) (Q : A -> World -> Prop) :
  (forall w, P w -> Q a w) -> returns P (ret a) Q.
Proof. intros H w HP. cbn. auto. Qed.

Lemma returns_bind {A B : Type} (P : World -> Prop) (m : M A) (k : A -> M B)
  (Q : A -> World -> Prop) (R : B -> World -> Prop) :
  returns P m Q -> (forall a, returns (Q a) (k a) R) -> returns P (bind m k) R.
Proof.
  intros Hm Hk w HP. specialize (Hm w HP). unfold bind.
  destruct (m w) as [[a w1] | | |]; try exact Hm. apply Hk. exact Hm.
Qed.

Lemma returns_emit (e : event) (P : World -> Prop) (Q : unit -> World -> Prop) :
  (forall w, P w -> Q tt {| self := self w; events := e :: events w |}) ->
  returns P (emit e) Q.
Proof. intros H w HP. cbn. auto. Qed.

Lemma returns_modf (g : fileBackedFile -> fileBackedFile) (P : World -> Prop)
  (Q : unit -> World -> Prop) :
  (forall w, P w -> Q tt {| self := g (self w); events := events w |}) ->
  returns P (modf g) Q.
Proof. intros H w HP. cbn. auto. Qed.

Section Live.

Variable I : World -> Prop.
Hypothesis I_stable : stable I.
Hypothesis I_live : forall w, I w -> file (self w) <> None.

Lemma returns_ReadAt (len off : Z) : returns I (ReadAt len off) (fun _ => I).
Proof.
  intros w HI. unfold ReadAt, ReadAt_locked. run_mon.
  pose proof (I_live HI) as Hl.
  destruct (file (self w)) eqn:Ef; [|congruence].
  cbn [self events]. apply I_stable; [exact HI | congruence].
Qed.

Lemma returns_io_Copy (fuel : nat) :
  forall off acc, returns I (io_Copy fuel off acc) (fun _ => I).
Proof.
  induction fuel as [|fuel IH]; intros off acc; cbn [io_Copy].
  - intros w _. exact Logic.I.
  - destruct (MaxInt64 <=? off); [apply returns_ret; auto|].
    eapply returns_bind; [apply returns_ReadAt|]. intros r. cbv beta.
    destruct (snd r) as [[| |]|]; try (apply returns_ret; auto). apply IH.
Qed.

Lemma returns_updateCachedDigest (fuel : nat) (fn : digest_Function) :
  returns I (updateCachedDigest fuel fn) (fun _ => I).
Proof.
  unfold updateCachedDigest, getCachedDigest, f_lock_RLock, f_lock_RUnlock,
    f_lock_Lock, f_lock_Unlock.
  eapply returns_bind with (Q := fun _ => I).
  { intros w HI. cbn. exact HI. }
  intros cached. destruct (_ && _); [apply returns_ret; auto|].
  eapply returns_bind; [apply returns_io_Copy|]. intros r. cbv beta.
  destruct (snd r); [apply returns_ret; auto|].
  eapply returns_bind with (Q := fun _ => I); [apply returns_ret; auto|].
  intros _. eapply returns_bind with (Q := fun _ => I).
  { apply returns_modf. intros w HI. apply I_stable. exact HI. }
  intros _. eapply returns_bind with (Q := fun _ => I);
    [apply returns_ret; auto | intros _; apply returns_ret; auto].
Qed.

Lemma returns_buffer_reads (reads : list (Z * Z)) :
  returns I (buffer_reads reads) (fun _ => I).
Proof.
  induction reads as [|[len off] rest IH]; cbn [buffer_reads].
  - apply returns_ret. auto.
  - eapply returns_bind; [apply returns_ReadAt|]. intros r. cbv beta.
    destruct (snd r) as [[| |]|]; try (apply returns_ret; auto); apply IH.
Qed.

End Live.

Lemma live_stable (rc fc : Z) : @stable F DD (@live F DD rc fc).
Proof.
  unfold stable, live, counters.
  repeat match goal with |- _ /\ _ => split end; cbn; intros; try tauto;
    intuition discriminate.
Qed.

(** Closing a frozen descriptor that is not the last reference. *)
Lemma Close_returns (refs frozen : Z) :
  0 < refs < MaxUint64 -> 0 <= frozen < MaxUint64 ->
  returns (live (uinc refs) (uinc frozen)) Close (fun _ => @live F DD refs frozen).
Proof.
  intros Hrc Hfc w (Hl & H1 & H2).
  assert (Hrc' : 0 <= refs < MaxUint64) by lia.
  pose proof (uinc_nonzero Hfc) as Nf.
  pose proof (udec_uinc Hfc) as Df.
  pose proof (uinc_small Hrc') as Sr.
  assert (Dr : usub (uinc refs) 1 = refs) by (apply (udec_uinc Hrc')).
  assert (Lr : (uinc refs <? 1) = false) by (apply Z.ltb_ge; lia).
  assert (Zr : (refs =? 0) = false) by (apply Z.eqb_neq; lia).
  remember (uinc refs) as rc1 eqn:Hrc1. remember (uinc frozen) as fc1 eqn:Hfc1.
  clear Hrc1 Hfc1 Sr.
  break_world w. cbn in H1, H2, Hl. subst rc fc.
  unfold Close, releaseFrozenDescriptor, releaseFrozenDescriptor_locked,
    releaseReferencesLocked.
  run_mon. fields.
  rewrite (eqb_zero_false Nf). fields. rewrite Df.
  unfold live, counters.
  destruct (frozen =? 0); fields; rewrite Lr; fields; rewrite Dr, Zr; cbn; auto.
Qed.

(** On a file that is alive [UploadFile] cannot panic, and cannot wait. *)
Lemma UploadFile_returns (fuel : nat) (cas : BlobAccess) (fn : digest_Function)
  (w : World) :
  file (self w) <> None ->
  0 <= referenceCount (self w) < MaxUint64 ->
  0 <= frozenDescriptorsCount (self w) < MaxUint64 ->
  match UploadFile fuel cas fn w with
  | Done (_, w') =>
      referenceCount (self w') = referenceCount (self w)
      /\ frozenDescriptorsCount (self w') = frozenDescriptorsCount (self w)
  | OutOfFuel => True
  | Panicked _ => False
  | Blocks => False
  end.
Proof.
  intros Hl Hrc Hfc.
  destruct (Z.eq_dec (referenceCount (self w)) 0) as [Hz|Hnz].
  - rewrite (stale_UploadFile fuel cas fn w Hz). auto.
  - unfold UploadFile. unfold bind at 1. rewrite (acquire_live w Hnz).
    cbn [fst snd negb].
    set (rc := referenceCount (self w)) in *.
    set (fc := frozenDescriptorsCount (self w)) in *.
    assert (Hrc' : 0 < rc < MaxUint64) by lia.
    match goal with
    | |- match ?m ?w1 with _ => _ end =>
        assert (H : returns (live (uinc rc) (uinc fc)) m
                      (fun _ => @live F DD rc fc))
    end.
    { eapply returns_bind with (Q := fun _ => live (uinc rc) (uinc fc)).
      { destruct (0 <? writableDescriptorsCount (self w));
          [apply returns_emit; intros; apply live_stable; assumption
          | apply returns_ret; auto]. }
      intros ?. eapply returns_bind.
      { apply returns_updateCachedDigest; [apply live_stable | intros ? [? ?]; assumption]. }
      intros d. cbv beta. destruct (snd d).
      - eapply returns_bind; [apply Close_returns; assumption|].
        intros ?. apply returns_ret. auto.
      - eapply returns_bind with (Q := fun _ => @live F DD rc fc).
        + unfold BlobAccess_Put.
          eapply returns_bind with (Q := fun _ => live (uinc rc) (uinc fc)).
          { apply returns_emit. intros. apply live_stable. assumption. }
          intros ?. eapply returns_bind.
          { apply returns_buffer_reads;
              [apply live_stable | intros ? [? ?]; assumption]. }
          intros e. eapply returns_bind; [apply Close_returns; assumption|].
          intros ?. cbv beta. destruct e; apply returns_ret; auto.
        + intros e. destruct e; apply returns_ret; auto. }
    match goal with
    | |- match ?m ?w1 with _ => _ end =>
        specialize (H w1); destruct (m w1) as [[r w'] | | |]
    end; apply H; repeat split; auto.
Qed.

(** Every path on which [UploadFile] returns leaves the two counters as
    they were. *)
Lemma UploadFile_counters (fuel : nat) (cas : BlobAccess) (fn : digest_Function)
  (w w' : World) (r : Digest * option error) :
  0 <= referenceCount (self w) <= MaxUint64 ->
  0 <= frozenDescriptorsCount (self w) <= MaxUint64 ->
  UploadFile fuel cas fn w = Done (r, w') ->
  referenceCount (self w') = referenceCount (self w)
  /\ frozenDescriptorsCount (self w') = frozenDescriptorsCount (self w).
Proof.
  intros Hrc Hfc E.
  destruct (Z.eq_dec (referenceCount (self w)) 0) as [Hz|Hnz].
  - rewrite (stale_UploadFile fuel cas fn w Hz) in E. inversion E; subst. auto.
  - unfold UploadFile in E. unfold bind at 1 in E.
    rewrite (acquire_live w Hnz) in E.
    cbn [fst snd negb] in E.
    set (rc := referenceCount (self w)) in *.
    set (fc := frozenDescriptorsCount (self w)) in *.
    match type of E with
    | ?m ?w1 = _ =>
        assert (H : hoare (counters (uinc rc) (uinc fc)) m
                      (fun _ => @counters F DD rc fc))
    end.
    { eapply hoare_bind.
      { destruct (0 <? writableDescriptorsCount (self w));
          [apply keeps_metric, counters_stable | apply keeps_ret]. }
      intros ?. eapply hoare_bind.
      { apply keeps_updateCachedDigest, counters_stable. }
      intros d. cbv beta. destruct (snd d).
      - eapply hoare_bind; [apply Close_counters; assumption|].
        intros ?. apply hoare_ret. auto.
      - eapply hoare_bind.
        + unfold BlobAccess_Put. eapply hoare_bind.
          { apply keeps_put, counters_stable. }
          intros ?. eapply hoare_bind.
          { apply keeps_buffer_reads, counters_stable. }
          intros e. eapply hoare_bind; [apply Close_counters; assumption|].
          intros ?. cbv beta.
          instantiate (1 := fun _ => @counters F DD rc fc).
          destruct e; apply hoare_ret; auto.
        + intros e. destruct e; apply hoare_ret; auto. }
    eapply H; [|exact E]. split; reflexivity.
Qed.

(** C5.  Every path on which [UploadFile] returns leaves [referenceCount]
    and [frozenDescriptorsCount] as it found them: when the acquisition
    fails nothing was taken; when the digest cannot be computed the call
    closes the frozen descriptor itself; otherwise the buffer handed to
    the store does so, whether the store accepts the blob or not.  On a
    file that is alive and whose counters have room for one more
    descriptor the call has no other way out: it does not panic and does
    not wait.  ([OutOfFuel] is the bound of the model on the loop of
    [io.Copy].) *)
Theorem UploadFile_releases (fuel : nat) (cas : BlobAccess) (fn : digest_Function)
  (w : World) :
  0 <= referenceCount (self w) <= MaxUint64 ->
  0 <= frozenDescriptorsCount (self w) <= MaxUint64 ->
  (forall r w',
     UploadFile fuel cas fn w = Done (r, w') ->
     referenceCount (self w') = referenceCount (self w)
     /\ frozenDescriptorsCount (self w') = frozenDescriptorsCount (self w))
  /\ (file (self w) <> None ->
      referenceCount (self w) < MaxUint64 ->
      frozenDescriptorsCount (self w) < MaxUint64 ->
      match UploadFile fuel cas fn w with
      | Done _ => True
      | OutOfFuel => True
      | Panicked _ => False
      | Blocks => False
      end).
Proof.
  intros Hrc Hfc. split.
  - intros r w' E. exact (UploadFile_counters fuel cas fn w Hrc Hfc E).
  - intros Hl Hr Hf.
    assert (Hrc' : 0 <= referenceCount (self w) < MaxUint64) by lia.
    assert (Hfc' : 0 <= frozenDescriptorsCount (self w) < MaxUint64) by lia.
    pose proof (UploadFile_returns fuel cas fn w Hl Hrc' Hfc') as H.
    destruct (UploadFile fuel cas fn w) as [[r w'] | | |]; auto.
Qed.

(** ** Goroutines: the lock protocol *)

Lemma upd_same (t : nat) (p : pc) (ths : nat -> pc) : upd t p ths t = p.
Proof. unfold upd. rewrite Nat.eqb_refl. reflexivity. Qed.

Lemma upd_other (t u : nat) (p : pc) (ths : nat -> pc) :
  u <> t -> upd t p ths u = ths u.
Proof. intros H. unfold upd. apply Nat.eqb_neq in H. rewrite H. reflexivity. Qed.

Lemma mutating_not_shared (op : Op) : isMutating op = true -> isShared op = false.
Proof. unfold isMutating, isShared. destruct (lockKind op); congruence. Qed.

Ltac wrap_arith :=
  unfold uinc, udec, uadd, usub in *;
  repeat match goal with
    | |- context [wrap64 ?x] =>
        lazymatch goal with
        | _ : 0 <= wrap64 x < 2 ^ 64 |- _ => fail
        | _ => pose proof (wrap64_range x)
        end
    end.

Lemma body_frozen_nonneg (op : Op) : keeps (@frozen_nonneg F DD) (body op).
Proof.
  intros w r w' HP E. break_world w. unfold frozen_nonneg in *. cbn in HP.
  exec_body op E.
  all: try assumption.
  all: wrap_arith; lia.
Qed.

(** The body of a method never waits and has no loop of its own. *)
Lemma body_total (op : Op) (w : World) :
  (exists r w', body op w = Done (r, w')) \/ (exists msg, body op w = Panicked msg).
Proof.
  destruct op; unfold body; unfold_methods; unfold VirtualSeek; run_mon;
    repeat match goal with
      | |- context [if ?b then _ else _] => destruct b
      | |- context [match ?x with Some _ => _ | None => _ end] => destruct x
      | |- context [match ?x with EOF => _ | EINVAL => _ | StatusError _ _ => _ end] =>
          destruct x
      end; eauto.
Qed.

(** The channel [unfreezeWakeup] is replaced only by the release that
    brings [frozenDescriptorsCount] to zero. *)
Lemma body_wakeup (op : Op) (w w' : World) (r : Result) :
  body op w = Done (r, w') ->
  unfreezeWakeup (self w') = unfreezeWakeup (self w)
  \/ (unfreezeWakeup (self w') = S (unfreezeWakeup (self w))
      /\ frozenDescriptorsCount (self w') = 0
      /\ op = OpReleaseFrozenDescriptor).
Proof.
  intros E. break_world w.
  exec_body op E; auto.
Qed.

(** The body of a mutating method leaves [frozenDescriptorsCount] alone. *)
Lemma body_mutating_frozen (op : Op) (w w' : World) (r : Result) :
  isMutating op = true ->
  body op w = Done (r, w') ->
  frozenDescriptorsCount (self w') = frozenDescriptorsCount (self w).
Proof.
  intros Hm E. break_world w.
  destruct op; try discriminate Hm; unfold body in E; unfold_methods;
    run_mon_in E; cbn in E; split_ifs_in E; try discriminate;
    inversion E; subst; reflexivity.
Qed.

Lemma lock_inv_initial (w : World) :
  frozen_nonneg w -> lock_inv (initial w).
Proof.
  intros H. unfold lock_inv, initial. cbn.
  repeat apply conj; try (intros; discriminate); auto.
  - intros u. split; [discriminate | contradiction].
  - intros u. split; contradiction.
Qed.

Ltac thread_cases t u :=
  destruct (Nat.eq_dec u t) as [-> | ?];
  [rewrite ?upd_same in * | rewrite ?upd_other in * by assumption].

(** Every step keeps [lock_inv]. *)
Lemma lock_inv_step (t : nat) (s s' : System) :
  step t s s' -> lock_inv s -> lock_inv s'.
Proof.
  intros Hstep (I1 & I2 & I3 & I4 & I5 & I6 & I7).
  destruct Hstep as
    [ op Ha Ht
    | op Ha Ht Hs Hl
    | op Ha Ht Hs Hl
    | op Ha Ht Hf
    | op Ha Ht Hf
    | op c Ha Ht Hc
    | op r w' Ha Ht Hb
    | op msg Ha Ht Hb
    | op r Ha Ht ];
    unfold lock_inv; cbn [world lock threads aborted writer readers].
  - (* a call starts *)
    pose proof (I1 t) as W. pose proof (I2 t) as R. rewrite Ht in W, R. cbn in W, R.
    repeat apply conj; auto; intros u; intros; thread_cases t u;
      cbn in *; try discriminate; try tauto; eauto.
  - (* Lock *)
    rewrite Hl in *. cbn in *.
    repeat apply conj; auto.
    + intros u. thread_cases t u.
      * destruct (isMutating op); cbn; tauto.
      * split; [intros E; inversion E; congruence|].
        intros H. apply I1 in H. discriminate.
    + intros u. thread_cases t u.
      * destruct (isMutating op) eqn:Em; cbn; split; try contradiction;
          congruence.
      * apply I2.
    + intros u op'. thread_cases t u; [|apply I4].
      destruct (isMutating op) eqn:Em; intros E; inversion E; subst; assumption.
    + intros u op'. thread_cases t u; [|apply I5].
      destruct (isMutating op) eqn:Em; intros E; inversion E; subst; congruence.
    + intros u op' c. thread_cases t u; [|apply I7].
      destruct (isMutating op); discriminate.
  - (* RLock *)
    repeat apply conj; auto.
    + intros u. thread_cases t u.
      * cbn. split; [discriminate | congruence].
      * rewrite <- Hl. apply I1.
    + intros u. thread_cases t u.
      * cbn. tauto.
      * cbn. rewrite <- I2. split; [intros [H|H]; [congruence | exact H] | auto].
    + intros u op'. thread_cases t u; [discriminate | apply I4].
    + intros u op'. thread_cases t u; [|apply I5].
      intros E Hm. inversion E; subst. apply mutating_not_shared in Hm. congruence.
    + intros u op' c. thread_cases t u; [discriminate | apply I7].
  - (* wait *)
    assert (Wt : writer (lock s) = Some t) by (apply I1; rewrite Ht; exact Logic.I).
    repeat apply conj; auto.
    + intros u. thread_cases t u.
      * cbn. split; [discriminate | contradiction].
      * split; [discriminate|]. intros H. apply I1 in H. congruence.
    + intros u. thread_cases t u.
      * cbn. rewrite I2, Ht. cbn. tauto.
      * apply I2.
    + intros u op'. thread_cases t u; [discriminate | apply I4].
    + intros u op'. thread_cases t u; [discriminate | apply I5].
    + intros u op' c. thread_cases t u; [|apply I7].
      intros E. inversion E. lia.
  - (* pass *)
    pose proof (I4 t op Ht) as Hm. pose proof (mutating_not_shared op Hm) as Hs.
    repeat apply conj; auto.
    + intros u. thread_cases t u.
      * cbn. rewrite I1, Ht. cbn. tauto.
      * apply I1.
    + intros u. thread_cases t u.
      * cbn. rewrite I2, Ht. cbn. split; [contradiction | congruence].
      * apply I2.
    + intros u op'. thread_cases t u; [discriminate | apply I4].
    + intros u op'. thread_cases t u; [|apply I5]. intros _ _. lia.
    + intros u op' c. thread_cases t u; [discriminate | apply I7].
  - (* wake *)
    pose proof (I1 t) as W. pose proof (I2 t) as R. rewrite Ht in W, R. cbn in W, R.
    repeat apply conj; auto; intros u; intros; thread_cases t u;
      cbn in *; try discriminate; try tauto; eauto.
  - (* body *)
    pose proof (I1 t) as W. pose proof (I2 t) as R. rewrite Ht in W, R. cbn in W, R.
    repeat apply conj; auto.
    + intros u. thread_cases t u; [exact W | apply I1].
    + intros u. thread_cases t u; [exact R | apply I2].
    + intros u op'. thread_cases t u; [discriminate | apply I4].
    + intros u op'. thread_cases t u; [discriminate|].
      intros Hu Hm. exfalso.
      assert (Wu : writer (lock s) = Some u).
      { apply I1. rewrite Hu. cbn. apply mutating_not_shared. exact Hm. }
      destruct (isShared op) eqn:Es.
      * assert (Rt : In t (readers (lock s))) by (apply R; reflexivity).
        destruct I3 as [I3 | I3]; [congruence | rewrite I3 in Rt; contradiction].
      * assert (Wt : writer (lock s) = Some t) by (apply W; reflexivity). congruence.
    + exact (@body_frozen_nonneg op (world s) r w' I6 Hb).
    + intros u op' c. thread_cases t u; [discriminate|].
      intros Hu. specialize (I7 u op' c Hu).
      destruct (@body_wakeup op (world s) w' r Hb) as [E | (E & _)]; lia.
  - (* panic *)
    repeat apply conj; auto.
  - (* Unlock *)
    pose proof (I1 t) as W. pose proof (I2 t) as R. rewrite Ht in W, R. cbn in W, R.
    destruct (isShared op) eqn:Es; cbn [writer readers];
      repeat apply conj; auto.
    + intros u. thread_cases t u.
      * cbn. split; [|contradiction]. intros H. apply W in H. congruence.
      * apply I1.
    + intros u. thread_cases t u.
      * cbn. split; [|contradiction]. intros H. apply in_remove in H. tauto.
      * rewrite <- I2. split.
        -- intros H. apply in_remove in H. tauto.
        -- intros H. apply in_in_remove; assumption.
    + destruct I3 as [I3 | I3]; [left; exact I3 | right; rewrite I3; reflexivity].
    + intros u op'. thread_cases t u; [discriminate | apply I4].
    + intros u op'. thread_cases t u; [discriminate | apply I5].
    + intros u op' c. thread_cases t u; [discriminate | apply I7].
    + intros u. thread_cases t u.
      * cbn. split; [discriminate | contradiction].
      * split; [discriminate|]. intros H. apply I1 in H.
        assert (Wt : writer (lock s) = Some t) by (apply W; reflexivity). congruence.
    + intros u. thread_cases t u.
      * cbn. split; [|contradiction]. intros H. apply R in H. congruence.
      * apply I2.
    + intros u op'. thread_cases t u; [discriminate | apply I4].
    + intros u op'. thread_cases t u; [discriminate | apply I5].
    + intros u op' c. thread_cases t u; [discriminate | apply I7].
Qed.

Lemma lock_inv_steps (s s' : System) :
  steps s s' -> lock_inv s -> lock_inv s'.
Proof.
  induction 1 as [|t s1 s2 _ IH Hstep]; intros HI; [exact HI|].
  eapply lock_inv_step; [exact Hstep | apply IH; exact HI].
Qed.

Lemma lock_inv_reachable (s : System) : reachable s -> lock_inv s.
Proof.
  intros (created & ex & sz & sa & f & evs & HN & Hs).
  eapply lock_inv_steps; [exact Hs|]. apply lock_inv_initial.
  unfold frozen_nonneg. cbn [self].
  unfold NewFile in HN. destruct created as [h|e]; [|discriminate].
  destruct (fst (if 0 <? sz then file_Truncate h (int64 sz) else (None, h)));
    [discriminate|].
  unfold acquireShareAccessLocked in HN. run_mon_in HN.
  destruct (Z.land sa ShareMaskWrite =? 0); inversion HN; subst; cbn; lia.
Qed.

(** A step changes the world only by running the body of a method. *)
Lemma step_world (t : nat) (s s' : System) :
  step t s s' ->
  world s' = world s
  \/ (exists op r, threads s t = InCritical op
                   /\ body op (world s) = Done (r, world s')).
Proof.
  intros H. destruct H; cbn [world]; auto. right. eauto.
Qed.

Lemma acquire_body (w : World) :
  exists hasWritableDescriptors w',
    body OpAcquireFrozenDescriptor w =
      Done (RFrozen hasWritableDescriptors (negb (referenceCount (self w) =? 0)), w')
    /\ acquireFrozenDescriptor w =
         Done ((hasWritableDescriptors, negb (referenceCount (self w) =? 0)), w').
Proof.
  unfold body, acquireFrozenDescriptor, acquireFrozenDescriptor_locked. run_mon.
  destruct (referenceCount (self w) =? 0); cbn; eauto.
Qed.

Lemma steps_trans (s1 s2 s3 : System) :
  steps s1 s2 -> steps s2 s3 -> steps s1 s3.
Proof.
  intros H12 H23. induction H23 as [|t s3 s4 _ IH Hstep]; [exact H12|].
  eapply steps_step; [exact IH | exact Hstep].
Qed.

Lemma steps_one (t : nat) (s s' : System) : step t s s' -> steps s s'.
Proof. intros H. eapply steps_step; [apply steps_refl | exact H]. Qed.

Lemma unlocked_eta (l : rwmutex) :
  writer l = None -> readers l = [] -> l = unlocked.
Proof. destruct l; cbn; intros -> ->; reflexivity. Qed.

(** A goroutine that holds the lock after the body of its method gives
    the lock up in one step. *)
Lemma writer_unlocks (s : System) (u : nat) (op : Op) (r : Result) :
  aborted s = None ->
  threads s u = AtUnlock op r ->
  isShared op = false ->
  readers (lock s) = [] ->
  exists s', steps s s' /\ lock_freed (fun t => t <> u) s s'.
Proof.
  intros Ha Ht Hs Hr. eexists. split.
  - eapply steps_one. eapply (step_Unlock u s); eauto.
  - right. cbn. rewrite Hs. cbn. repeat split.
    + rewrite Hr. reflexivity.
    + intros t Hne. apply upd_other. exact Hne.
Qed.

Lemma writer_finishes (s : System) (u : nat) (op : Op) :
  aborted s = None ->
  threads s u = InCritical op ->
  isShared op = false ->
  readers (lock s) = [] ->
  exists s', steps s s' /\ lock_freed (fun t => t <> u) s s'.
Proof.
  intros Ha Ht Hs Hr.
  destruct (body_total op (world s)) as [(r & w' & E) | (msg & E)].
  - pose (s1 := {| world := w'; lock := lock s;
                   threads := upd u (AtUnlock op r) (threads s);
                   aborted := None |}).
    assert (H1 : step u s s1) by (eapply step_body; eauto).
    destruct (@writer_unlocks s1 u op r) as (s2 & H2 & Hf); cbn; auto.
    { apply upd_same. }
    exists s2. split.
    + eapply steps_trans; [eapply steps_one; exact H1 | exact H2].
    + destruct Hf as [Hf | (Hf1 & Hf2 & Hf3)]; [left; exact Hf|].
      right. repeat split; auto. intros t Hne. rewrite (Hf3 t Hne). cbn.
      apply upd_other. exact Hne.
  - eexists. split.
    + eapply steps_one. eapply step_panic; eauto.
    + left. cbn. discriminate.
Qed.

(** Whoever holds the lock for writing lets go of it by steps of its own,
    unless its method panics. *)
Lemma writer_releases (s : System) (u : nat) :
  lock_inv s ->
  aborted s = None ->
  writer (lock s) = Some u ->
  exists s', steps s s' /\ lock_freed (fun t => t <> u) s s'.
Proof.
  intros (I1 & I2 & I3 & I4 & _) Ha Hw.
  assert (Hr : readers (lock s) = []) by (destruct I3 as [I3|I3]; congruence).
  pose proof (proj1 (I1 u) Hw) as Hh.
  destruct (threads s u) as [|op|op|op c|op|op r] eqn:Ht; cbn in Hh;
    try contradiction.
  - destruct (Z_lt_le_dec 0 (frozenDescriptorsCount (self (world s)))) as [Hf|Hf].
    + eexists. split.
      * eapply steps_one. eapply step_wait; eauto.
      * right. cbn. repeat split.
        -- rewrite Hr. reflexivity.
        -- intros t Hne. apply upd_other. exact Hne.
    + pose (s1 := {| world := world s; lock := lock s;
                     threads := upd u (InCritical op) (threads s);
                     aborted := None |}).
      assert (H1 : step u s s1) by (eapply step_pass; eauto).
      destruct (@writer_finishes s1 u op) as (s2 & H2 & Hfr); cbn; auto.
      { apply upd_same. }
      { apply mutating_not_shared. eapply I4. exact Ht. }
      exists s2. split.
      * eapply steps_trans; [eapply steps_one; exact H1 | exact H2].
      * destruct Hfr as [Hfr | (Hf1 & Hf2 & Hf3)]; [left; exact Hfr|].
        right. repeat split; auto. intros t Hne. rewrite (Hf3 t Hne). cbn.
        apply upd_other. exact Hne.
  - apply writer_finishes with (op := op); auto.
  - apply writer_unlocks with (op := op) (r := r); auto.
Qed.

(** The goroutines that hold the lock for reading let go of it, one
    after the other. *)
Lemma readers_release (n : nat) :
  forall s : System,
    (List.length (readers (lock s)) <= n)%nat ->
    lock_inv s ->
    aborted s = None ->
    writer (lock s) = None ->
    exists s',
      steps s s' /\ lock_freed (fun t => ~ holdsRead (threads s t)) s s'.
Proof.
  induction n as [|n IH]; intros s Hlen HI Ha Hw.
  - exists s. split; [apply steps_refl|]. right. repeat split; auto.
    apply unlocked_eta; [exact Hw|].
    destruct (readers (lock s)); [reflexivity | cbn in Hlen; lia].
  - destruct (readers (lock s)) as [|u rs] eqn:Hrs.
    { exists s. split; [apply steps_refl|]. right. repeat split; auto.
      apply unlocked_eta; assumption. }
    assert (Hin : In u (readers (lock s))) by (rewrite Hrs; left; reflexivity).
    pose proof HI as (I1 & I2 & _).
    pose proof (proj1 (I2 u) Hin) as Hh.
    assert (Hu : exists s1,
               steps s s1 /\
               (aborted s1 <> None \/
                (aborted s1 = None /\ lock_inv s1 /\ writer (lock s1) = None
                 /\ readers (lock s1) = remove Nat.eq_dec u (readers (lock s))
                 /\ forall t, t <> u -> threads s1 t = threads s t))).
    { destruct (threads s u) as [|op|op|op c|op|op r] eqn:Ht; cbn in Hh;
        try contradiction.
      - destruct (body_total op (world s)) as [(r & w' & E) | (msg & E)].
        + pose (s1 := {| world := w'; lock := lock s;
                         threads := upd u (AtUnlock op r) (threads s);
                         aborted := None |}).
          assert (H1 : step u s s1) by (eapply step_body; eauto).
          assert (H2 : step u s1
                         {| world := world s1;
                            lock := if isShared op
                                    then {| writer := writer (lock s1);
                                            readers := remove Nat.eq_dec u
                                                         (readers (lock s1)) |}
                                    else {| writer := None;
                                            readers := readers (lock s1) |};
                            threads := upd u Idle (threads s1);
                            aborted := None |}).
          { eapply step_Unlock; cbn; auto. apply upd_same. }
          eexists. split.
          * eapply steps_step; [eapply steps_one; exact H1 | exact H2].
          * right. rewrite Hh. cbn.
            refine (conj eq_refl (conj _ (conj Hw (conj eq_refl _)))).
            -- rewrite Hh in H2. eapply lock_inv_step; [exact H2|].
               eapply lock_inv_step; [exact H1 | exact HI].
            -- intros t Hne. rewrite !upd_other by exact Hne. reflexivity.
        + eexists. split.
          * eapply steps_one. eapply step_panic; eauto.
          * left. cbn. discriminate.
      - assert (H2 : step u s
                       {| world := world s;
                          lock := if isShared op
                                  then {| writer := writer (lock s);
                                          readers := remove Nat.eq_dec u
                                                       (readers (lock s)) |}
                                  else {| writer := None;
                                          readers := readers (lock s) |};
                          threads := upd u Idle (threads s);
                          aborted := None |}).
        { eapply step_Unlock; eauto. }
        eexists. split.
        + eapply steps_one. exact H2.
        + right. rewrite Hh. cbn.
          refine (conj eq_refl (conj _ (conj Hw (conj eq_refl _)))).
          * rewrite Hh in H2. eapply lock_inv_step; [exact H2 | exact HI].
          * intros t Hne. apply upd_other. exact Hne. }
    destruct Hu as (s1 & H1 & [Hab | (Ha1 & HI1 & Hw1 & Hr1 & Hsame)]).
    { exists s1. split; [exact H1 | left; exact Hab]. }
    destruct (IH s1) as (s2 & H2 & Hfr); auto.
    { rewrite Hr1. pose proof (remove_length_lt Nat.eq_dec _ _ Hin) as Hlt.
      rewrite Hrs in *. lia. }
    exists s2. split; [eapply steps_trans; eassumption|].
    destruct Hfr as [Hfr | (Hf1 & Hf2 & Hf3)]; [left; exact Hfr|].
    right. repeat split; auto. intros t Hnr.
    assert (Hne : t <> u) by (intros ->; apply Hnr; apply I2; exact Hin).
    rewrite <- (Hsame t Hne). apply Hf3. rewrite (Hsame t Hne). exact Hnr.
Qed.

(** From wherever the system stands, a goroutine about to take the lock
    for [acquireFrozenDescriptor] can be run to the end of the call by
    steps of the lock holders and of its own, unless a method panics on
    the way. *)
Lemma acquire_completes (s : System) (t : nat) :
  lock_inv s ->
  aborted s = None ->
  threads s t = AtLock OpAcquireFrozenDescriptor ->
  exists s',
    steps s s' /\ (aborted s' <> None \/ (aborted s' = None /\ threads s' t = Idle)).
Proof.
  intros HI Ha Ht.
  assert (Hfree : exists s1,
             steps s s1 /\
             (aborted s1 <> None \/
              (aborted s1 = None /\ lock s1 = unlocked
               /\ threads s1 t = AtLock OpAcquireFrozenDescriptor))).
  { destruct (writer (lock s)) as [u|] eqn:Hw.
    - pose proof HI as (I1 & _).
      destruct (@writer_releases s u HI Ha Hw) as (s1 & H1 & Hfr).
      exists s1. split; [exact H1|].
      destruct Hfr as [Hfr | (Hf1 & Hf2 & Hf3)]; [left; exact Hfr|].
      right. repeat split; auto. rewrite Hf3; [exact Ht|].
      intros ->. apply I1 in Hw. rewrite Ht in Hw. exact Hw.
    - destruct (@readers_release _ s (le_n _) HI Ha Hw) as (s1 & H1 & Hfr).
      exists s1. split; [exact H1|].
      destruct Hfr as [Hfr | (Hf1 & Hf2 & Hf3)]; [left; exact Hfr|].
      right. repeat split; auto. rewrite Hf3; [exact Ht|].
      rewrite Ht. cbn. tauto. }
  destruct Hfree as (s1 & H1 & [Hab | (Ha1 & Hl1 & Ht1)]).
  { exists s1. split; [exact H1 | left; exact Hab]. }
  destruct (acquire_body (world s1)) as (hw & w' & Hb & _).
  pose (s2 := {| world := world s1;
                 lock := {| writer := Some t; readers := [] |};
                 threads := upd t (InCritical OpAcquireFrozenDescriptor) (threads s1);
                 aborted := None |}).
  assert (S2 : step t s1 s2).
  { apply (step_Lock t s1 (op := OpAcquireFrozenDescriptor)); auto. }
  pose (s3 := {| world := w'; lock := lock s2;
                 threads := upd t (AtUnlock OpAcquireFrozenDescriptor
                                     (RFrozen hw (negb (referenceCount
                                                          (self (world s1)) =? 0))))
                                (threads s2);
                 aborted := None |}).
  assert (S3 : step t s2 s3).
  { eapply (step_body t s2 (op := OpAcquireFrozenDescriptor)); cbn;
      first [reflexivity | apply upd_same | exact Hb]. }
  eexists. split.
  - eapply steps_step; [|eapply (step_Unlock t s3); cbn; auto; apply upd_same].
    eapply steps_step; [|exact S3].
    eapply steps_step; [exact H1 | exact S2].
  - right. cbn. split; [reflexivity | apply upd_same].
Qed.

(** C2.  Taking a frozen descriptor waits for nothing but the mutex: when
    the lock is free, the goroutine calling [acquireFrozenDescriptor]
    completes in three steps of its own, whatever
    [frozenDescriptorsCount] is and whoever waits in [lockMutatingData];
    when the lock is held, the holders give it up by steps of their own
    and the call then completes, unless a method panics; a goroutine that
    waits in [lockMutatingData] does not hold the lock, and one that
    holds the lock can always take a step.  Conversely a mutating method
    that has left [lockMutatingData] finds [frozenDescriptorsCount] at
    zero, and the world changes only through the body of a method; a
    goroutine that finds a frozen descriptor in [lockMutatingData] can
    only give up the lock and wait, cannot move while its channel is
    open, and the channel is closed only by the release that brings
    [frozenDescriptorsCount] to zero. *)
Theorem freeze_never_waits_mutation_does :
  (forall (s : System) t,
     aborted s = None ->
     threads s t = AtLock OpAcquireFrozenDescriptor ->
     lock s = unlocked ->
     exists s1 s2 s3 hasWritableDescriptors,
       step t s s1 /\ step t s1 s2 /\ step t s2 s3
       /\ threads s3 t = Idle
       /\ lock s3 = unlocked
       /\ acquireFrozenDescriptor (world s) =
            Done ((hasWritableDescriptors,
                   negb (referenceCount (self (world s)) =? 0)), world s3))
  /\ (forall (s : System) t,
        reachable s ->
        aborted s = None ->
        threads s t = AtLock OpAcquireFrozenDescriptor ->
        exists s',
          steps s s'
          /\ (aborted s' <> None \/ (aborted s' = None /\ threads s' t = Idle)))
  /\ (forall (s : System) t op c,
        reachable s ->
        threads s t = Waiting op c \/ threads s t = AtLock op ->
        writer (lock s) <> Some t /\ ~ In t (readers (lock s)))
  /\ (forall (s : System) t,
        reachable s ->
        aborted s = None ->
        writer (lock s) = Some t \/ In t (readers (lock s)) ->
        exists s', step t s s')
  /\ (forall (s : System) t op,
        reachable s ->
        threads s t = InCritical op ->
        isMutating op = true ->
        frozenDescriptorsCount (self (world s)) = 0)
  /\ (forall (s s' : System) t,
        step t s s' ->
        world s' = world s
        \/ (exists op r, threads s t = InCritical op
                         /\ body op (world s) = Done (r, world s')))
  /\ (forall (s s' : System) t op,
        threads s t = Locked op ->
        0 < frozenDescriptorsCount (self (world s)) ->
        step t s s' ->
        threads s' t = Waiting op (unfreezeWakeup (self (world s)))
        /\ world s' = world s
        /\ writer (lock s') = None)
  /\ (forall (s s' : System) t op c,
        threads s t = Waiting op c ->
        ~ closed c (world s) ->
        ~ step t s s')
  /\ (forall (s s' : System) t,
        step t s s' ->
        unfreezeWakeup (self (world s')) <> unfreezeWakeup (self (world s)) ->
        frozenDescriptorsCount (self (world s')) = 0
        /\ threads s t = InCritical OpReleaseFrozenDescriptor).
Proof.
  repeat apply conj.
  - intros s t Ha Ht Hl.
    destruct (acquire_body (world s)) as (hw & w' & Hb & Hacq).
    eexists. eexists. eexists. exists hw.
    split.
    { apply (step_Lock t s (op := OpAcquireFrozenDescriptor)); auto. }
    cbn [isMutating lockKind].
    split.
    { eapply (step_body t _ (op := OpAcquireFrozenDescriptor)); cbn; auto.
      - apply upd_same.
      - exact Hb. }
    split.
    { eapply (step_Unlock t _ (op := OpAcquireFrozenDescriptor)); cbn; auto.
      apply upd_same. }
    cbn. rewrite upd_same. repeat split. exact Hacq.
  - intros s t Hr Ha Ht.
    apply acquire_completes; auto. apply lock_inv_reachable. exact Hr.
  - intros s t op c Hr Ht.
    destruct (lock_inv_reachable Hr) as (I1 & I2 & _).
    split.
    + intros H. apply I1 in H. destruct Ht as [Ht|Ht]; rewrite Ht in H; exact H.
    + intros H. apply I2 in H. destruct Ht as [Ht|Ht]; rewrite Ht in H; exact H.
  - intros s t Hr Ha Hh.
    destruct (lock_inv_reachable Hr) as (I1 & I2 & _).
    assert (Hp : holdsWrite (threads s t) \/ holdsRead (threads s t)).
    { destruct Hh as [H|H]; [left; apply I1 | right; apply I2]; exact H. }
    destruct (threads s t) as [|op|op|op c|op|op r] eqn:Ht; cbn in Hp;
      try tauto.
    + destruct (Z_lt_le_dec 0 (frozenDescriptorsCount (self (world s)))).
      * eexists. eapply step_wait; eauto.
      * eexists. eapply step_pass; eauto.
    + destruct (body_total op (world s)) as [(r & w' & E) | (msg & E)].
      * eexists. eapply step_body; eauto.
      * eexists. eapply step_panic; eauto.
    + eexists. eapply step_Unlock; eauto.
  - intros s t op Hr Ht Hm.
    destruct (lock_inv_reachable Hr) as (_ & _ & _ & _ & I5 & _).
    eapply I5; eauto.
  - intros s s' t H. apply step_world. exact H.
  - intros s s' t op Ht Hf H.
    destruct H; try congruence; cbn.
    + rewrite upd_same. assert (op0 = op) by congruence. subst. auto.
    + lia.
  - intros s s' t op c Ht Hc H.
    destruct H; congruence.
  - intros s s' t H Hne.
    destruct H; cbn [world] in *; try congruence.
    destruct (@body_wakeup op (world s) w' r H1) as [E | (E & Hz & ->)];
      [congruence|]. auto.
Qed.
(** ** Creation and the life of a file *)

(** X1.  [NewFile] does not leak the backing file.  It returns a file
    exactly when it returns [StatusOK], and then the backing file is open,
    was never closed, and no error was logged; the file has the size and
    the executable bit asked for, no cached digest and no frozen
    descriptor.  When it fails it returns [StatusErrIO] and logs one
    error; if the pool had handed out a backing file by then (the
    truncation to the initial size failed), that file was closed once. *)
Theorem NewFile_no_leak (created : F + error) (isExecutable_ : bool)
  (sz shareAccess : Z) :
  match NewFile created isExecutable_ sz shareAccess with
  | (Some f, s, evs) =>
      s = StatusOK
      /\ closes evs = 0%nat
      /\ logged evs = 0%nat
      /\ file f <> None
      /\ size f = sz
      /\ isExecutable f = isExecutable_
      /\ frozenDescriptorsCount f = 0
      /\ cachedDigest f = BadDigest
      /\ referenceCount f = uadd 1 (Count shareAccess)
  | (None, s, evs) =>
      s = StatusErrIO
      /\ logged evs = 1%nat
      /\ closes evs = match created with inl _ => 1%nat | inr _ => 0%nat end
  end.
Proof.
  unfold NewFile. destruct created as [h|e]; [|cbn; auto].
  destruct (fst (if 0 <? sz then file_Truncate h (int64 sz) else (None, h))) eqn:Et.
  - destruct (0 <? sz); cbn; auto.
  - unfold acquireShareAccessLocked. run_mon.
    destruct (Z.land shareAccess ShareMaskWrite =? 0); destruct (0 <? sz);
      cbn; repeat split; discriminate.
Qed.

(** X2.  The backing file of a new file is closed when both the link of
    the directory and the descriptor [NewFile] opened are gone, and not
    before: after [VirtualClose] alone, or [Unlink] alone while the
    descriptor is open, it is still open; after both, in either order, it
    has been closed once and [file] is nil. *)
Theorem NewFile_lifecycle (created : F + error) (isExecutable_ : bool)
  (sz shareAccess : Z) (f : fileBackedFile) (evs : list event) :
  NewFile created isExecutable_ sz shareAccess = (Some f, StatusOK, evs) ->
  Count shareAccess < MaxUint64 ->
  (exists w1 w2,
     VirtualClose shareAccess {| self := f; events := evs |} = Done (tt, w1)
     /\ closes (events w1) = 0%nat /\ file (self w1) <> None
     /\ Unlink w1 = Done (tt, w2)
     /\ released w2)
  /\ (0 < Count shareAccess ->
      exists w1 w2,
        Unlink {| self := f; events := evs |} = Done (tt, w1)
        /\ closes (events w1) = 0%nat /\ file (self w1) <> None
        /\ VirtualClose shareAccess w1 = Done (tt, w2)
        /\ released w2).
Proof.
  intros HN Hc.
  pose proof (wrap64_range (ShareMask_Count shareAccess)) as Hr.
  fold (Count shareAccess) in Hr.
  unfold NewFile in HN. destruct created as [h|e]; [|discriminate].
  destruct (if 0 <? sz then file_Truncate h (int64 sz) else (None, h))
    as [[e|] h'] eqn:Et; cbn [fst snd] in HN; [discriminate|].
  assert (Hcl : closes (if 0 <? sz then [EvTruncate (int64 sz)] else []) = 0%nat)
    by (destruct (0 <? sz); reflexivity).
  remember (if 0 <? sz then [EvTruncate (int64 sz)] else []) as evs0 eqn:Hevs0.
  clear Hevs0 Et.
  assert (U1 : uadd 1 (Count shareAccess) = 1 + Count shareAccess)
    by (apply wrap64_small; unfold MaxUint64 in Hc; lia).
  unfold acquireShareAccessLocked in HN. run_mon_in HN. fields_in HN.
  rewrite U1 in HN.
  remember (Count shareAccess) as c eqn:Hcdef.
  remember (1 + c) as k eqn:Hk.
  assert (S1 : usub k c = 1).
  { unfold usub. replace (k - c) with 1 by lia. reflexivity. }
  assert (S2 : usub k 1 = c).
  { unfold usub. replace (k - 1) with c by lia. apply wrap64_small. lia. }
  assert (L1 : (k <? c) = false) by (apply Z.ltb_ge; lia).
  assert (L2 : (k <? 1) = false) by (apply Z.ltb_ge; lia).
  assert (L3 : (c <? c) = false) by (apply Z.ltb_ge; lia).
  assert (U0 : uinc 0 = 1) by reflexivity.
  assert (D1 : udec 1 = 0) by reflexivity.
  clear Hk Hc U1.
  unfold VirtualClose, VirtualClose_locked, Unlink, releaseReferencesLocked, released.
  rewrite <- Hcdef. clear Hcdef.
  destruct (Z.land shareAccess ShareMaskWrite =? 0) eqn:Ew;
    inversion HN; subst f evs; clear HN; run_mon; fields;
    try rewrite U0; cbn [Z.eqb]; fields; try rewrite D1.
  all: split;
    [ rewrite L1; fields; rewrite S1; cbn [Z.eqb]; fields
    | intros Hpos; rewrite L2; fields; rewrite S2;
      rewrite (eqb_zero_false (x := c)) by lia; fields ].
  all: do 2 eexists;
    (split; [reflexivity|]); fields;
    (split; [exact Hcl|]); (split; [discriminate|]);
    (split;
     [ run_mon; fields; try rewrite U0; cbn [Z.eqb]; fields; try rewrite D1;
       try rewrite L3; fields; try rewrite usub_self; cbn; reflexivity |]);
    cbn; rewrite Hcl; auto.
Qed.

(** ** Acquisitions and their releases *)

(** X3.  Opening a file without truncation and closing the descriptor
    again, with the same share mask, leaves the file exactly as it was:
    [VirtualClose] gives back what [VirtualOpenSelf] took, for counters
    that have room for the descriptor. *)
Theorem VirtualOpenSelf_VirtualClose_roundtrip (shareAccess : Z)
  (attributes : Attributes) (w : World) :
  0 < referenceCount (self w) ->
  referenceCount (self w) + Count shareAccess <= MaxUint64 ->
  0 <= writableDescriptorsCount (self w) < MaxUint64 ->
  exists a w1,
    VirtualOpenSelf shareAccess false attributes w = Done ((StatusOK, a), w1)
    /\ referenceCount (self w1) = referenceCount (self w) + Count shareAccess
    /\ same_metadata
         (with_writableDescriptorsCount (writableDescriptorsCount (self w))
            (with_referenceCount (referenceCount (self w)) (self w1)))
         (self w)
    /\ VirtualClose shareAccess w1 = Done (tt, w).
Proof.
  intros Hrc Hsum Hwc.
  pose proof (wrap64_range (ShareMask_Count shareAccess)) as Hr.
  fold (Count shareAccess) in Hr.
  break_world w. fields_in Hrc. fields_in Hsum. fields_in Hwc. fields.
  assert (U1 : uadd rc (Count shareAccess) = rc + Count shareAccess)
    by (apply wrap64_small; unfold MaxUint64 in Hsum; lia).
  remember (Count shareAccess) as c eqn:Hcdef.
  remember (rc + c) as k eqn:Hk.
  assert (S1 : usub k c = rc).
  { unfold usub. replace (k - c) with rc by lia. apply wrap64_small.
    unfold MaxUint64 in Hsum. lia. }
  assert (L1 : (k <? c) = false) by (apply Z.ltb_ge; lia).
  assert (Z1 : (rc =? 0) = false) by (apply Z.eqb_neq; lia).
  pose proof (uinc_nonzero Hwc) as Nw.
  pose proof (udec_uinc Hwc) as Dw.
  remember (uinc wc) as wc1 eqn:Hwc1.
  unfold VirtualOpenSelf, VirtualOpenSelf_locked, acquireShareAccessLocked,
    VirtualClose, VirtualClose_locked, releaseReferencesLocked.
  rewrite <- Hcdef. run_mon. fields. rewrite Z1. cbn [Status_eqb negb]. fields.
  rewrite U1.
  destruct (Z.land shareAccess ShareMaskWrite =? 0) eqn:Ew; fields;
    try rewrite <- Hwc1.
  all: do 2 eexists; (split; [reflexivity|]); fields;
    (split; [reflexivity|]);
    (split; [unfold same_metadata; cbn; tauto|]).
  - rewrite L1. fields. rewrite S1, Z1. reflexivity.
  - rewrite (eqb_zero_false Nw). fields. rewrite Dw, L1. fields.
    rewrite S1, Z1. reflexivity.
Qed.

(** X4.  [Link] followed by [Unlink] leaves the file exactly as it was,
    and closes nothing. *)
Theorem Link_Unlink_roundtrip (w : World) :
  0 < referenceCount (self w) < MaxUint64 ->
  exists w1,
    Link w = Done (StatusOK, w1)
    /\ referenceCount (self w1) = referenceCount (self w) + 1
    /\ events w1 = events w
    /\ Unlink w1 = Done (tt, w).
Proof.
  intros Hrc. break_world w. fields_in Hrc. fields.
  assert (Hrc' : 0 <= rc < MaxUint64) by lia.
  pose proof (uinc_small Hrc') as U1.
  assert (D1 : usub (uinc rc) 1 = rc) by (apply (udec_uinc Hrc')).
  assert (L1 : (uinc rc <? 1) = false) by (rewrite U1; apply Z.ltb_ge; lia).
  assert (Z1 : (rc =? 0) = false) by (apply Z.eqb_neq; lia).
  unfold Link, Link_locked, Unlink, releaseReferencesLocked.
  run_mon. fields. rewrite Z1.
  eexists. split; [reflexivity|]. fields. split; [exact U1|].
  split; [reflexivity|].
  remember (uinc rc) as k eqn:Hk. clear Hk U1.
  rewrite L1. fields. rewrite D1, Z1. reflexivity.
Qed.

(** [Close] is [releaseFrozenDescriptor]. *)
Lemma releaseFrozenDescriptor_counters (refs frozen : Z) :
  0 <= refs <= MaxUint64 -> 0 <= frozen <= MaxUint64 ->
  hoare (counters (uinc refs) (uinc frozen)) releaseFrozenDescriptor
    (fun _ => @counters F DD refs frozen).
Proof.
  intros H1 H2 w r w' HP E.
  apply (Close_counters H1 H2 (w := w) (a := None) (w' := w') HP).
  unfold Close, bind. rewrite E. reflexivity.
Qed.

Lemma releaseFrozenDescriptor_returns (refs frozen : Z) :
  0 < refs < MaxUint64 -> 0 <= frozen < MaxUint64 ->
  returns (live (uinc refs) (uinc frozen)) releaseFrozenDescriptor
    (fun _ => @live F DD refs frozen).
Proof.
  intros H1 H2 w HP. pose proof (Close_returns H1 H2 HP) as H.
  unfold Close, bind in H.
  destruct (releaseFrozenDescriptor w) as [[u w'] | | |]; exact H.
Qed.

Ltac either_or :=
  cbn [fst snd]; split; intros ?;
  first [ discriminate | reflexivity
        | exfalso; match goal with H : _ <> _ |- _ => apply H; reflexivity end ].

(** X5.  [GetOutputServiceFileStatus] gives back the frozen descriptor it
    takes: every path on which it returns leaves [referenceCount] and
    [frozenDescriptorsCount] as it found them, and it returns either a
    file status or an error, never both and never neither.  On a file
    without references it reports [NotFound] and touches nothing.  On a
    file that is alive and whose counters have room for one more
    descriptor it neither panics nor waits. *)
Theorem GetOutputServiceFileStatus_releases (fuel : nat)
  (digestFunction : option digest_Function) (w : World) :
  0 <= referenceCount (self w) <= MaxUint64 ->
  0 <= frozenDescriptorsCount (self w) <= MaxUint64 ->
  (forall r w',
     GetOutputServiceFileStatus fuel digestFunction w = Done (r, w') ->
     referenceCount (self w') = referenceCount (self w)
     /\ frozenDescriptorsCount (self w') = frozenDescriptorsCount (self w)
     /\ (fst r = None <-> snd r <> None))
  /\ (forall fn,
        digestFunction = Some fn ->
        referenceCount (self w) = 0 ->
        exists msg,
          GetOutputServiceFileStatus fuel digestFunction w =
            Done ((None, Some (StatusError CodeNotFound msg)), w))
  /\ (file (self w) <> None ->
      referenceCount (self w) < MaxUint64 ->
      frozenDescriptorsCount (self w) < MaxUint64 ->
      match GetOutputServiceFileStatus fuel digestFunction w with
      | Done _ => True
      | OutOfFuel => True
      | Panicked _ => False
      | Blocks => False
      end).
Proof.
  intros Hrc Hfc.
  set (rc := referenceCount (self w)) in *.
  set (fc := frozenDescriptorsCount (self w)) in *.
  destruct digestFunction as [fn|].
  2:{ unfold GetOutputServiceFileStatus. repeat apply conj.
      - intros r w' E. inversion E; subst. fold rc fc.
        split; [reflexivity|]. split; [reflexivity|]. either_or.
      - intros fn E. discriminate.
      - intros. exact Logic.I. }
  destruct (Z.eq_dec rc 0) as [Hz|Hnz].
  { remember (GetOutputServiceFileStatus fuel (Some fn) w) as g eqn:Eg.
    unfold GetOutputServiceFileStatus in Eg. unfold bind at 1 in Eg.
    rewrite (acquire_stale w Hz) in Eg. cbn [fst snd negb] in Eg. subst g.
    repeat apply conj.
    - intros r w' E. inversion E; subst. fold rc fc.
      split; [reflexivity|]. split; [reflexivity|]. either_or.
    - intros fn' _ _. eexists. reflexivity.
    - intros. exact Logic.I. }
  remember (GetOutputServiceFileStatus fuel (Some fn) w) as g eqn:Eg.
  unfold GetOutputServiceFileStatus in Eg. unfold bind at 1 in Eg.
  rewrite (acquire_live w Hnz) in Eg. cbn [fst snd negb] in Eg.
  fold rc fc in Eg. subst g.
  repeat apply conj.
  - intros r w' E.
    match type of E with
    | ?m ?w1 = _ =>
        assert (H : hoare (counters (uinc rc) (uinc fc)) m
                      (fun r w => @counters F DD rc fc w
                                  /\ (fst r = None <-> snd r <> None)))
    end.
    { eapply hoare_bind
        with (Q := fun res w => @counters F DD (uinc rc) (uinc fc) w
                                /\ (fst res = None <-> snd res <> None)).
      - destruct (negb (0 <? writableDescriptorsCount (self w))).
        + eapply hoare_bind.
          { apply keeps_updateCachedDigest, counters_stable. }
          intros d. cbv beta. destruct (snd d); apply hoare_ret; intros w0 H0;
            (split; [exact H0|]); either_or.
        + apply hoare_ret. intros w0 H0. split; [exact H0|]. either_or.
      - intros res. eapply hoare_bind
          with (Q := fun _ w => @counters F DD rc fc w
                                /\ (fst res = None <-> snd res <> None)).
        + intros w0 u w0' [H0 H1] E0. split; [|exact H1].
          exact (releaseFrozenDescriptor_counters Hrc Hfc H0 E0).
        + intros _. apply hoare_ret. auto. }
    assert (H0 : counters (uinc rc) (uinc fc)
                   {| self := with_frozenDescriptorsCount (uinc fc)
                                (with_referenceCount (uinc rc) (self w));
                      events := events w |}) by (split; reflexivity).
    destruct (H _ _ _ H0 E) as [[H1 H2] H3]. auto.
  - intros fn' _ Hz. contradiction.
  - intros Hl Hr Hf.
    assert (Hrc' : 0 < rc < MaxUint64) by lia.
    assert (Hfc' : 0 <= fc < MaxUint64) by lia.
    match goal with
    | |- match ?m ?w1 with _ => _ end =>
        assert (H : returns (live (uinc rc) (uinc fc)) m
                      (fun _ => @live F DD rc fc))
    end.
    { eapply returns_bind with (Q := fun _ => live (uinc rc) (uinc fc)).
      - destruct (negb (0 <? writableDescriptorsCount (self w))).
        + eapply returns_bind.
          { apply returns_updateCachedDigest;
              [apply live_stable | intros ? [? ?]; assumption]. }
          intros d. cbv beta. destruct (snd d); apply returns_ret; auto.
        + apply returns_ret. auto.
      - intros res. eapply returns_bind.
        + apply releaseFrozenDescriptor_returns; assumption.
        + intros ?. apply returns_ret. auto. }
    match goal with
    | |- match ?m ?w1 with _ => _ end =>
        specialize (H w1); destruct (m w1) as [[r w'] | | |]
    end; try exact Logic.I; apply H; repeat split; auto.
Qed.

(** X6.  While a descriptor is open for writing,
    [GetOutputServiceFileStatus] reports the file without a digest: it
    computes nothing, makes no call on the backing file, and leaves the
    cached digest, the size, the change ID and all three counters as they
    were. *)
Theorem GetOutputServiceFileStatus_writable (fuel : nat) (fn : digest_Function)
  (w : World) :
  0 < referenceCount (self w) < MaxUint64 ->
  0 <= frozenDescriptorsCount (self w) < MaxUint64 ->
  0 < writableDescriptorsCount (self w) ->
  exists w',
    GetOutputServiceFileStatus fuel (Some fn) w =
      Done ((Some {| fileStatusDigest := None |}, None), w')
    /\ backingCalls (events w') = backingCalls (events w)
    /\ file (self w') = file (self w)
    /\ cachedDigest (self w') = cachedDigest (self w)
    /\ size (self w') = size (self w)
    /\ changeID (self w') = changeID (self w)
    /\ referenceCount (self w') = referenceCount (self w)
    /\ writableDescriptorsCount (self w') = writableDescriptorsCount (self w)
    /\ frozenDescriptorsCount (self w') = frozenDescriptorsCount (self w).
Proof.
  intros Hrc Hfc Hwc.
  assert (Hnz : referenceCount (self w) <> 0) by lia.
  unfold GetOutputServiceFileStatus. unfold bind at 1.
  rewrite (acquire_live w Hnz). cbn [fst snd negb].
  apply Z.ltb_lt in Hwc. rewrite Hwc. cbn [negb].
  break_world w. fields_in Hrc. fields_in Hfc. fields.
  assert (Hrc' : 0 <= rc < MaxUint64) by lia.
  pose proof (uinc_nonzero Hfc) as Nf.
  pose proof (udec_uinc Hfc) as Df.
  assert (Dr : usub (uinc rc) 1 = rc) by (apply (udec_uinc Hrc')).
  assert (Lr : (uinc rc <? 1) = false)
    by (rewrite (uinc_small Hrc'); apply Z.ltb_ge; lia).
  assert (Zr : (rc =? 0) = false) by (apply Z.eqb_neq; lia).
  remember (uinc rc) as rc1 eqn:Hrc1. remember (uinc fc) as fc1 eqn:Hfc1.
  clear Hrc1 Hfc1.
  unfold releaseFrozenDescriptor, releaseFrozenDescriptor_locked,
    releaseReferencesLocked.
  run_mon. fields. rewrite (eqb_zero_false Nf). fields. rewrite Df.
  destruct (fc =? 0); fields; rewrite Lr; fields; rewrite Dr, Zr;
    (eexists; split; [reflexivity|]); cbn; repeat split; reflexivity.
Qed.

(** ** The digest that is reported *)

(** Reading the backing file and releasing a frozen descriptor leave the
    cached digest alone. *)
Lemma ReadAt_cachedDigest (d : Digest) (len off : Z) :
  keeps (fun w : World => cachedDigest (self w) = d) (ReadAt len off).
Proof.
  intros w r w' H E. unfold ReadAt, ReadAt_locked in E. run_mon_in E.
  destruct (file (self w)); [|discriminate].
  injection E as Hr Hw. rewrite <- Hw. exact H.
Qed.

Lemma buffer_reads_cachedDigest (d : Digest) (reads : list (Z * Z)) :
  keeps (fun w : World => cachedDigest (self w) = d) (buffer_reads reads).
Proof.
  induction reads as [|[len off] rest IH]; cbn [buffer_reads].
  - apply keeps_ret.
  - apply keeps_bind; [apply ReadAt_cachedDigest|]. intros r.
    destruct (snd r) as [[| |]|]; try apply keeps_ret; apply IH.
Qed.

Lemma releaseFrozenDescriptor_cachedDigest (d : Digest) :
  keeps (fun w : World => cachedDigest (self w) = d) releaseFrozenDescriptor.
Proof.
  intros w r w' H E. break_world w. fields_in H.
  unfold releaseFrozenDescriptor, releaseFrozenDescriptor_locked,
    releaseReferencesLocked in E.
  run_mon_in E. fields_in E.
  split_ifs_in E; try discriminate; inversion E; subst; reflexivity.
Qed.

Lemma updateCachedDigest_stored (fuel : nat) (fn : digest_Function) :
  hoare (fun _ : World => True) (updateCachedDigest fuel fn)
    (fun r w => snd r = None -> cachedDigest (self w) = fst r).
Proof.
  intros w r w' _ E. unfold updateCachedDigest in E. unfold bind at 1 in E.
  unfold getCachedDigest in E. run_mon_in E.
  destruct (negb (Digest_eqb (cachedDigest (self w)) BadDigest)
            && UsesDigestFunction (cachedDigest (self w)) fn).
  - inversion E; subst. reflexivity.
  - destruct (io_Copy fuel 0 [] w) as [[[data err] w2] | | |]; try discriminate.
    cbn [fst snd] in E. destruct err; inversion E; subst; [discriminate|].
    reflexivity.
Qed.

Lemma keeps_pure {A : Type} (I : World -> Prop) (P : Prop) (m : M A) :
  keeps I m -> keeps (fun w => I w /\ P) m.
Proof. intros H w a w' [H1 H2] E. split; [exact (H w a w' H1 E) | exact H2]. Qed.

(** What [UploadFile] returns without an error is what
    [updateCachedDigest] returned, and the file still has it cached. *)
Lemma UploadFile_stored (G : Digest -> Prop) (fuel : nat) (cas : BlobAccess)
  (fn : digest_Function) :
  (forall (w : World) r w',
     updateCachedDigest fuel fn w = Done (r, w') -> snd r = None -> G (fst r)) ->
  hoare (fun _ : World => True) (UploadFile fuel cas fn)
    (fun r w => snd r = None -> cachedDigest (self w) = fst r /\ G (fst r)).
Proof.
  intros HG. unfold UploadFile.
  eapply hoare_bind with (Q := fun _ _ => True); [intros ? ? ? ? ?; exact Logic.I|].
  intros a. destruct (negb (snd a)).
  { apply hoare_ret. intros ? ? ?. discriminate. }
  eapply hoare_bind with (Q := fun _ _ => True); [intros ? ? ? ? ?; exact Logic.I|].
  intros ?.
  eapply hoare_bind
    with (Q := fun r w0 => snd r = None ->
                           cachedDigest (self w0) = fst r /\ G (fst r)).
  { intros w0 r w1 _ E Hn. split.
    - exact (@updateCachedDigest_stored fuel fn w0 r w1 Logic.I E Hn).
    - exact (HG w0 r w1 E Hn). }
  intros r. cbv beta. destruct (snd r) as [err|].
  - eapply hoare_bind with (Q := fun _ _ => True);
      [intros ? ? ? ? ?; exact Logic.I|].
    intros ?. apply hoare_ret. intros ? ? ?. discriminate.
  - eapply hoare_bind
      with (Q := fun _ w0 => cachedDigest (self w0) = fst r /\ G (fst r)).
    + unfold BlobAccess_Put.
      eapply hoare_bind
        with (Q := fun _ w0 => cachedDigest (self w0) = fst r /\ G (fst r)).
      { apply hoare_emit. intros w0 H0. apply H0. reflexivity. }
      intros ?. eapply hoare_bind;
        [apply keeps_pure, buffer_reads_cachedDigest|].
      intros e. eapply hoare_bind
        with (Q := fun _ w0 => cachedDigest (self w0) = fst r /\ G (fst r)).
      { unfold Close. eapply hoare_bind;
          [apply keeps_pure, releaseFrozenDescriptor_cachedDigest|].
        intros ?. apply hoare_ret. intros w0 H0. exact H0. }
      intros ?. cbv beta. destruct e; apply hoare_ret; auto.
    + intros e. destruct e; apply hoare_ret; intros w0 H0 H1;
        [discriminate | exact H0].
Qed.

(** X7.  A digest that [UploadFile] or [GetOutputServiceFileStatus]
    hands back is the digest the file has cached when the call returns:
    neither the reads of the store nor the release of the frozen
    descriptor disturb it, so a later [updateCachedDigest] or
    [AppendOutputPathPersistencyDirectoryNode] sees the same digest. *)
Theorem reported_digest_is_cached (fuel : nat) (fn : digest_Function) (w : World) :
  (forall cas d w',
     UploadFile fuel cas fn w = Done ((d, None), w') ->
     cachedDigest (self w') = d)
  /\ (forall d e w',
        GetOutputServiceFileStatus fuel (Some fn) w =
          Done ((Some {| fileStatusDigest := Some d |}, e), w') ->
        cachedDigest (self w') = d).
Proof.
  split.
  - intros cas d w' E.
    assert (HG : forall (w0 : World) r w1,
               updateCachedDigest fuel fn w0 = Done (r, w1) ->
               snd r = None -> True) by auto.
    exact (proj1 (@UploadFile_stored (fun _ => True) fuel cas fn HG
                    w (d, None) w' Logic.I E eq_refl)).
  - intros d e w' E.
    assert (H : hoare (fun _ : World => True)
                  (GetOutputServiceFileStatus fuel (Some fn))
                  (fun r w => forall d, fst r = Some {| fileStatusDigest := Some d |} ->
                                        cachedDigest (self w) = d)).
    { unfold GetOutputServiceFileStatus.
      eapply hoare_bind with (Q := fun _ _ => True); [intros ? ? ? ? ?; exact Logic.I|].
      intros a. destruct (negb (snd a)).
      { apply hoare_ret. intros ? ? ? ?. discriminate. }
      eapply hoare_bind
        with (Q := fun res w0 =>
                     forall d, fst res = Some {| fileStatusDigest := Some d |} ->
                               cachedDigest (self w0) = d).
      - destruct (negb (fst a)).
        + eapply hoare_bind; [apply updateCachedDigest_stored|].
          intros r. cbv beta. destruct (snd r) as [err|]; apply hoare_ret;
            intros w0 H0 d0 H1; cbn [fst] in H1; [discriminate|].
          injection H1 as H1. rewrite <- H1. apply H0. reflexivity.
        + apply hoare_ret. intros ? ? ? ?. discriminate.
      - intros res.
        destruct (fst res) as [[[d0|]]|] eqn:Er.
        + eapply hoare_bind with (Q := fun _ w0 => cachedDigest (self w0) = d0).
          * intros w0 u w1 H0 E0.
            exact (releaseFrozenDescriptor_cachedDigest (H0 d0 eq_refl) E0).
          * intros ?. apply hoare_ret. intros w0 H0 d1 H1.
            rewrite Er in H1. injection H1 as H1. rewrite <- H1. exact H0.
        + eapply hoare_bind with (Q := fun _ _ => True);
            [intros ? ? ? ? ?; exact Logic.I|].
          intros ?. apply hoare_ret. intros w0 _ d1 H1.
          rewrite Er in H1. discriminate.
        + eapply hoare_bind with (Q := fun _ _ => True);
            [intros ? ? ? ? ?; exact Logic.I|].
          intros ?. apply hoare_ret. intros w0 _ d1 H1.
          rewrite Er in H1. discriminate. }
    exact (H w _ w' Logic.I E d eq_refl).
Qed.

(** ** The entry in the persistent state *)

Lemma Append_run (files : list FileNode) (name : string) (w : World) :
  AppendOutputPathPersistencyDirectoryNode files name w =
    Done (if Digest_eqb (cachedDigest (self w)) BadDigest then files
          else files ++ [fileNode name (cachedDigest (self w)) (self w)], w).
Proof.
  unfold AppendOutputPathPersistencyDirectoryNode, getCachedDigest. run_mon.
  destruct (Digest_eqb (cachedDigest (self w)) BadDigest); reflexivity.
Qed.

(** A digest that [updateCachedDigest] returns is not [BadDigest], as long
    as the generator of package [digest] never produces it. *)
Lemma updateCachedDigest_not_bad (fuel : nat) (fn : digest_Function)
  (w w' : World) (r : Digest * option error) :
  (forall a b, Digest_eqb a b = true <-> a = b) ->
  (forall data, Generator_Sum fn data <> BadDigest) ->
  updateCachedDigest fuel fn w = Done (r, w') ->
  snd r = None ->
  fst r <> BadDigest.
Proof.
  intros Heq Hbad E Hn. unfold updateCachedDigest in E. unfold bind at 1 in E.
  unfold getCachedDigest in E. run_mon_in E.
  destruct (negb (Digest_eqb (cachedDigest (self w)) BadDigest)
            && UsesDigestFunction (cachedDigest (self w)) fn) eqn:Ec.
  - injection E as Hr Hw. rewrite <- Hr. cbn [fst].
    apply andb_prop in Ec. destruct Ec as [E1 _]. intros Hb. rewrite Hb in E1.
    rewrite (proj2 (Heq BadDigest BadDigest) eq_refl) in E1. discriminate.
  - destruct (io_Copy fuel 0 [] w) as [[[data err] w2] | | |]; try discriminate.
    cbn [fst snd] in E. destruct err; injection E as Hr Hw; rewrite <- Hr in *.
    + discriminate.
    + apply Hbad.
Qed.

(** A write that stored a byte, and a call of [VirtualSetAttributes] that
    set the size, leave no cached digest behind. *)
Lemma VirtualWrite_drops_digest (buf : list Byte.byte) (offset : Z)
  (w w' : World) (n : Z) (s : Status) :
  VirtualWrite buf offset w = Done ((n, s), w') ->
  0 < n ->
  cachedDigest (self w') = BadDigest.
Proof.
  intros E Hn. break_world w. unfold VirtualWrite, VirtualWrite_locked in E.
  run_mon_in E. fields_in E.
  destruct (0 <? fc); [discriminate|].
  destruct fl as [h|]; [|discriminate]. fields_in E.
  destruct (file_WriteAt h buf (int64 offset)) as [[n0 err] h'].
  fields_in E.
  destruct (0 <? n0) eqn:En0.
  - fields_in E. destruct (sz <? uadd offset (uint64 n0));
      destruct err; injection E as Hn0 Hs Hw; rewrite <- Hw; reflexivity.
  - apply Z.ltb_ge in En0.
    destruct err; injection E as Hn0 Hs Hw; lia.
Qed.

Lemma VirtualSetAttributes_drops_digest (in_ : Attributes) (requested : Z)
  (out a : Attributes) (sizeBytes : Z) (w w' : World) :
  attrSizeBytes in_ = Some sizeBytes ->
  VirtualSetAttributes in_ requested out w = Done ((StatusOK, a), w') ->
  cachedDigest (self w') = BadDigest.
Proof.
  intros Hs E. break_world w.
  unfold VirtualSetAttributes, VirtualSetAttributes_locked, virtualTruncate in E.
  rewrite Hs in E. run_mon_in E. fields_in E.
  destruct (0 <? fc); [discriminate|].
  destruct fl as [h|]; [|discriminate]. fields_in E.
  destruct (file_Truncate h (int64 sizeBytes)) as [[e|] h']; fields_in E;
    cbn [Status_eqb negb] in E; [discriminate|].
  destruct (attrPermissions in_); injection E as Ha Hw; rewrite <- Hw; reflexivity.
Qed.

(** X8.  [AppendOutputPathPersistencyDirectoryNode] persists a file
    exactly when a digest is cached, and then under that digest.  So a
    file is left out after a write that stored a byte and after its size
    was set, and it is recorded, under the digest that was uploaded, after
    an upload that succeeded.  The entries made earlier are kept, and the
    file itself is not touched. *)
Theorem persistency_follows_digest (files : list FileNode) (name : string) :
  (forall a b, Digest_eqb a b = true <-> a = b) ->
  (forall w : World,
     cachedDigest (self w) = BadDigest ->
     AppendOutputPathPersistencyDirectoryNode files name w = Done (files, w))
  /\ (forall w : World,
        cachedDigest (self w) <> BadDigest ->
        AppendOutputPathPersistencyDirectoryNode files name w =
          Done (files ++ [fileNode name (cachedDigest (self w)) (self w)], w))
  /\ (forall buf offset (w : World) n s w',
        VirtualWrite buf offset w = Done ((n, s), w') ->
        0 < n ->
        AppendOutputPathPersistencyDirectoryNode files name w' = Done (files, w'))
  /\ (forall in_ requested out sizeBytes (w : World) a w',
        attrSizeBytes in_ = Some sizeBytes ->
        VirtualSetAttributes in_ requested out w = Done ((StatusOK, a), w') ->
        AppendOutputPathPersistencyDirectoryNode files name w' = Done (files, w'))
  /\ (forall fuel cas fn (w : World) d w',
        (forall data, Generator_Sum fn data <> BadDigest) ->
        UploadFile fuel cas fn w = Done ((d, None), w') ->
        AppendOutputPathPersistencyDirectoryNode files name w' =
          Done (files ++ [fileNode name d (self w')], w')).
Proof.
  intros Heq.
  assert (Hb : forall w : World,
             cachedDigest (self w) = BadDigest ->
             AppendOutputPathPersistencyDirectoryNode files name w = Done (files, w)).
  { intros w H. rewrite Append_run, H.
    rewrite (proj2 (Heq BadDigest BadDigest) eq_refl). reflexivity. }
  assert (Hg : forall w : World,
             cachedDigest (self w) <> BadDigest ->
             AppendOutputPathPersistencyDirectoryNode files name w =
               Done (files ++ [fileNode name (cachedDigest (self w)) (self w)], w)).
  { intros w H. rewrite Append_run.
    destruct (Digest_eqb (cachedDigest (self w)) BadDigest) eqn:E; [|reflexivity].
    apply Heq in E. contradiction. }
  repeat apply conj.
  - exact Hb.
  - exact Hg.
  - intros buf offset w n s w' E Hn. apply Hb.
    exact (VirtualWrite_drops_digest buf offset w E Hn).
  - intros in_ requested out sizeBytes w a w' Hs E. apply Hb.
    exact (VirtualSetAttributes_drops_digest in_ requested out w Hs E).
  - intros fuel cas fn w d w' Hbad E.
    assert (HG : forall (w0 : World) r w1,
               updateCachedDigest fuel fn w0 = Done (r, w1) ->
               snd r = None -> fst r <> BadDigest).
    { intros w0 r w1. apply updateCachedDigest_not_bad; assumption. }
    destruct (@UploadFile_stored (fun d => d <> BadDigest) fuel cas fn HG
                w (d, None) w' Logic.I E eq_refl) as [H1 H2].
    cbn [fst] in H1, H2. rewrite <- H1 at 1. apply Hg. rewrite H1. exact H2.
Qed.

(** ** Attributes *)

Lemma VirtualGetAttributes_run (requested : Z) (attributes : Attributes)
  (w : World) :
  Z.land requested lockedAttributes <> 0 ->
  VirtualGetAttributes requested attributes w =
    Done (virtualGetAttributesLocked (self w)
            (virtualGetAttributesUnlocked attributes), w).
Proof.
  intros H. unfold VirtualGetAttributes. fold lockedAttributes.
  rewrite (eqb_zero_false H). run_mon. destruct w; reflexivity.
Qed.

(** The attributes a successful [VirtualSetAttributes] or
    [VirtualOpenSelf] fills in are those of the file it leaves behind. *)
Lemma VirtualSetAttributes_attributes (in_ : Attributes) (requested : Z)
  (out a : Attributes) (w w' : World) :
  VirtualSetAttributes in_ requested out w = Done ((StatusOK, a), w') ->
  a = virtualGetAttributesLocked (self w') (virtualGetAttributesUnlocked out)
  /\ (forall sizeBytes, attrSizeBytes in_ = Some sizeBytes ->
        size (self w') = sizeBytes).
Proof.
  intros E. break_world w.
  unfold VirtualSetAttributes, VirtualSetAttributes_locked, virtualTruncate in E.
  destruct (attrSizeBytes in_) as [sizeBytes|].
  - run_mon_in E. fields_in E.
    destruct (0 <? fc); [discriminate|].
    destruct fl as [h|]; [|discriminate]. fields_in E.
    destruct (file_Truncate h (int64 sizeBytes)) as [[e|] h']; fields_in E;
      cbn [Status_eqb negb] in E; [discriminate|].
    destruct (attrPermissions in_); injection E as Ha Hw; rewrite <- Hw, <- Ha;
      (split; [reflexivity|]); intros s0 Hs0; injection Hs0 as <-; reflexivity.
  - run_mon_in E. cbn [Status_eqb negb] in E.
    destruct (attrPermissions in_); injection E as Ha Hw; rewrite <- Hw, <- Ha;
      (split; [reflexivity|]); intros s0 Hs0; discriminate.
Qed.

Lemma VirtualOpenSelf_attributes (shareAccess : Z) (truncate : bool)
  (attributes a : Attributes) (w w' : World) :
  VirtualOpenSelf shareAccess truncate attributes w = Done ((StatusOK, a), w') ->
  a = virtualGetAttributesLocked (self w') (virtualGetAttributesUnlocked attributes)
  /\ (truncate = true -> size (self w') = 0).
Proof.
  intros E. break_world w.
  unfold VirtualOpenSelf, VirtualOpenSelf_locked, virtualTruncate,
    acquireShareAccessLocked in E.
  destruct truncate.
  - run_mon_in E. fields_in E.
    destruct (0 <? fc); [discriminate|]. fields_in E.
    destruct (rc =? 0); [discriminate|].
    destruct fl as [h|]; [|discriminate]. fields_in E.
    destruct (file_Truncate h (int64 0)) as [[e|] h']; fields_in E;
      cbn [Status_eqb negb] in E; [discriminate|].
    destruct (Z.land shareAccess ShareMaskWrite =? 0); injection E as Ha Hw;
      rewrite <- Hw, <- Ha; split; reflexivity.
  - run_mon_in E. fields_in E.
    destruct (rc =? 0); [discriminate|]. cbn [Status_eqb negb] in E.
    destruct (Z.land shareAccess ShareMaskWrite =? 0); injection E as Ha Hw;
      rewrite <- Hw, <- Ha; (split; [reflexivity|]); discriminate.
Qed.

(** X9.  The attributes that a successful [VirtualSetAttributes] or
    [VirtualOpenSelf] returns are the ones a [VirtualGetAttributes] that
    follows it reports: the size is the one that was just set (zero after
    [O_TRUNC]), and the change ID is the one the call left behind. *)
Theorem attributes_agree (requested : Z) (w : World) :
  Z.land requested lockedAttributes <> 0 ->
  (forall in_ requested' out a w',
     VirtualSetAttributes in_ requested' out w = Done ((StatusOK, a), w') ->
     VirtualGetAttributes requested out w' = Done (a, w')
     /\ attrChangeID a = Some (changeID (self w'))
     /\ attrFileType a = Some FileTypeRegularFile
     /\ (forall sizeBytes, attrSizeBytes in_ = Some sizeBytes ->
           attrSizeBytes a = Some sizeBytes))
  /\ (forall shareAccess truncate attributes a w',
        VirtualOpenSelf shareAccess truncate attributes w =
          Done ((StatusOK, a), w') ->
        VirtualGetAttributes requested attributes w' = Done (a, w')
        /\ attrChangeID a = Some (changeID (self w'))
        /\ attrFileType a = Some FileTypeRegularFile
        /\ (truncate = true -> attrSizeBytes a = Some 0)).
Proof.
  intros Hreq. split.
  - intros in_ requested' out a w' E.
    destruct (VirtualSetAttributes_attributes in_ requested' out w E) as [Ha Hs].
    rewrite (@VirtualGetAttributes_run requested out w' Hreq), Ha.
    repeat split. intros sizeBytes H. cbn. rewrite (Hs sizeBytes H). reflexivity.
  - intros shareAccess truncate attributes a w' E.
    destruct (VirtualOpenSelf_attributes shareAccess truncate attributes w E)
      as [Ha Hs].
    rewrite (@VirtualGetAttributes_run requested attributes w' Hreq), Ha.
    repeat split. intros H. cbn. rewrite (Hs H). reflexivity.
Qed.

(** X10.  Permissions set through [VirtualSetAttributes] keep one bit:
    the attributes returned, and every later [VirtualGetAttributes], have
    the execute permission exactly when the permissions that were set had
    it, and have the read and write permissions whatever was set.  This
    needs the execute bit to be a bit of its own. *)
Theorem chmod_keeps_execute_bit (in_ : Attributes) (requested : Z)
  (out : Attributes) (permissions : Z) (w : World) :
  PermissionsExecute <> 0 ->
  Z.land (Z.lor PermissionsRead PermissionsWrite) PermissionsExecute = 0 ->
  attrSizeBytes in_ = None ->
  attrPermissions in_ = Some permissions ->
  exists a w' p,
    VirtualSetAttributes in_ requested out w = Done ((StatusOK, a), w')
    /\ attrPermissions a = Some p
    /\ (Z.land p PermissionsExecute <> 0 <->
        Z.land permissions PermissionsExecute <> 0)
    /\ Z.land p (Z.lor PermissionsRead PermissionsWrite)
       = Z.lor PermissionsRead PermissionsWrite
    /\ isExecutable (self w') = negb (Z.land permissions PermissionsExecute =? 0)
    /\ size (self w') = size (self w)
    /\ cachedDigest (self w') = cachedDigest (self w).
Proof.
  intros Hx Hd Hs Hp.
  rewrite (VirtualSetAttributes_no_size in_ requested out w Hs).
  unfold setPermissions. rewrite Hp.
  unfold virtualGetAttributesLocked, virtualGetAttributesUnlocked.
  cbn [isExecutable with_changeID with_isExecutable].
  set (rw := Z.lor PermissionsRead PermissionsWrite) in *.
  do 3 eexists. split; [reflexivity|]. cbn [attrPermissions SetSizeBytes SetPermissions].
  split; [reflexivity|].
  destruct (Z.land permissions PermissionsExecute =? 0) eqn:Ex; cbn [negb].
  - apply Z.eqb_eq in Ex. rewrite Hd, Ex. repeat split; try tauto.
    apply Z.land_diag.
  - apply Z.eqb_neq in Ex. repeat split; try tauto.
    + intros _. rewrite Z.land_lor_distr_l, Hd, Z.land_diag. cbn. exact Hx.
    + rewrite Z.land_lor_distr_l, Z.land_diag.
      rewrite (Z.land_comm PermissionsExecute rw), Hd, Z.lor_0_r. reflexivity.
Qed.

(** ** Failures of the backing file *)

Lemma same_metadata_handle (f : fileBackedFile) (h h' : F) :
  file f = Some h -> same_metadata f (with_file (Some h') f).
Proof.
  intros H. unfold same_metadata. cbn. rewrite H.
  repeat split; try reflexivity; discriminate.
Qed.

(** X11.  A truncation that the backing file refuses is all a call does.
    [VirtualSetAttributes] with a size then returns [StatusErrIO] without
    applying the permissions it was given and without filling in the
    attributes; [VirtualOpenSelf] with [O_TRUNC] returns [StatusErrIO]
    without taking a reference or a writable descriptor; an extending
    [VirtualAllocate] returns [StatusErrIO].  In each case one error is
    logged, and the size, the change ID, the cached digest, the executable
    bit and the counters stay as they were. *)
Theorem failed_truncate_changes_nothing (w : World) (h : F) :
  file (self w) = Some h ->
  frozenDescriptorsCount (self w) = 0 ->
  (forall in_ requested out sizeBytes e,
     attrSizeBytes in_ = Some sizeBytes ->
     fst (file_Truncate h (int64 sizeBytes)) = Some e ->
     exists w',
       VirtualSetAttributes in_ requested out w = Done ((StatusErrIO, out), w')
       /\ same_metadata (self w) (self w')
       /\ logged (events w') = S (logged (events w)))
  /\ (forall shareAccess attributes e,
        referenceCount (self w) <> 0 ->
        fst (file_Truncate h (int64 0)) = Some e ->
        exists w',
          VirtualOpenSelf shareAccess true attributes w =
            Done ((StatusErrIO, attributes), w')
          /\ same_metadata (self w) (self w')
          /\ logged (events w') = S (logged (events w)))
  /\ (forall off sz e,
        size (self w) < wrap64 (off + sz) ->
        fst (file_Truncate h (int64 (wrap64 (off + sz)))) = Some e ->
        exists w',
          VirtualAllocate off sz w = Done (StatusErrIO, w')
          /\ same_metadata (self w) (self w')
          /\ logged (events w') = S (logged (events w))).
Proof.
  intros Hf Hz. repeat apply conj.
  - intros in_ requested out sizeBytes e Hs Ht.
    unfold VirtualSetAttributes, VirtualSetAttributes_locked.
    rewrite Hs.
    unfold lockMutatingData, waitUnfrozen, f_lock_Lock, f_lock_Unlock.
    unfold bind at 1 2 3. unfold ret at 1. unfold getf at 1. rewrite Hz.
    cbn [Z.ltb Z.compare]. unfold ret at 1.
    unfold bind at 1 2. rewrite (virtualTruncate_run sizeBytes w Hf).
    cbn zeta. rewrite Ht. cbn [Status_eqb negb]. run_mon.
    eexists. split; [reflexivity|]. fields.
    split; [exact (@same_metadata_handle (self w) h _ Hf) | reflexivity].
  - intros shareAccess attributes e Hr Ht.
    unfold VirtualOpenSelf, VirtualOpenSelf_locked.
    unfold lockMutatingData, waitUnfrozen, f_lock_Lock, f_lock_Unlock.
    unfold bind at 1 2 3. unfold ret at 1. unfold getf at 1. rewrite Hz.
    cbn [Z.ltb Z.compare]. unfold ret at 1.
    unfold bind at 1 2. unfold getf at 1. rewrite (eqb_zero_false Hr).
    unfold bind at 1 2. rewrite (virtualTruncate_run 0 w Hf).
    cbn zeta. rewrite Ht. cbn [Status_eqb negb]. run_mon.
    eexists. split; [reflexivity|]. fields.
    split; [exact (@same_metadata_handle (self w) h _ Hf) | reflexivity].
  - intros off sz e Hlt Ht.
    rewrite (VirtualAllocate_unfrozen off sz w Hz).
    unfold VirtualAllocate_locked. unfold bind at 1. unfold getf at 1.
    cbv beta iota zeta. rewrite uadd_wrap.
    apply Z.ltb_lt in Hlt. rewrite Hlt. rewrite status_passthrough.
    rewrite (virtualTruncate_run _ w Hf). cbn zeta. rewrite Ht.
    eexists. split; [reflexivity|]. fields.
    split; [exact (@same_metadata_handle (self w) h _ Hf) | reflexivity].
Qed.

(** What [VirtualAllocate] does to the size. *)
Lemma VirtualAllocate_size (off n : Z) (w w' : World) (s : Status) :
  VirtualAllocate off n w = Done (s, w') ->
  (s = StatusOK /\ wrap64 (off + n) <= size (self w')
   /\ (size (self w') = size (self w) \/
       (size (self w) < size (self w') /\ size (self w') = wrap64 (off + n))))
  \/ (s = StatusErrIO /\ size (self w') = size (self w)).
Proof.
  intros E. break_world w.
  unfold VirtualAllocate, VirtualAllocate_locked, virtualTruncate in E.
  rewrite uadd_wrap in E. run_mon_in E. fields_in E.
  destruct (0 <? fc); [discriminate|]. fields_in E.
  destruct (sz <? wrap64 (off + n)) eqn:El.
  - destruct fl as [h|]; [|discriminate]. fields_in E.
    apply Z.ltb_lt in El.
    destruct (file_Truncate h (int64 (wrap64 (off + n)))) as [[e|] h'];
      fields_in E; cbn [Status_eqb negb] in E; injection E as Hs Hw;
      rewrite <- Hw, <- Hs; fields.
    + right. auto.
    + left. repeat split; lia.
  - apply Z.ltb_ge in El. injection E as Hs Hw. rewrite <- Hw, <- Hs. fields.
    left. repeat split; lia.
Qed.

(** X12.  [VirtualAllocate] never shrinks a file.  When it returns
    [StatusOK] for a range that fits in a [uint64], the whole range lies
    within the file; when it fails, the size is what it was. *)
Theorem VirtualAllocate_covers (off n : Z) (w w' : World) (s : Status) :
  VirtualAllocate off n w = Done (s, w') ->
  size (self w) <= size (self w')
  /\ (s = StatusOK \/ s = StatusErrIO)
  /\ (s = StatusOK -> 0 <= off -> 0 <= n -> off + n < 2 ^ 64 ->
        off + n <= size (self w'))
  /\ (s <> StatusOK -> size (self w') = size (self w)).
Proof.
  intros E.
  destruct (VirtualAllocate_size off n w E) as [(Hs & Hle & Hsz) | (Hs & Hsz)].
  - repeat split; auto.
    + lia.
    + intros _ H0 H1 H2. rewrite wrap64_small in Hle by lia. exact Hle.
    + intros H. contradiction.
  - repeat split; auto.
    + lia.
    + intros H. rewrite Hs in H. discriminate.
Qed.

(** X13.  Whatever the backing file answers to a write, [VirtualWrite]
    leaves the executable bit, the three counters and the wake-up channel
    alone, never shrinks the file and never closes the backing file; it
    returns [StatusErrIO] exactly when it logged an error, and it changes
    nothing at all of the file when no byte was stored. *)
Theorem VirtualWrite_frame (buf : list Byte.byte) (offset : Z) (w w' : World)
  (n : Z) (s : Status) :
  VirtualWrite buf offset w = Done ((n, s), w') ->
  isExecutable (self w') = isExecutable (self w)
  /\ referenceCount (self w') = referenceCount (self w)
  /\ writableDescriptorsCount (self w') = writableDescriptorsCount (self w)
  /\ frozenDescriptorsCount (self w') = frozenDescriptorsCount (self w)
  /\ unfreezeWakeup (self w') = unfreezeWakeup (self w)
  /\ size (self w) <= size (self w')
  /\ closes (events w') = closes (events w)
  /\ (n <= 0 -> same_metadata (self w) (self w'))
  /\ ((s = StatusErrIO /\ logged (events w') = S (logged (events w)))
      \/ (s = StatusOK /\ logged (events w') = logged (events w))).
Proof.
  intros E. break_world w. unfold VirtualWrite, VirtualWrite_locked in E.
  run_mon_in E. fields_in E.
  destruct (0 <? fc); [discriminate|].
  destruct fl as [h|]; [|discriminate]. fields_in E.
  destruct (file_WriteAt h buf (int64 offset)) as [[n0 err] h'].
  fields_in E.
  destruct (0 <? n0) eqn:En0.
  - apply Z.ltb_lt in En0. fields_in E.
    destruct (sz <? uadd offset (uint64 n0)) eqn:El;
      [apply Z.ltb_lt in El | apply Z.ltb_ge in El];
      destruct err; injection E as Hn0 Hs Hw; rewrite <- Hw, <- Hs; fields;
      repeat apply conj; try reflexivity; try lia;
      first [left; split; reflexivity | right; split; reflexivity].
  - apply Z.ltb_ge in En0.
    destruct err; injection E as Hn0 Hs Hw; rewrite <- Hw, <- Hs; fields;
      repeat apply conj; try reflexivity; try lia;
      first [ left; split; reflexivity | right; split; reflexivity
            | intros _; unfold same_metadata; cbn;
              repeat split; try reflexivity; discriminate ].
Qed.

(** ** Reads *)

(** X14.  The methods that only read ([VirtualRead], [ReadAt],
    [VirtualSeek], [VirtualGetAttributes], [getCachedDigest] and
    [AppendOutputPathPersistencyDirectoryNode]) change nothing of the
    file: size, change ID, cached digest, executable bit, counters and
    wake-up channel are as before, the content of the backing file is not
    written, and the backing file is not closed.  The last three do not
    even call the backing file. *)
Theorem reads_change_nothing (w : World) :
  (forall buf off r w',
     VirtualRead buf off w = Done (r, w') ->
     same_metadata (self w) (self w')
     /\ contentCalls (events w') = contentCalls (events w)
     /\ closes (events w') = closes (events w))
  /\ (forall len off r w',
        ReadAt len off w = Done (r, w') ->
        same_metadata (self w) (self w')
        /\ contentCalls (events w') = contentCalls (events w)
        /\ closes (events w') = closes (events w))
  /\ (forall offset regionType r w',
        VirtualSeek offset regionType w = Done (r, w') ->
        same_metadata (self w) (self w')
        /\ contentCalls (events w') = contentCalls (events w)
        /\ closes (events w') = closes (events w))
  /\ (forall requested attributes,
        exists a, VirtualGetAttributes requested attributes w = Done (a, w))
  /\ getCachedDigest w = Done (cachedDigest (self w), w)
  /\ (forall files name,
        exists files',
          AppendOutputPathPersistencyDirectoryNode files name w = Done (files', w)).
Proof.
  assert (Hsame : forall f : fileBackedFile, same_metadata f f).
  { intros f. unfold same_metadata. repeat split; auto. }
  repeat apply conj.
  - intros buf off r w' E. break_world w.
    unfold VirtualRead, VirtualRead_locked in E. run_mon_in E. fields_in E.
    destruct (0 <? List.length (fst (BoundReadToFileSize buf off sz)))%nat.
    + destruct fl as [h|]; [|discriminate]. fields_in E.
      destruct (negb (List.length (fst (fst (file_ReadAt h _ (int64 off))))
                      =? List.length (fst (BoundReadToFileSize buf off sz)))%nat);
        injection E as Hr Hw; rewrite <- Hw; fields;
        (split; [unfold same_metadata; cbn;
                 repeat split; try reflexivity; discriminate
                | split; reflexivity]).
    + injection E as Hr Hw. rewrite <- Hw. fields. auto.
  - intros len off r w' E. break_world w.
    unfold ReadAt, ReadAt_locked in E. run_mon_in E. fields_in E.
    destruct fl as [h|]; [|discriminate]. fields_in E.
    injection E as Hr Hw. rewrite <- Hw. fields.
    split; [unfold same_metadata; cbn; repeat split; try reflexivity; discriminate
           | split; reflexivity].
  - intros offset regionType r w' E. break_world w.
    unfold VirtualSeek in E. run_mon_in E. fields_in E.
    destruct (sz <=? offset).
    + injection E as Hr Hw. rewrite <- Hw. fields. auto.
    + destruct fl as [h|]; [|discriminate]. fields_in E.
      destruct (snd (fst (file_GetNextRegionOffset h (int64 offset) regionType)))
        as [[| |]|]; injection E as Hr Hw; rewrite <- Hw; fields;
        (split; [unfold same_metadata; cbn;
                 repeat split; try reflexivity; discriminate
                | split; reflexivity]).
  - intros requested attributes. unfold VirtualGetAttributes. run_mon.
    destruct (Z.land requested _ =? 0); eexists; destruct w; reflexivity.
  - unfold getCachedDigest. run_mon. destruct w; reflexivity.
  - intros files name. rewrite Append_run. eexists. reflexivity.
Qed.

(** ** Goroutines: what the interleavings keep *)

Lemma released_once_step (t : nat) (s s' : System) :
  step t s s' -> released_once (world s) -> released_once (world s').
Proof.
  intros Hstep HI.
  destruct (step_world Hstep) as [E | (op & r & _ & E)].
  - rewrite E. exact HI.
  - exact (@body_released_once op (world s) r (world s') HI E).
Qed.

Lemma released_step (t : nat) (s s' : System) :
  step t s s' -> released (world s) -> released (world s').
Proof.
  intros Hstep HI.
  destruct (step_world Hstep) as [E | (op & r & _ & E)].
  - rewrite E. exact HI.
  - exact (@body_released op (world s) r (world s') HI E).
Qed.

(** X15.  Under any interleaving of calls by any number of goroutines,
    the backing file of a file made by [NewFile] is closed at most once;
    it has been closed exactly when [file] is nil, and then no reference
    is left.  From then on no step of any goroutine brings the file back
    or closes it again. *)
Theorem reachable_closes_once (s : System) :
  reachable s ->
  (closes (events (world s)) <= 1)%nat
  /\ (closes (events (world s)) = 1%nat <-> file (self (world s)) = None)
  /\ (file (self (world s)) = None -> referenceCount (self (world s)) = 0)
  /\ (forall s', steps s s' -> released (world s) -> released (world s')).
Proof.
  intros (created & ex & sz & sa & f & evs & HN & Hs).
  assert (HI : released_once (world s)).
  { destruct (NewFile_released_once created ex sz sa HN) as (H0 & _ & _).
    remember (initial {| self := f; events := evs |}) as s0 eqn:Hs0.
    assert (H1 : released_once (world s0)) by (subst s0; exact H0).
    clear Hs0 H0 HN. induction Hs as [|t s1 s2 _ IH Hstep]; [exact H1|].
    exact (released_once_step Hstep IH). }
  destruct (released_once_closes (world s) HI) as (H1 & H2 & H3).
  refine (conj H1 (conj H2 (conj H3 _))).
  intros s' Hsteps Hr. induction Hsteps as [|t s1 s2 _ IH Hstep]; [exact Hr|].
  exact (released_step Hstep IH).
Qed.

(** A method that does not go through [lockMutatingData] neither changes
    the size of the file nor writes to the backing file. *)
Lemma body_nonmutating_content (op : Op) (w w' : World) (r : Result) :
  isMutating op = false ->
  body op w = Done (r, w') ->
  size (self w') = size (self w)
  /\ contentCalls (events w') = contentCalls (events w).
Proof.
  intros Hm E. break_world w.
  destruct op; unfold isMutating, lockKind in Hm; try discriminate Hm;
    try (destruct truncate; [discriminate Hm|]);
    try (destruct (attrSizeBytes in_) eqn:Hsize; [discriminate Hm|]);
    unfold body in E; unfold_methods; unfold VirtualSeek in E;
    try rewrite Hsize in E;
    run_mon_in E; cbn in E;
    split_ifs_in E; try discriminate; inversion E; subst; cbn; auto.
Qed.

(** X16.  While a frozen descriptor is out, no goroutine changes the
    content of the file: no step of any interleaving changes its size or
    makes a [WriteAt] or [Truncate] call on the backing file.  This is
    what lets [UploadFile] compute the digest and then hand the same
    bytes to the store. *)
Theorem frozen_content_stable (t : nat) (s s' : System) :
  reachable s ->
  step t s s' ->
  0 < frozenDescriptorsCount (self (world s)) ->
  size (self (world s')) = size (self (world s))
  /\ contentCalls (events (world s')) = contentCalls (events (world s)).
Proof.
  intros Hr Hstep Hfc.
  destruct (lock_inv_reachable Hr) as (_ & _ & _ & _ & I5 & _).
  destruct (step_world Hstep) as [E | (op & r & Hth & E)].
  - rewrite E. auto.
  - destruct (isMutating op) eqn:Hm.
    + pose proof (I5 t op Hth Hm). lia.
    + exact (body_nonmutating_content op (world s) Hm E).
Qed.

(** What a release does to the wake-up channel. *)
Lemma release_wakeup (w w' : World) (r : Result) :
  body OpReleaseFrozenDescriptor w = Done (r, w') ->
  (frozenDescriptorsCount (self w') = 0 ->
     unfreezeWakeup (self w') = S (unfreezeWakeup (self w)))
  /\ (frozenDescriptorsCount (self w') <> 0 ->
        unfreezeWakeup (self w') = unfreezeWakeup (self w)).
Proof.
  intros E. break_world w. unfold body in E. unfold_methods.
  run_mon_in E. cbn in E.
  split_ifs_in E; try discriminate; inversion E; subst; cbn in *; to_props;
    split; intros; try reflexivity; try contradiction; congruence.
Qed.

(** X17.  No wake-up is lost.  When a release of a frozen descriptor
    brings [frozenDescriptorsCount] to zero, every goroutine that waits in
    [lockMutatingData] waits on a channel that is now closed, and can go
    on to take the lock again; a release that leaves frozen descriptors
    behind leaves the channel as it is. *)
Theorem release_wakes_waiters (t : nat) (s s' : System) :
  reachable s ->
  step t s s' ->
  threads s t = InCritical OpReleaseFrozenDescriptor ->
  aborted s' = None ->
  (frozenDescriptorsCount (self (world s')) = 0 ->
     forall u op c,
       threads s' u = Waiting op c ->
       closed c (world s')
       /\ exists s'', step u s' s'' /\ threads s'' u = AtLock op)
  /\ (frozenDescriptorsCount (self (world s')) <> 0 ->
        unfreezeWakeup (self (world s')) = unfreezeWakeup (self (world s))).
Proof.
  intros Hr Hstep Hth Hab.
  destruct (lock_inv_reachable Hr) as (_ & _ & _ & _ & _ & _ & I7).
  revert Hab.
  destruct Hstep
    as [op Ha Ht | op Ha Ht Hs Hl | op Ha Ht Hs Hl | op Ha Ht Hf | op Ha Ht Hf
       | op c Ha Ht Hc | op r w' Ha Ht Hb | op msg Ha Ht Hb | op r Ha Ht];
    intros Hab; try (rewrite Hth in Ht; discriminate Ht).
  - rewrite Hth in Ht. injection Ht as <-. cbn [world threads] in *.
    destruct (release_wakeup _ Hb) as [H1 H2]. split; [|exact H2].
    intros Hz u op c Hw.
    assert (Hu : threads s u = Waiting op c).
    { destruct (Nat.eq_dec u t) as [-> | Hne].
      - rewrite upd_same in Hw. discriminate Hw.
      - rewrite upd_other in Hw by exact Hne. exact Hw. }
    assert (Hc : closed c w').
    { unfold closed. rewrite (H1 Hz). pose proof (I7 u op c Hu). lia. }
    split; [exact Hc|].
    eexists. split.
    + eapply step_wake with (op := op) (c := c);
        [reflexivity | exact Hw | exact Hc].
    + cbn [threads]. apply upd_same.
  - cbn [aborted] in Hab. discriminate Hab.
Qed.

(** ** The digest is the digest of the content *)

Lemma copyBufferSize_pos : 0 < copyBufferSize.
Proof. reflexivity. Qed.

Lemma firstn_add_skipn {A : Type} (a b : nat) :
  forall l : list A, firstn (a + b) l = (firstn a l ++ firstn b (skipn a l))%list.
Proof.
  induction a as [|a IH]; intros l; [reflexivity|].
  destruct l as [|x l]; cbn [Nat.add firstn skipn app].
  - destruct b; reflexivity.
  - rewrite IH. reflexivity.
Qed.

Lemma firstn_short_skipn {A : Type} (a b : nat) (l : list A) :
  (List.length (firstn b (skipn a l)) < b)%nat ->
  (firstn a l ++ firstn b (skipn a l))%list = l.
Proof.
  intros H.
  assert (E : firstn b (skipn a l) = skipn a l).
  { apply firstn_all2. rewrite length_firstn in H. lia. }
  rewrite E. apply firstn_skipn.
Qed.

(** The loop of [io.Copy] over a backing file that reads back what it
    holds: started at [off] with the bytes before [off] in hand, it ends
    with all the bytes of the file, having only read. *)
Lemma io_Copy_content (holds : F -> list Byte.byte -> Prop) (c : list Byte.byte) :
  (forall h len off,
     holds h c -> 0 <= off -> 0 < len ->
     holds (snd (file_ReadAt h len off)) c
     /\ fst (fst (file_ReadAt h len off)) =
          firstn (Z.to_nat len) (skipn (Z.to_nat off) c)
     /\ snd (fst (file_ReadAt h len off)) =
          if Z.of_nat (List.length (fst (fst (file_ReadAt h len off)))) <? len
          then Some EOF else None) ->
  Z.of_nat (List.length c) + copyBufferSize <= MaxInt64 ->
  forall (fuel : nat) (off : Z) (acc : list Byte.byte) (w : World) (h : F),
    file (self w) = Some h ->
    holds h c ->
    0 <= off <= Z.of_nat (List.length c) ->
    Z.of_nat (List.length c) - off < Z.of_nat fuel * copyBufferSize ->
    acc = firstn (Z.to_nat off) c ->
    exists w' h',
      io_Copy fuel off acc w = Done ((c, None), w')
      /\ self w' = with_file (Some h') (self w)
      /\ holds h' c
      /\ contentCalls (events w') = contentCalls (events w)
      /\ closes (events w') = closes (events w).
Proof.
  intros Hread Hmax. pose proof copyBufferSize_pos as HB.
  induction fuel as [|fuel IH]; intros off acc w h Hf Hh Hoff Hfuel Hacc.
  - cbn in Hfuel. lia.
  - cbn [io_Copy].
    assert (E1 : (MaxInt64 <=? off) = false) by (apply Z.leb_gt; lia).
    rewrite E1.
    assert (E2 : Z.min copyBufferSize (MaxInt64 - off) = copyBufferSize)
      by (apply Z.min_l; lia).
    rewrite E2.
    destruct (Hread h copyBufferSize off Hh (proj1 Hoff) HB) as (Hh' & Hd & He).
    unfold bind at 1. unfold ReadAt, ReadAt_locked. run_mon. rewrite Hf.
    cbn [fst snd self events file with_file].
    rewrite He.
    set (data := fst (fst (file_ReadAt h copyBufferSize off))) in *.
    set (h1 := snd (file_ReadAt h copyBufferSize off)) in *.
    destruct (Z.of_nat (List.length data) <? copyBufferSize) eqn:Es.
    + apply Z.ltb_lt in Es.
      exists {| self := with_file (Some h1) (self w);
                events := EvReadAt copyBufferSize off :: events w |}, h1.
      split.
      * f_equal. f_equal. f_equal. rewrite Hacc, Hd.
        apply firstn_short_skipn. rewrite <- Hd. lia.
      * cbn [self events]. repeat split; try assumption; try reflexivity.
    + apply Z.ltb_ge in Es.
      assert (Hlen : List.length data = Z.to_nat copyBufferSize).
      { pose proof (length_firstn (Z.to_nat copyBufferSize)
                      (skipn (Z.to_nat off) c)) as Hl.
        rewrite <- Hd in Hl. lia. }
      assert (Hrest : off + copyBufferSize <= Z.of_nat (List.length c)).
      { pose proof (length_firstn (Z.to_nat copyBufferSize)
                      (skipn (Z.to_nat off) c)) as Hl.
        rewrite <- Hd, length_skipn in Hl. lia. }
      destruct (IH (off + Z.of_nat (List.length data)) (acc ++ data)%list
                  {| self := with_file (Some h1) (self w);
                     events := EvReadAt copyBufferSize off :: events w |} h1)
        as (w' & h' & Ew & Hs & Hh'' & Hc1 & Hc2).
      * reflexivity.
      * exact Hh'.
      * lia.
      * rewrite Nat2Z.inj_succ in Hfuel. lia.
      * rewrite Hlen, Hacc, Hd.
        replace (Z.to_nat (off + Z.of_nat (Z.to_nat copyBufferSize)))
          with (Z.to_nat off + Z.to_nat copyBufferSize)%nat by lia.
        symmetry. apply firstn_add_skipn.
      * exists w', h'. split; [exact Ew|].
        rewrite Hs. cbn [self events] in *.
        repeat split; assumption.
Qed.

(** What [updateCachedDigest] does on a backing file that reads back the
    bytes it holds, when no usable digest is cached. *)
Lemma updateCachedDigest_content
  (holds : F -> list Byte.byte -> Prop) (c : list Byte.byte)
  (fuel : nat) (fn : digest_Function) (w : World) (h : F) :
  (forall h len off,
     holds h c -> 0 <= off -> 0 < len ->
     holds (snd (file_ReadAt h len off)) c
     /\ fst (fst (file_ReadAt h len off)) =
          firstn (Z.to_nat len) (skipn (Z.to_nat off) c)
     /\ snd (fst (file_ReadAt h len off)) =
          if Z.of_nat (List.length (fst (fst (file_ReadAt h len off)))) <? len
          then Some EOF else None) ->
  Z.of_nat (List.length c) + copyBufferSize <= MaxInt64 ->
  Z.of_nat (List.length c) < Z.of_nat fuel * copyBufferSize ->
  file (self w) = Some h ->
  holds h c ->
  negb (Digest_eqb (cachedDigest (self w)) BadDigest)
    && UsesDigestFunction (cachedDigest (self w)) fn = false ->
  exists w' h',
    updateCachedDigest fuel fn w = Done ((Generator_Sum fn c, None), w')
    /\ self w' = with_cachedDigest (Generator_Sum fn c)
                   (with_file (Some h') (self w))
    /\ holds h' c
    /\ contentCalls (events w') = contentCalls (events w)
    /\ closes (events w') = closes (events w).
Proof.
  intros Hread Hmax Hfuel Hf Hh Hmiss.
  destruct (@io_Copy_content holds c Hread Hmax fuel 0 [] w h Hf Hh)
    as (w1 & h' & Ec & Hs & Hh' & Hc1 & Hc2); try lia; try reflexivity.
  unfold updateCachedDigest. unfold bind at 1. unfold getCachedDigest.
  run_mon. rewrite Hmiss, Ec. cbn [fst snd].
  exists {| self := with_cachedDigest (Generator_Sum fn c) (self w1);
            events := events w1 |}, h'.
  split; [reflexivity|]. cbn [self events]. rewrite Hs. auto.
Qed.
(** X18.  The digest that [updateCachedDigest] computes is the digest of
    the whole content of the backing file.  On a backing file that reads
    back the bytes it holds, with no usable digest cached, the call reads
    the file in pieces of 32 KiB, returns the digest of all its bytes and
    caches it; it writes nothing, and leaves the size, the change ID and
    the counters alone.  [fuel] bounds the number of pieces. *)
Theorem updateCachedDigest_digest_of_content
  (holds : F -> list Byte.byte -> Prop) (c : list Byte.byte)
  (fuel : nat) (fn : digest_Function) (w : World) (h : F) :
  (forall h len off,
     holds h c -> 0 <= off -> 0 < len ->
     holds (snd (file_ReadAt h len off)) c
     /\ fst (fst (file_ReadAt h len off)) =
          firstn (Z.to_nat len) (skipn (Z.to_nat off) c)
     /\ snd (fst (file_ReadAt h len off)) =
          if Z.of_nat (List.length (fst (fst (file_ReadAt h len off)))) <? len
          then Some EOF else None) ->
  Z.of_nat (List.length c) + copyBufferSize <= MaxInt64 ->
  Z.of_nat (List.length c) < Z.of_nat fuel * copyBufferSize ->
  file (self w) = Some h ->
  holds h c ->
  negb (Digest_eqb (cachedDigest (self w)) BadDigest)
    && UsesDigestFunction (cachedDigest (self w)) fn = false ->
  exists w' h',
    updateCachedDigest fuel fn w = Done ((Generator_Sum fn c, None), w')
    /\ self w' = with_cachedDigest (Generator_Sum fn c)
                   (with_file (Some h') (self w))
    /\ holds h' c
    /\ contentCalls (events w') = contentCalls (events w)
    /\ closes (events w') = closes (events w).
Proof.
  intros Hread Hmax Hfuel Hf Hh Hmiss.
  destruct (@io_Copy_content holds c Hread Hmax fuel 0 [] w h Hf Hh)
    as (w1 & h' & Ec & Hs & Hh' & Hc1 & Hc2); try lia; try reflexivity.
  unfold updateCachedDigest. unfold bind at 1. unfold getCachedDigest.
  run_mon. rewrite Hmiss, Ec. cbn [fst snd].
  exists {| self := with_cachedDigest (Generator_Sum fn c) (self w1);
            events := events w1 |}, h'.
  split; [reflexivity|]. cbn [self events]. rewrite Hs. auto.
Qed.

(** Calls on the collaborators are recorded and never forgotten. *)
Lemma body_events_grow (e : event) (op : Op) :
  keeps (fun w : World => In e (events w)) (body op).
Proof.
  intros w r w' HP E. break_world w. cbn [events] in HP.
  exec_body op E; cbn; auto 6.
Qed.

Lemma events_grow_stable (e : event) :
  @stable F DD (fun w => In e (events w)).
Proof. unfold stable. repeat split; intros; cbn; auto. Qed.

(** X19.  [UploadFile] uploads the file under the digest of its content.
    On a backing file that reads back the bytes it holds, with no usable
    digest cached, a call that returns without error returns the digest
    of all the bytes of the file; that digest is the one the store was
    handed in [Put], and the one the file has cached afterwards. *)
Theorem UploadFile_digest_of_content
  (holds : F -> list Byte.byte -> Prop) (c : list Byte.byte)
  (fuel : nat) (cas : BlobAccess) (fn : digest_Function) (w w' : World) (h : F)
  (d : Digest) :
  (forall h len off,
     holds h c -> 0 <= off -> 0 < len ->
     holds (snd (file_ReadAt h len off)) c
     /\ fst (fst (file_ReadAt h len off)) =
          firstn (Z.to_nat len) (skipn (Z.to_nat off) c)
     /\ snd (fst (file_ReadAt h len off)) =
          if Z.of_nat (List.length (fst (fst (file_ReadAt h len off)))) <? len
          then Some EOF else None) ->
  Z.of_nat (List.length c) + copyBufferSize <= MaxInt64 ->
  Z.of_nat (List.length c) < Z.of_nat fuel * copyBufferSize ->
  file (self w) = Some h ->
  holds h c ->
  negb (Digest_eqb (cachedDigest (self w)) BadDigest)
    && UsesDigestFunction (cachedDigest (self w)) fn = false ->
  UploadFile fuel cas fn w = Done ((d, None), w') ->
  d = Generator_Sum fn c
  /\ In (EvPut d) (events w')
  /\ cachedDigest (self w') = d.
Proof.
  intros Hread Hmax Hfuel Hf Hh Hmiss E.
  assert (Hcd : cachedDigest (self w') = d).
  { assert (HG : forall (w0 : World) r w1,
               updateCachedDigest fuel fn w0 = Done (r, w1) ->
               snd r = None -> True) by auto.
    exact (proj1 (@UploadFile_stored (fun _ => True) fuel cas fn HG
                    w (d, None) w' Logic.I E eq_refl)). }
  destruct (Z.eq_dec (referenceCount (self w)) 0) as [Hz|Hnz].
  { rewrite (stale_UploadFile fuel cas fn w Hz) in E. discriminate E. }
  unfold UploadFile in E. unfold bind at 1 in E.
  rewrite (acquire_live w Hnz) in E. cbn [fst snd negb] in E.
  unfold bind at 1 in E.
  match type of E with
  | match ?m ?w0 with _ => _ end = _ =>
      assert (Hm : exists evs,
                 m w0 = Done (tt, {| self := self w0; events := evs |}))
  end.
  { destruct (0 <? writableDescriptorsCount (self w)); eexists; reflexivity. }
  destruct Hm as [evs Hm]. rewrite Hm in E. cbn [self] in E.
  unfold bind at 1 in E.
  match type of E with
  | match updateCachedDigest _ _ ?w1 with _ => _ end = _ =>
      destruct (@updateCachedDigest_content holds c fuel fn w1 h
                  Hread Hmax Hfuel Hf Hh Hmiss)
        as (w2 & h2 & Eu & _)
  end.
  rewrite Eu in E. cbn [fst snd] in E. unfold bind at 1 in E.
  destruct (BlobAccess_Put cas (Generator_Sum fn c) w2)
    as [[putErr w3] | | |] eqn:Ep; try discriminate E.
  destruct putErr; [discriminate E|].
  injection E as Hd Hw. subst d w3.
  split; [reflexivity|]. split; [|exact Hcd].
  unfold BlobAccess_Put in Ep.
  assert (H : hoare (fun w0 : World => In (EvPut (Generator_Sum fn c)) (events w0))
                (readErr <- buffer_reads (put_reads cas (Generator_Sum fn c)) ;;
                 Close ;;
                 match readErr with
                 | Some e => ret (Some e)
                 | None => ret (put_result cas (Generator_Sum fn c))
                 end)
                (fun _ w0 => In (EvPut (Generator_Sum fn c)) (events w0))).
  { apply keeps_bind.
    { apply keeps_buffer_reads, events_grow_stable. }
    intros e. apply keeps_bind.
    { apply keeps_Close. intros op. apply body_events_grow. }
    intros ?. destruct e; apply keeps_ret. }
  unfold bind at 1 in Ep. unfold emit at 1 in Ep. unfold modify in Ep.
  refine (H _ _ _ _ Ep). cbn. auto.
Qed.
End Properties.

(** * The model at work *)

#[local] Existing Instance memFileReadWriter.
#[local] Existing Instance sumDigests.
#[local] Existing Instance virtualDecls.

Lemma sumDigest_eqb_eq (a b : sumDigest) : sumDigest_eqb a b = true <-> a = b.
Proof.
  destruct a as [|f1 c1 s1], b as [|f2 c2 s2]; cbn; split; intros H;
    try reflexivity; try discriminate.
  - apply andb_prop in H. destruct H as [H H3]. apply andb_prop in H.
    destruct H as [H1 H2]. apply Nat.eqb_eq in H1. apply Z.eqb_eq in H2.
    apply Z.eqb_eq in H3. subst. reflexivity.
  - inversion H; subst. rewrite Nat.eqb_refl, !Z.eqb_refl. reflexivity.
Qed.

(** The scenarios of the specification: a write of "ABC" to an empty file
    makes its size 3 and bumps [changeID] once; a read of four bytes then
    returns "ABC" and the end of the file. *)
Example write_then_read :
  VirtualWrite ABC 0 (freshWorld emptyBacking 0) = Done ((3, StatusOK), writtenWorld)
  /\ VirtualRead (repeat Byte.x00 4) 0 writtenWorld =
       Done ((ABC, 3, true, StatusOK),
             {| self := self writtenWorld;
                events := EvReadAt 3 0 :: events writtenWorld |}).
Proof. split; reflexivity. Qed.

(** Opening for reading and writing takes two references and one
    writable descriptor; an upload in that state succeeds and counts once
    on the metric. *)
Example upload_with_writable_descriptor :
  VirtualOpenSelf 3 false emptyAttributes writtenWorld =
    Done ((StatusOK,
           {| attrFileType := Some FileTypeRegularFile; attrChangeID := Some 1;
              attrPermissions := Some 6; attrSizeBytes := Some 3 |}),
          openedWorld)
  /\ match UploadFile 5 acceptingStore 7%nat openedWorld with
     | Done (r, w) => Some (r, List.length (filter isMetricInc (events w)))
     | _ => None
     end = Some ((SumOf 7 198 3, None), 1%nat).
Proof. split; reflexivity. Qed.

(** The four ways out of [UploadFile]. *)
Example UploadFile_paths :
  UploadFile 5 acceptingStore 7%nat releasedEmptyWorld =
    Done ((SumBad, Some (StatusError CodeNotFound
                           "File was unlinked before uploading could start")),
          releasedEmptyWorld)
  /\ match UploadFile 5 acceptingStore 7%nat (freshWorld flakyBacking 3) with
     | Done (r, w) =>
         Some (fst r, referenceCount (self w), frozenDescriptorsCount (self w))
     | _ => None
     end = Some (SumBad, 1, 0)
  /\ match UploadFile 5 refusingStore 7%nat writtenWorld with
     | Done (r, w) =>
         Some (fst r, referenceCount (self w), frozenDescriptorsCount (self w))
     | _ => None
     end = Some (SumBad, 1, 0)
  /\ UploadFile 5 acceptingStore 7%nat writtenWorld =
       Done ((SumOf 7 198 3, None), uploadedWorld).
Proof. repeat split; reflexivity. Qed.

(** C1: after the last [Unlink] the backing file is closed and
    [referenceCount] is zero, yet a read returns [StatusOK] where the
    claim has it fail with [StatusErrStale]; on a released file that still
    has a size, the read runs into the nil [file]. *)
Lemma VirtualRead_after_release :
  Unlink (freshWorld emptyBacking 0) = Done (tt, releasedEmptyWorld)
  /\ referenceCount (self releasedEmptyWorld) = 0
  /\ file (self releasedEmptyWorld) = None
  /\ closes (events releasedEmptyWorld) = 1%nat
  /\ VirtualRead (repeat Byte.x00 4) 0 releasedEmptyWorld =
       Done (([], 0, true, StatusOK), releasedEmptyWorld)
  /\ Unlink writtenWorld = Done (tt, releasedWrittenWorld)
  /\ referenceCount (self releasedWrittenWorld) = 0
  /\ VirtualRead (repeat Byte.x00 4) 0 releasedWrittenWorld =
       Panicked nilDereference.
Proof. repeat split; reflexivity. Qed.

(** C3: setting the executable bit of a file that has a cached digest
    bumps [changeID] and leaves the digest in place, where the claim has
    it reset. *)
Lemma chmod_keeps_cachedDigest :
  VirtualSetAttributes chmodExecutable 0 emptyAttributes digestedWorld =
    Done ((StatusOK, chmodAttributes), chmodWorld)
  /\ isExecutable (self digestedWorld) = false
  /\ isExecutable (self chmodWorld) = true
  /\ changeID (self digestedWorld) < changeID (self chmodWorld)
  /\ cachedDigest (self chmodWorld) = SumOf 7 198 3
  /\ cachedDigest (self chmodWorld) <> BadDigest.
Proof. repeat split; try reflexivity. cbn. discriminate. Qed.

Lemma mutation_bumps_changeID_witness :
  exists a w',
    VirtualSetAttributes chmodExecutable 0 emptyAttributes digestedWorld =
      Done ((StatusOK, a), w')
    /\ changeID (self digestedWorld) < changeID (self w')
    /\ isExecutable (self w') = negb (Z.land 1 PermissionsExecute =? 0)
    /\ cachedDigest (self w') = cachedDigest (self digestedWorld).
Proof.
  assert (H : 1 + 2 <= MaxUint64) by (unfold MaxUint64; lia).
  exact (proj2 (proj2 (proj2 (proj2
           (@mutation_bumps_changeID memFile memFileReadWriter sumDigests
              virtualDecls digestedWorld abcBacking eq_refl eq_refl
              (Z.le_0_1) H))))
           chmodExecutable 0 emptyAttributes 1 eq_refl eq_refl).
Defined.

Lemma VirtualWrite_written_witness :
  exists w',
    VirtualWrite ABC 0 (freshWorld shortBacking 0) = Done ((2, StatusErrIO), w')
    /\ cachedDigest (self w') = BadDigest
    /\ size (self w') = Z.max 0 (uadd 0 (uint64 2))
    /\ changeID (self w') = uinc 0
    /\ (0 <= 0 -> 0 + 2 < 2 ^ 64 -> size (self w') = Z.max 0 (0 + 2))
    /\ (0 <= 0 < MaxUint64 -> changeID (self w') = 0 + 1).
Proof.
  exact (@VirtualWrite_written memFile memFileReadWriter sumDigests
           ABC 0 (freshWorld shortBacking 0) shortBacking
           {| content := [Byte.x41; Byte.x42]; faults := O; writeLimit := Some 2%nat |}
           2 (Some injectedFault) eq_refl eq_refl eq_refl eq_refl).
Defined.

Lemma VirtualWrite_nothing_written_witness :
  exists w',
    VirtualWrite [] 0 writtenWorld = Done ((0, StatusOK), w')
    /\ size (self w') = 3
    /\ changeID (self w') = 1
    /\ cachedDigest (self w') = SumBad.
Proof.
  exact (@VirtualWrite_nothing_written memFile memFileReadWriter sumDigests
           [] 0 writtenWorld abcBacking eq_refl eq_refl eq_refl).
Defined.

Lemma VirtualAllocate_wraps_witness :
  VirtualAllocate (2 ^ 64 - 1) 4 writtenWorld = Done (StatusOK, writtenWorld)
  /\ size (self writtenWorld) < 2 ^ 64 - 1 + 4.
Proof.
  split.
  - apply (proj1 (@VirtualAllocate_wraps memFile memFileReadWriter sumDigests
                    (2 ^ 64 - 1) 4 writtenWorld eq_refl)).
    cbv. discriminate.
  - reflexivity.
Defined.

Lemma UploadFile_releases_witness :
  UploadFile 5 acceptingStore 7%nat writtenWorld =
    Done ((SumOf 7 198 3, None), uploadedWorld)
  /\ referenceCount (self uploadedWorld) = referenceCount (self writtenWorld)
  /\ frozenDescriptorsCount (self uploadedWorld)
     = frozenDescriptorsCount (self writtenWorld).
Proof.
  assert (E : UploadFile 5 acceptingStore 7%nat writtenWorld
              = Done ((SumOf 7 198 3, None), uploadedWorld)) by reflexivity.
  split; [exact E|].
  refine (proj1 (@UploadFile_releases memFile memFileReadWriter sumDigests
                   5%nat acceptingStore 7%nat writtenWorld _ _)
            (SumOf 7 198 3, None) uploadedWorld E);
    unfold MaxUint64; cbn; lia.
Defined.

(** C7: the first call fails on a read error and caches nothing, so the
    second call, with the same function and with nothing done to the file
    in between, reads the backing file again and returns another value. *)
Lemma updateCachedDigest_after_failure :
  updateCachedDigest 5 7%nat (freshWorld flakyBacking 3) =
    Done ((SumBad,
           Some (StatusError CodeInternal
                   "Failed to compute file digest: injected fault")),
          failedWorld)
  /\ updateCachedDigest 5 7%nat failedWorld =
       Done ((SumOf 7 198 3, None), recoveredWorld)
  /\ backingCalls (events failedWorld) = 1%nat
  /\ backingCalls (events recoveredWorld) = 2%nat
  /\ SumOf 7 198 3 <> SumBad.
Proof. repeat split; try reflexivity. discriminate. Qed.

Lemma updateCachedDigest_cached_witness :
  updateCachedDigest 5 7%nat writtenWorld = Done ((SumOf 7 198 3, None), digestedWorld)
  /\ updateCachedDigest 9 7%nat digestedWorld =
       Done ((SumOf 7 198 3, None), digestedWorld)
  /\ cachedDigest (self digestedWorld) = SumOf 7 198 3.
Proof.
  assert (E : updateCachedDigest 5 7%nat writtenWorld
              = Done ((SumOf 7 198 3, None), digestedWorld)) by reflexivity.
  split; [exact E|].
  apply (@updateCachedDigest_cached memFile memFileReadWriter sumDigests
           5%nat 9%nat 7%nat writtenWorld digestedWorld (SumOf 7 198 3)).
  - exact sumDigest_eqb_eq.
  - intros data. cbn. discriminate.
  - intros data. cbn. reflexivity.
  - exact E.
Defined.

(** ** The further properties at work *)

Lemma NewFile_lifecycle_witness :
  NewFile (inl emptyBacking) false 0 3 = (Some newFile, StatusOK, [])
  /\ exists w1 w2,
       VirtualClose 3 {| self := newFile; events := [] |} = Done (tt, w1)
       /\ closes (events w1) = 0%nat /\ file (self w1) <> None
       /\ Unlink w1 = Done (tt, w2)
       /\ released w2.
Proof.
  split; [reflexivity|].
  assert (H : Count 3 < MaxUint64) by reflexivity.
  exact (proj1 (NewFile_lifecycle (F := memFile) (DD := sumDigests) (inl emptyBacking) false 0 3
                  (f := newFile) (evs := []) eq_refl H)).
Defined.

Lemma VirtualOpenSelf_VirtualClose_roundtrip_witness :
  exists a w1,
    VirtualOpenSelf 3 false emptyAttributes writtenWorld = Done ((StatusOK, a), w1)
    /\ referenceCount (self w1) = referenceCount (self writtenWorld) + Count 3
    /\ same_metadata
         (with_writableDescriptorsCount (writableDescriptorsCount (self writtenWorld))
            (with_referenceCount (referenceCount (self writtenWorld)) (self w1)))
         (self writtenWorld)
    /\ VirtualClose 3 w1 = Done (tt, writtenWorld).
Proof.
  apply (VirtualOpenSelf_VirtualClose_roundtrip (F := memFile) (DD := sumDigests) 3 emptyAttributes
           writtenWorld).
  - reflexivity.
  - unfold MaxUint64. cbn. lia.
  - unfold MaxUint64. cbn. lia.
Defined.

Lemma Link_Unlink_roundtrip_witness :
  exists w1,
    Link writtenWorld = Done (StatusOK, w1)
    /\ referenceCount (self w1) = referenceCount (self writtenWorld) + 1
    /\ events w1 = events writtenWorld
    /\ Unlink w1 = Done (tt, writtenWorld).
Proof.
  apply (Link_Unlink_roundtrip (F := memFile) (DD := sumDigests) writtenWorld).
  unfold MaxUint64. cbn. lia.
Defined.

Lemma GetOutputServiceFileStatus_releases_witness :
  GetOutputServiceFileStatus 5 (Some 7%nat) writtenWorld =
    Done ((Some {| fileStatusDigest := Some (SumOf 7 198 3) |}, None), statusWorld)
  /\ referenceCount (self statusWorld) = referenceCount (self writtenWorld)
  /\ frozenDescriptorsCount (self statusWorld)
     = frozenDescriptorsCount (self writtenWorld).
Proof.
  assert (E : GetOutputServiceFileStatus 5 (Some 7%nat) writtenWorld =
              Done ((Some {| fileStatusDigest := Some (SumOf 7 198 3) |}, None),
                    statusWorld)) by reflexivity.
  split; [exact E|].
  assert (H1 : 0 <= referenceCount (self writtenWorld) <= MaxUint64)
    by (unfold MaxUint64; cbn; lia).
  assert (H2 : 0 <= frozenDescriptorsCount (self writtenWorld) <= MaxUint64)
    by (unfold MaxUint64; cbn; lia).
  destruct (proj1 (GetOutputServiceFileStatus_releases (F := memFile) (DD := sumDigests) 5
                     (Some 7%nat) writtenWorld H1 H2) _ _ E) as (R1 & R2 & _).
  exact (conj R1 R2).
Defined.

Lemma GetOutputServiceFileStatus_writable_witness :
  exists w',
    GetOutputServiceFileStatus 5 (Some 7%nat) openedWorld =
      Done ((Some {| fileStatusDigest := None |}, None), w')
    /\ backingCalls (events w') = backingCalls (events openedWorld)
    /\ file (self w') = file (self openedWorld)
    /\ cachedDigest (self w') = cachedDigest (self openedWorld)
    /\ size (self w') = size (self openedWorld)
    /\ changeID (self w') = changeID (self openedWorld)
    /\ referenceCount (self w') = referenceCount (self openedWorld)
    /\ writableDescriptorsCount (self w') = writableDescriptorsCount (self openedWorld)
    /\ frozenDescriptorsCount (self w') = frozenDescriptorsCount (self openedWorld).
Proof.
  apply (GetOutputServiceFileStatus_writable (F := memFile) (DD := sumDigests) 5 7%nat openedWorld).
  - unfold MaxUint64. cbn. lia.
  - unfold MaxUint64. cbn. lia.
  - reflexivity.
Defined.

Lemma persistency_follows_digest_witness :
  AppendOutputPathPersistencyDirectoryNode [] "out" writtenWorld =
    Done ([], writtenWorld)
  /\ AppendOutputPathPersistencyDirectoryNode [] "out" uploadedWorld =
       Done ([fileNode "out" (SumOf 7 198 3) (self uploadedWorld)], uploadedWorld).
Proof.
  pose proof (persistency_follows_digest (F := memFile) (DD := sumDigests) [] "out" sumDigest_eqb_eq)
    as (_ & _ & Hw & _ & Hu).
  split.
  - apply (Hw ABC 0 (freshWorld emptyBacking 0) 3 StatusOK writtenWorld);
      reflexivity.
  - apply (Hu 5%nat acceptingStore 7%nat writtenWorld (SumOf 7 198 3) uploadedWorld).
    + intros data. cbn. discriminate.
    + reflexivity.
Defined.

Lemma attributes_agree_witness :
  VirtualGetAttributes 4 emptyAttributes chmodWorld =
    Done (chmodAttributes, chmodWorld)
  /\ attrChangeID chmodAttributes = Some (changeID (self chmodWorld))
  /\ attrFileType chmodAttributes = Some FileTypeRegularFile.
Proof.
  assert (H : Z.land 4 lockedAttributes <> 0) by (cbn; discriminate).
  destruct (proj1 (attributes_agree (F := memFile) (DD := sumDigests) 4 digestedWorld H)
              chmodExecutable 0 emptyAttributes chmodAttributes chmodWorld eq_refl)
    as (R1 & R2 & R3 & _).
  exact (conj R1 (conj R2 R3)).
Defined.

Lemma chmod_keeps_execute_bit_witness :
  exists a w' p,
    VirtualSetAttributes chmodExecutable 0 emptyAttributes digestedWorld =
      Done ((StatusOK, a), w')
    /\ attrPermissions a = Some p
    /\ (Z.land p PermissionsExecute <> 0 <-> Z.land 1 PermissionsExecute <> 0)
    /\ Z.land p (Z.lor PermissionsRead PermissionsWrite)
       = Z.lor PermissionsRead PermissionsWrite
    /\ isExecutable (self w') = negb (Z.land 1 PermissionsExecute =? 0)
    /\ size (self w') = size (self digestedWorld)
    /\ cachedDigest (self w') = cachedDigest (self digestedWorld).
Proof.
  apply (chmod_keeps_execute_bit (F := memFile) (DD := sumDigests) chmodExecutable 0 emptyAttributes
           (permissions := 1) digestedWorld).
  - cbn. discriminate.
  - reflexivity.
  - reflexivity.
  - reflexivity.
Defined.

Lemma failed_truncate_changes_nothing_witness :
  exists w',
    VirtualSetAttributes truncateAttributes 0 emptyAttributes
      (freshWorld flakyBacking 3) = Done ((StatusErrIO, emptyAttributes), w')
    /\ same_metadata (self (freshWorld flakyBacking 3)) (self w')
    /\ logged (events w') = S (logged (events (freshWorld flakyBacking 3))).
Proof.
  exact (proj1 (failed_truncate_changes_nothing (F := memFile) (DD := sumDigests)
                  (freshWorld flakyBacking 3) (h := flakyBacking) eq_refl eq_refl)
           truncateAttributes 0 emptyAttributes 0 injectedFault eq_refl eq_refl).
Defined.

Lemma VirtualAllocate_covers_witness :
  VirtualAllocate 5 5 writtenWorld = Done (StatusOK, allocatedWorld)
  /\ size (self writtenWorld) <= size (self allocatedWorld)
  /\ 5 + 5 <= size (self allocatedWorld).
Proof.
  assert (E : VirtualAllocate 5 5 writtenWorld = Done (StatusOK, allocatedWorld))
    by reflexivity.
  split; [exact E|].
  destruct (VirtualAllocate_covers (F := memFile) (DD := sumDigests) 5 5 writtenWorld E)
    as (R1 & _ & R2 & _).
  split; [exact R1|]. apply R2; [reflexivity | lia | lia | lia].
Defined.

Lemma VirtualWrite_frame_witness :
  VirtualWrite ABC 0 (freshWorld emptyBacking 0) = Done ((3, StatusOK), writtenWorld)
  /\ referenceCount (self writtenWorld) = referenceCount (self (freshWorld emptyBacking 0))
  /\ size (self (freshWorld emptyBacking 0)) <= size (self writtenWorld)
  /\ closes (events writtenWorld) = closes (events (freshWorld emptyBacking 0)).
Proof.
  assert (E : VirtualWrite ABC 0 (freshWorld emptyBacking 0)
              = Done ((3, StatusOK), writtenWorld)) by reflexivity.
  split; [exact E|].
  destruct (VirtualWrite_frame (F := memFile) (DD := sumDigests) ABC 0 (freshWorld emptyBacking 0) E)
    as (_ & R1 & _ & _ & _ & R2 & R3 & _).
  exact (conj R1 (conj R2 R3)).
Defined.

(** The scenario is an execution. *)
Lemma scenario_step_1 : step 0 (stateAt 0) (stateAt 1).
Proof. exact (step_call 0 (stateAt 0) OpAcquireFrozenDescriptor eq_refl eq_refl). Qed.

Lemma scenario_step_2 : step 0 (stateAt 1) (stateAt 2).
Proof. exact (step_Lock 0 (stateAt 1) eq_refl eq_refl eq_refl eq_refl). Qed.

Lemma scenario_acquire :
  body OpAcquireFrozenDescriptor (freshWorld emptyBacking 0)
  = Done (RFrozen false true, frozenWorld).
Proof. reflexivity. Qed.

Lemma scenario_step_3 : step 0 (stateAt 2) (stateAt 3).
Proof. exact (step_body 0 (stateAt 2) eq_refl eq_refl scenario_acquire). Qed.

Lemma scenario_step_4 : step 0 (stateAt 3) (stateAt 4).
Proof. exact (step_Unlock 0 (stateAt 3) eq_refl eq_refl). Qed.

Lemma scenario_step_5 : step 2 (stateAt 4) (stateAt 5).
Proof. exact (step_call 2 (stateAt 4) chmodOp eq_refl eq_refl). Qed.

Lemma scenario_step_6 : step 2 (stateAt 5) (stateAt 6).
Proof. exact (step_Lock 2 (stateAt 5) eq_refl eq_refl eq_refl eq_refl). Qed.

Lemma scenario_chmod :
  body chmodOp frozenWorld
  = Done (ROpen StatusOK frozenChmodAttributes, frozenChmodWorld).
Proof. reflexivity. Qed.

Lemma scenario_step_7 : step 2 (stateAt 6) (stateAt 7).
Proof. exact (step_body 2 (stateAt 6) eq_refl eq_refl scenario_chmod). Qed.

Lemma scenario_step_8 : step 2 (stateAt 7) (stateAt 8).
Proof. exact (step_Unlock 2 (stateAt 7) eq_refl eq_refl). Qed.

Lemma scenario_step_9 : step 1 (stateAt 8) (stateAt 9).
Proof. exact (step_call 1 (stateAt 8) writeOp eq_refl eq_refl). Qed.

Lemma scenario_step_10 : step 1 (stateAt 9) (stateAt 10).
Proof. exact (step_Lock 1 (stateAt 9) eq_refl eq_refl eq_refl eq_refl). Qed.

Lemma scenario_step_11 : step 1 (stateAt 10) (stateAt 11).
Proof. exact (step_wait 1 (stateAt 10) eq_refl eq_refl eq_refl). Qed.

Lemma scenario_step_12 : step 0 (stateAt 11) (stateAt 12).
Proof. exact (step_call 0 (stateAt 11) OpReleaseFrozenDescriptor eq_refl eq_refl). Qed.

Lemma scenario_step_13 : step 0 (stateAt 12) (stateAt 13).
Proof. exact (step_Lock 0 (stateAt 12) eq_refl eq_refl eq_refl eq_refl). Qed.

Lemma scenario_release :
  body OpReleaseFrozenDescriptor frozenChmodWorld = Done (RUnit, unfrozenWorld).
Proof. reflexivity. Qed.

Lemma scenario_step_14 : step 0 (stateAt 13) (stateAt 14).
Proof. exact (step_body 0 (stateAt 13) eq_refl eq_refl scenario_release). Qed.

Lemma scenario_step_15 : step 0 (stateAt 14) (stateAt 15).
Proof. exact (step_Unlock 0 (stateAt 14) eq_refl eq_refl). Qed.

Lemma scenario_step_16 : step 0 (stateAt 15) (stateAt 16).
Proof. exact (step_call 0 (stateAt 15) OpUnlink eq_refl eq_refl). Qed.

Lemma scenario_step_17 : step 0 (stateAt 16) (stateAt 17).
Proof. exact (step_Lock 0 (stateAt 16) eq_refl eq_refl eq_refl eq_refl). Qed.

Lemma scenario_unlink :
  body OpUnlink unfrozenWorld = Done (RUnit, unlinkedWorld).
Proof. reflexivity. Qed.

Lemma scenario_step_18 : step 0 (stateAt 17) (stateAt 18).
Proof. exact (step_body 0 (stateAt 17) eq_refl eq_refl scenario_unlink). Qed.

Lemma scenario_steps_6 : steps (stateAt 0) (stateAt 6).
Proof.
  refine (steps_step _ scenario_step_6).
  refine (steps_step _ scenario_step_5).
  refine (steps_step _ scenario_step_4).
  refine (steps_step _ scenario_step_3).
  refine (steps_step _ scenario_step_2).
  refine (steps_step _ scenario_step_1).
  exact (steps_refl (stateAt 0)).
Qed.

Lemma scenario_steps_13 : steps (stateAt 0) (stateAt 13).
Proof.
  refine (steps_step _ scenario_step_13).
  refine (steps_step _ scenario_step_12).
  refine (steps_step _ scenario_step_11).
  refine (steps_step _ scenario_step_10).
  refine (steps_step _ scenario_step_9).
  refine (steps_step _ scenario_step_8).
  refine (steps_step _ scenario_step_7).
  exact scenario_steps_6.
Qed.

Lemma scenario_steps_18 : steps (stateAt 0) (stateAt 18).
Proof.
  refine (steps_step _ scenario_step_18).
  refine (steps_step _ scenario_step_17).
  refine (steps_step _ scenario_step_16).
  refine (steps_step _ scenario_step_15).
  refine (steps_step _ scenario_step_14).
  exact scenario_steps_13.
Qed.

Lemma scenario_reachable (k : nat) :
  steps (stateAt 0) (stateAt k) -> reachable (stateAt k).
Proof.
  intros H.
  exists (inl emptyBacking), false, 0, 0, (freshFile emptyBacking 0), [].
  split; [reflexivity | exact H].
Qed.

Lemma reachable_closes_once_witness :
  (closes (events (world (stateAt 18))) <= 1)%nat
  /\ (closes (events (world (stateAt 18))) = 1%nat
      <-> file (self (world (stateAt 18))) = None)
  /\ (file (self (world (stateAt 18))) = None ->
      referenceCount (self (world (stateAt 18))) = 0).
Proof.
  destruct (reachable_closes_once (F := memFile) (DD := sumDigests)
              (scenario_reachable 18 scenario_steps_18)) as (R1 & R2 & R3 & _).
  exact (conj R1 (conj R2 R3)).
Defined.

Lemma frozen_content_stable_witness :
  isExecutable (self (world (stateAt 6))) = false
  /\ isExecutable (self (world (stateAt 7))) = true
  /\ size (self (world (stateAt 7))) = size (self (world (stateAt 6)))
  /\ contentCalls (events (world (stateAt 7)))
     = contentCalls (events (world (stateAt 6))).
Proof.
  split; [reflexivity|]. split; [reflexivity|].
  apply (frozen_content_stable (F := memFile) (DD := sumDigests) (t := 2%nat)
           (scenario_reachable 6 scenario_steps_6) scenario_step_7).
  reflexivity.
Defined.

Lemma release_wakes_waiters_witness :
  threads (stateAt 14) 1%nat = Waiting writeOp 0
  /\ closed 0%nat (world (stateAt 14))
  /\ exists s'', step 1 (stateAt 14) s'' /\ threads s'' 1%nat = AtLock writeOp.
Proof.
  split; [reflexivity|].
  exact (proj1 (release_wakes_waiters (F := memFile) (DD := sumDigests)
                  (scenario_reachable 13 scenario_steps_13) scenario_step_14
                  eq_refl eq_refl)
           eq_refl 1%nat writeOp 0%nat eq_refl).
Defined.

(** A backing file in memory reads back what it holds. *)
Lemma mem_ReadAt_holds (c : list Byte.byte) (h : memFile) (len off : Z) :
  memHolds h c -> 0 <= off -> 0 < len ->
  memHolds (snd (file_ReadAt h len off)) c
  /\ fst (fst (file_ReadAt h len off)) =
       firstn (Z.to_nat len) (skipn (Z.to_nat off) c)
  /\ snd (fst (file_ReadAt h len off)) =
       if Z.of_nat (List.length (fst (fst (file_ReadAt h len off)))) <? len
       then Some EOF else None.
Proof.
  intros [Hc Hfl] Hoff Hlen.
  cbn [file_ReadAt memFileReadWriter]. unfold mem_ReadAt. rewrite Hfl.
  assert (E : (off <? 0) = false) by (apply Z.ltb_ge; exact Hoff).
  rewrite E. cbn [fst snd]. rewrite Hc.
  split; [split; assumption|]. split; reflexivity.
Qed.

Lemma updateCachedDigest_digest_of_content_witness :
  exists w' h',
    updateCachedDigest 5 7%nat writtenWorld =
      Done ((Generator_Sum 7%nat ABC, None), w')
    /\ self w' = with_cachedDigest (Generator_Sum 7%nat ABC)
                   (with_file (Some h') (self writtenWorld))
    /\ memHolds h' ABC
    /\ contentCalls (events w') = contentCalls (events writtenWorld)
    /\ closes (events w') = closes (events writtenWorld).
Proof.
  apply (updateCachedDigest_digest_of_content (F := memFile) (DD := sumDigests)
           memHolds ABC 5%nat 7%nat writtenWorld (h := abcBacking)).
  - intros h len off. apply mem_ReadAt_holds.
  - unfold MaxInt64, copyBufferSize. cbn. lia.
  - unfold copyBufferSize. cbn. lia.
  - reflexivity.
  - split; reflexivity.
  - reflexivity.
Defined.

Lemma UploadFile_digest_of_content_witness :
  UploadFile 5 acceptingStore 7%nat writtenWorld =
    Done ((SumOf 7 198 3, None), uploadedWorld)
  /\ SumOf 7 198 3 = Generator_Sum 7%nat ABC
  /\ In (EvPut (SumOf 7 198 3)) (events uploadedWorld)
  /\ cachedDigest (self uploadedWorld) = SumOf 7 198 3.
Proof.
  assert (E : UploadFile 5 acceptingStore 7%nat writtenWorld
              = Done ((SumOf 7 198 3, None), uploadedWorld)) by reflexivity.
  split; [exact E|].
  apply (UploadFile_digest_of_content (F := memFile) (DD := sumDigests)
           memHolds ABC 5%nat acceptingStore 7%nat writtenWorld
           (w' := uploadedWorld) (h := abcBacking) (d := SumOf 7 198 3)).
  - intros h len off. apply mem_ReadAt_holds.
  - unfold MaxInt64, copyBufferSize. cbn. lia.
  - unfold copyBufferSize. cbn. lia.
  - reflexivity.
  - split; reflexivity.
  - reflexivity.
  - exact E.
Defined.
